(** * CodeMate-AI front end: the protocol core

    A shallow embedding of the TypeScript sources of the extension's
    protocol core, and the properties its specification states about them:

    - [communication/protocolHandler.ts] ([ProtocolHandler]): the message
      envelope codec;
    - [commands/commandRegistry.ts] ([CommandRegistry]) with the handler of
      [commands/handlers/fileOpsHandler.ts] and [utils/validators.ts];
    - the debug, tools and execution handlers, their registration
      ([commands/handlers/index.ts]) and the requests the sidebar builds
      for them ([sidebar/sidebarProvider.ts]);
    - [sidebar/state.ts] ([StateManager]): the observable state store;
    - the WebSocket client ([WebSocketClient]): the reconnecting transport.

    JavaScript values are embedded as the inductive type [JS.Value]; objects
    that the code shares and mutates live in an explicit store; thrown
    values and rejected promises are results of a sum type. *)

From Stdlib Require Import ZArith String Ascii List Bool Lia.
From Stdlib Require Import Decimal DecimalFacts DecimalPos DecimalZ.
From stdpp Require Import gmap strings list.

Import ListNotations.
Set Warnings "-register-all".
Local Open Scope string_scope.
Local Open Scope Z_scope.

(* ===================================================================== *)
(** * JavaScript values *)
(* ===================================================================== *)

Module JS.

(** The numbers of the model: integer-valued doubles and the three
    non-finite values.  Every number the modelled code computes with
    (timestamps, durations, delays, counters) is integer-valued; negative
    zero is identified with zero. *)
Inductive Number : Type :=
| NInt (z : Z)
| NaN
| PosInfinity
| NegInfinity.

(** Values.  An object is the list of its own enumerable properties in
    enumeration order; an absent property reads as [VUndefined]. *)
Inductive Value : Type :=
| VUndefined
| VNull
| VBool (b : bool)
| VNum (n : Number)
| VStr (s : string)
| VArr (items : list Value)
| VObj (fields : list (string * Value)).

(** Induction on values, through the lists they nest. *)

Section ValueInduction.

Variable P : Value -> Prop.
Hypothesis P_undefined : P VUndefined.
Hypothesis P_null : P VNull.
Hypothesis P_bool : forall b, P (VBool b).
Hypothesis P_num : forall n, P (VNum n).
Hypothesis P_str : forall s, P (VStr s).
Hypothesis P_arr : forall items, Forall P items -> P (VArr items).
Hypothesis P_obj : forall fields, Forall (fun kx => P (snd kx)) fields -> P (VObj fields).

Fixpoint Value_nested_ind (v : Value) : P v :=
  match v with
  | VUndefined => P_undefined
  | VNull => P_null
  | VBool b => P_bool b
  | VNum n => P_num n
  | VStr s => P_str s
  | VArr items =>
      P_arr items
        ((fix each (l : list Value) : Forall P l :=
            match l with
            | [] => @List.Forall_nil _ P
            | x :: r => @List.Forall_cons _ P x r (Value_nested_ind x) (each r)
            end) items)
  | VObj fields =>
      P_obj fields
        ((fix each (l : list (string * Value)) : Forall (fun kx => P (snd kx)) l :=
            match l with
            | [] => @List.Forall_nil _ _
            | kx :: r => @List.Forall_cons _ _ kx r (Value_nested_ind (snd kx)) (each r)
            end) fields)
  end.

End ValueInduction.

(** What a [throw] carries: an [Error] object (with the name of its class
    and its message) or any other value. *)
Inductive Thrown : Type :=
| ErrorObject (name : string) (message : string)
| ThrownValue (v : Value).

(** Results of code that may throw. *)
Inductive Completion (A : Type) : Type :=
| Normal (a : A)
| Throw (e : Thrown).
Arguments Normal {A} a.
Arguments Throw {A} e.

Definition bind {A B} (c : Completion A) (k : A -> Completion B) : Completion B :=
  match c with
  | Normal a => k a
  | Throw e => Throw e
  end.

Definition Error (message : string) : Thrown := ErrorObject "Error" message.
Definition TypeError (message : string) : Thrown := ErrorObject "TypeError" message.
Definition SyntaxError (message : string) : Thrown := ErrorObject "SyntaxError" message.

(** [e instanceof Error] and [e.message]. *)
Definition instanceofError (e : Thrown) : bool :=
  match e with ErrorObject _ _ => true | ThrownValue _ => false end.

(** The double quote, as a string. *)
Definition dquote : string := String (ascii_of_nat 34) EmptyString.

(** ** Numbers as text *)

Definition digit_char (n : nat) : ascii := ascii_of_nat (48 + n).

Fixpoint uint_chars (d : Decimal.uint) : list ascii :=
  match d with
  | Nil => []
  | D0 d => digit_char 0 :: uint_chars d
  | D1 d => digit_char 1 :: uint_chars d
  | D2 d => digit_char 2 :: uint_chars d
  | D3 d => digit_char 3 :: uint_chars d
  | D4 d => digit_char 4 :: uint_chars d
  | D5 d => digit_char 5 :: uint_chars d
  | D6 d => digit_char 6 :: uint_chars d
  | D7 d => digit_char 7 :: uint_chars d
  | D8 d => digit_char 8 :: uint_chars d
  | D9 d => digit_char 9 :: uint_chars d
  end.

(** Decimal rendering of an integer, as [Number.prototype.toString] and
    [JSON.stringify] give it for integers below 10^21. *)
Definition int_chars (z : Z) : list ascii :=
  match Z.to_int z with
  | Decimal.Pos d => uint_chars d
  | Decimal.Neg d => "-"%char :: uint_chars d
  end.

Definition numberToString (n : Number) : string :=
  match n with
  | NInt z => string_of_list_ascii (int_chars z)
  | NaN => "NaN"
  | PosInfinity => "Infinity"
  | NegInfinity => "-Infinity"
  end.

(** ** Coercions of the language *)

(** [ToBoolean]: the falsy values are [undefined], [null], [false], [0],
    [NaN] and the empty string. *)
Definition truthy (v : Value) : bool :=
  match v with
  | VUndefined | VNull => false
  | VBool b => b
  | VNum (NInt z) => negb (z =? 0)
  | VNum NaN => false
  | VNum _ => true
  | VStr s => negb (String.eqb s EmptyString)
  | VArr _ | VObj _ => true
  end.

Definition typeof (v : Value) : string :=
  match v with
  | VUndefined => "undefined"
  | VNull => "object"
  | VBool _ => "boolean"
  | VNum _ => "number"
  | VStr _ => "string"
  | VArr _ | VObj _ => "object"
  end.

(** [a && b]: the left operand when it is falsy, the right one otherwise.
    The right operand is a thunk: it is not evaluated when the left one
    decides. *)
Definition and_then (a : Value) (b : unit -> Value) : Value :=
  if truthy a then b tt else a.

(** [v === s] for a string literal [s]. *)
Definition isString (v : Value) (s : string) : bool :=
  match v with
  | VStr t => String.eqb t s
  | _ => false
  end.

(** Own-property lookup in an object's field list. *)
Fixpoint lookupField (fields : list (string * Value)) (k : string) : Value :=
  match fields with
  | [] => VUndefined
  | (k', v) :: rest => if String.eqb k' k then v else lookupField rest k
  end.

(** [v.k] where [v] is known not to be [undefined] or [null], for a key [k]
    that is neither an array index nor a name of a built-in prototype
    (the keys of the modelled code are [version], [type], [id], ...):
    primitives and arrays have no such property. *)
Definition member (v : Value) (k : string) : Value :=
  match v with
  | VObj fields => lookupField fields k
  | _ => VUndefined
  end.

(** [v.k] in general: reading a property of [undefined] or [null] throws. *)
Definition getMember (v : Value) (k : string) : Completion Value :=
  match v with
  | VUndefined =>
      Throw (TypeError ("Cannot read properties of undefined (reading '" ++ k ++ "')"))
  | VNull =>
      Throw (TypeError ("Cannot read properties of null (reading '" ++ k ++ "')"))
  | _ => Normal (member v k)
  end.

Definition joinWith (sep : string) (parts : list string) : string :=
  match parts with
  | [] => EmptyString
  | p :: ps => fold_left (fun acc q => acc ++ sep ++ q) ps p
  end.

(** [String(v)], also the conversion of a template literal's hole. *)
Fixpoint toStr (v : Value) : string :=
  match v with
  | VUndefined => "undefined"
  | VNull => "null"
  | VBool true => "true"
  | VBool false => "false"
  | VNum n => numberToString n
  | VStr s => s
  | VArr items =>
      joinWith ","
        (map (fun x => match x with
                       | VUndefined | VNull => EmptyString
                       | _ => toStr x
                       end) items)
  | VObj _ => "[object Object]"
  end.

(** Substring test, [s.includes(t)]. *)
Fixpoint prefixb (t s : string) : bool :=
  match t, s with
  | EmptyString, _ => true
  | String a t', String b s' => Ascii.eqb a b && prefixb t' s'
  | String _ _, EmptyString => false
  end.

Fixpoint includesb (s t : string) : bool :=
  prefixb t s ||
  match s with
  | EmptyString => false
  | String _ s' => includesb s' t
  end.

End JS.


(* ===================================================================== *)
(** * JSON text: a reference engine *)
(* ===================================================================== *)

(** [JSON.stringify] and [JSON.parse] are built-ins of the platform, not
    code of the repository.  The codec below is stated over any engine
    ([Protocol.JSONEngine]); this module gives one engine to compute with,
    over the values of [JS.Value]:
    - [stringify] follows the built-in: no white space, [undefined]
      properties omitted, [undefined] array elements and non-finite numbers
      written [null], control characters of strings escaped;
    - [parse] reads the JSON grammar restricted to the texts whose value
      lies in [JS.Value]: number literals are integers (a literal with a
      fraction or an exponent is refused) and a unicode escape denotes a
      character below U+0080 (others are refused). *)
Module JSON.
Import JS.
Local Open Scope list_scope.

Definition chars (s : string) : list ascii := list_ascii_of_string s.

(** ** Writing *)

Definition hex_char (n : nat) : ascii :=
  if Nat.ltb n 10 then ascii_of_nat (48 + n) else ascii_of_nat (87 + n).

(** A character inside a string literal: quote and backslash escaped, the
    control characters written with their short escape or as
    a unicode escape. *)
Definition dq : ascii := ascii_of_nat 34.
Definition backslash : ascii := ascii_of_nat 92.

Definition quote_char (c : ascii) : list ascii :=
  let n := nat_of_ascii c in
  if Nat.eqb n 34 then [backslash; dq]
  else if Nat.eqb n 92 then [backslash; backslash]
  else if Nat.eqb n 8 then [backslash; "b"%char]
  else if Nat.eqb n 12 then [backslash; "f"%char]
  else if Nat.eqb n 10 then [backslash; "n"%char]
  else if Nat.eqb n 13 then [backslash; "r"%char]
  else if Nat.eqb n 9 then [backslash; "t"%char]
  else if Nat.ltb n 32
       then [backslash; "u"%char; "0"%char; "0"%char;
             hex_char (Nat.div n 16); hex_char (Nat.modulo n 16)]
       else [c].

Definition quote (s : string) : list ascii :=
  dq :: concat (map quote_char (chars s)) ++ [dq].

Fixpoint join_commas (parts : list (list ascii)) : list ascii :=
  match parts with
  | [] => []
  | [p] => p
  | p :: rest => p ++ ","%char :: join_commas rest
  end.

(** [JSON.stringify(v)] as a list of characters; [None] is the result
    [undefined]. *)
Fixpoint write (v : Value) : option (list ascii) :=
  match v with
  | VUndefined => None
  | VNull => Some (chars "null")
  | VBool true => Some (chars "true")
  | VBool false => Some (chars "false")
  | VNum (NInt z) => Some (int_chars z)
  | VNum _ => Some (chars "null")
  | VStr s => Some (quote s)
  | VArr items =>
      let fix each (l : list Value) : list (list ascii) :=
        match l with
        | [] => []
        | x :: r => default (chars "null") (write x) :: each r
        end in
      Some ("["%char :: join_commas (each items) ++ ["]"%char])
  | VObj fields =>
      let fix each (l : list (string * Value)) : list (list ascii) :=
        match l with
        | [] => []
        | (k, x) :: r =>
            match write x with
            | Some t => (quote k ++ ":"%char :: t) :: each r
            | None => each r
            end
        end in
      Some ("{"%char :: join_commas (each fields) ++ ["}"%char])
  end.

(** The written elements of an array and members of an object. *)
Definition write_elements (items : list Value) : list (list ascii) :=
  map (fun x => default (chars "null") (write x)) items.

Fixpoint write_members (fields : list (string * Value)) : list (list ascii) :=
  match fields with
  | [] => []
  | (k, x) :: r =>
      match write x with
      | Some t => (quote k ++ ":"%char :: t) :: write_members r
      | None => write_members r
      end
  end.

Definition stringify (v : Value) : option string :=
  option_map string_of_list_ascii (write v).

(** ** Reading *)

Definition is_ws (c : ascii) : bool :=
  let n := nat_of_ascii c in
  Nat.eqb n 32 || Nat.eqb n 9 || Nat.eqb n 10 || Nat.eqb n 13.

Fixpoint skip_ws (s : list ascii) : list ascii :=
  match s with
  | c :: r => if is_ws c then skip_ws r else s
  | [] => []
  end.

Definition unexpected (s : list ascii) : Thrown :=
  match s with
  | [] => SyntaxError "Unexpected end of JSON input"
  | c :: _ => SyntaxError ("Unexpected token " +:+ String c EmptyString +:+ " in JSON")
  end.

(** The rest of the input after the expected characters. *)
Fixpoint expect (word s : list ascii) : Completion (list ascii) :=
  match word with
  | [] => Normal s
  | w :: word' =>
      match s with
      | c :: r => if Ascii.eqb c w then expect word' r else Throw (unexpected s)
      | [] => Throw (unexpected s)
      end
  end.

Definition hex_value (c : ascii) : option nat :=
  let n := nat_of_ascii c in
  if Nat.leb 48 n && Nat.leb n 57 then Some (n - 48)%nat
  else if Nat.leb 97 n && Nat.leb n 102 then Some (n - 87)%nat
  else if Nat.leb 65 n && Nat.leb n 70 then Some (n - 55)%nat
  else None.

(** The character of a unicode escape (u and four hexadecimal digits),
    for a code below 128. *)
Definition unicode_escape (h1 h2 h3 h4 : ascii) : option ascii :=
  match hex_value h1, hex_value h2, hex_value h3, hex_value h4 with
  | Some 0%nat, Some 0%nat, Some a, Some b =>
      if Nat.ltb a 8 then Some (ascii_of_nat (16 * a + b)) else None
  | _, _, _, _ => None
  end.

Definition simple_escape (e : ascii) : option ascii :=
  let n := nat_of_ascii e in
  if Nat.eqb n 34 then Some e                        (* quote *)
  else if Nat.eqb n 92 then Some e                   (* backslash *)
  else if Nat.eqb n 47 then Some e                   (* slash *)
  else if Nat.eqb n 98 then Some (ascii_of_nat 8)    (* b: backspace *)
  else if Nat.eqb n 102 then Some (ascii_of_nat 12)  (* f: form feed *)
  else if Nat.eqb n 110 then Some (ascii_of_nat 10)  (* n: line feed *)
  else if Nat.eqb n 114 then Some (ascii_of_nat 13)  (* r: carriage return *)
  else if Nat.eqb n 116 then Some (ascii_of_nat 9)   (* t: tab *)
  else None.

(** The body of a string literal, after its opening quote: the characters
    read so far are in [acc], last first. *)
Fixpoint read_string (s : list ascii) (acc : list ascii)
  : Completion (string * list ascii) :=
  match s with
  | [] => Throw (SyntaxError "Unterminated string in JSON")
  | c :: r =>
      let n := nat_of_ascii c in
      if Nat.eqb n 34 then Normal (string_of_list_ascii (rev acc), r)
      else if Nat.eqb n 92 then
        match r with
        | e :: r' =>
            if Nat.eqb (nat_of_ascii e) 117 then
              match r' with
              | h1 :: h2 :: h3 :: h4 :: r'' =>
                  match unicode_escape h1 h2 h3 h4 with
                  | Some u => read_string r'' (u :: acc)
                  | None => Throw (SyntaxError "Bad Unicode escape in JSON")
                  end
              | _ => Throw (SyntaxError "Bad Unicode escape in JSON")
              end
            else
              match simple_escape e with
              | Some u => read_string r' (u :: acc)
              | None => Throw (SyntaxError "Bad escaped character in JSON")
              end
        | [] => Throw (SyntaxError "Unterminated string in JSON")
        end
      else if Nat.ltb n 32 then Throw (SyntaxError "Bad control character in string literal in JSON")
      else read_string r (c :: acc)
  end.

Definition digit_of (c : ascii) : option nat :=
  let n := nat_of_ascii c in
  if Nat.leb 48 n && Nat.leb n 57 then Some (n - 48)%nat else None.

Definition cons_digit (k : nat) (d : Decimal.uint) : Decimal.uint :=
  match k with
  | 0%nat => D0 d | 1%nat => D1 d | 2%nat => D2 d | 3%nat => D3 d | 4%nat => D4 d
  | 5%nat => D5 d | 6%nat => D6 d | 7%nat => D7 d | 8%nat => D8 d | _ => D9 d
  end.

(** The longest run of digits at the head of the input. *)
Fixpoint read_digits (s : list ascii) : Decimal.uint * list ascii :=
  match s with
  | c :: r =>
      match digit_of c with
      | Some k => let '(d, rest) := read_digits r in (cons_digit k d, rest)
      | None => (Nil, s)
      end
  | [] => (Nil, [])
  end.

Definition starts_fraction (s : list ascii) : bool :=
  match s with
  | c :: _ =>
      let n := nat_of_ascii c in
      Nat.eqb n 46 || Nat.eqb n 101 || Nat.eqb n 69
  | [] => false
  end.

Definition head_is (c : ascii) (s : list ascii) : bool :=
  match s with
  | c' :: _ => Ascii.eqb c' c
  | [] => false
  end.

(** An integer literal: an optional minus sign, then [0] or digits not
    starting with [0]. *)
Definition read_number (s : list ascii) : Completion (Value * list ascii) :=
  let negative := head_is "-" s in
  let s' := if negative then tl s else s in
  let '(d, rest) := read_digits s' in
  match d with
  | Nil => Throw (unexpected s')
  | D0 (D0 _ | D1 _ | D2 _ | D3 _ | D4 _ | D5 _ | D6 _ | D7 _ | D8 _ | D9 _) =>
      Throw (SyntaxError "Unexpected number in JSON")
  | _ =>
      if starts_fraction rest
      then Throw (SyntaxError "Number with a fraction or an exponent in JSON")
      else Normal (VNum (NInt (Z.of_int (if negative then Decimal.Neg d else Decimal.Pos d))),
                   rest)
  end.

(** [obj[k] = v] while an object is being built: a repeated key keeps its
    place and takes the last value. *)
Fixpoint define (fields : list (string * Value)) (k : string) (v : Value)
  : list (string * Value) :=
  match fields with
  | [] => [(k, v)]
  | (k', v') :: rest =>
      if String.eqb k' k then (k', v) :: rest else (k', v') :: define rest k v
  end.

Definition object_of (members : list (string * Value)) : Value :=
  VObj (fold_left (fun acc kv => define acc (fst kv) (snd kv)) members []).

(** A value, the elements of an array after its bracket, the members of an
    object after its brace.  [fuel] bounds the number of nested calls; two
    units per character of the input are enough. *)
Fixpoint read_value (fuel : nat) (s : list ascii) {struct fuel}
  : Completion (Value * list ascii) :=
  match fuel with
  | O => Throw (SyntaxError "Out of fuel")
  | S fuel =>
      let s := skip_ws s in
      match s with
      | [] => Throw (unexpected s)
      | c :: r =>
          let n := nat_of_ascii c in
          if Nat.eqb n 123 then                                   (* { *)
            if head_is "}" (skip_ws r)
            then Normal (VObj [], tl (skip_ws r))
            else bind (read_members fuel r) (fun mr =>
                 Normal (object_of (fst mr), snd mr))
          else if Nat.eqb n 91 then                               (* [ *)
            if head_is "]" (skip_ws r)
            then Normal (VArr [], tl (skip_ws r))
            else bind (read_elements fuel r) (fun er =>
                 Normal (VArr (fst er), snd er))
          else if Nat.eqb n 34 then                               (* string *)
            bind (read_string r []) (fun sr => Normal (VStr (fst sr), snd sr))
          else if Nat.eqb n 116 then                              (* true *)
            bind (expect (chars "rue") r) (fun r => Normal (VBool true, r))
          else if Nat.eqb n 102 then                              (* false *)
            bind (expect (chars "alse") r) (fun r => Normal (VBool false, r))
          else if Nat.eqb n 110 then                              (* null *)
            bind (expect (chars "ull") r) (fun r => Normal (VNull, r))
          else read_number s
      end
  end
with read_elements (fuel : nat) (s : list ascii) {struct fuel}
  : Completion (list Value * list ascii) :=
  match fuel with
  | O => Throw (SyntaxError "Out of fuel")
  | S fuel =>
      bind (read_value fuel s) (fun vr =>
        let r := skip_ws (snd vr) in
        if head_is "," r then
          bind (read_elements fuel (tl r)) (fun er =>
            Normal (fst vr :: fst er, snd er))
        else if head_is "]" r then Normal ([fst vr], tl r)
        else Throw (unexpected r))
  end
with read_members (fuel : nat) (s : list ascii) {struct fuel}
  : Completion (list (string * Value) * list ascii) :=
  match fuel with
  | O => Throw (SyntaxError "Out of fuel")
  | S fuel =>
      let s := skip_ws s in
      if head_is dq s then
        bind (read_string (tl s) []) (fun kr =>
          let r := skip_ws (snd kr) in
          if head_is ":" r then
            bind (read_value fuel (tl r)) (fun vr =>
              let r := skip_ws (snd vr) in
              if head_is "," r then
                bind (read_members fuel (tl r)) (fun mr =>
                  Normal ((fst kr, fst vr) :: fst mr, snd mr))
              else if head_is "}" r then Normal ([(fst kr, fst vr)], tl r)
              else Throw (unexpected r))
          else Throw (unexpected r))
      else Throw (unexpected s)
  end.

(** [JSON.parse(text)] *)
Definition parse (text : string) : Completion Value :=
  let s := chars text in
  bind (read_value (2 * length s + 2) s) (fun vr =>
    match skip_ws (snd vr) with
    | [] => Normal (fst vr)
    | rest => Throw (unexpected rest)
    end).

(** A way to write JSON text in this file: every apostrophe stands for a
    double quote. *)
Definition text (s : string) : string :=
  string_of_list_ascii
    (map (fun c => if Ascii.eqb c "'" then dq else c) (chars s)).

(** The values JSON text represents exactly: no [undefined], no
    non-finite number, and objects whose keys are distinct. *)
Fixpoint representable (v : Value) : bool :=
  match v with
  | VUndefined => false
  | VNull | VBool _ | VStr _ => true
  | VNum (NInt _) => true
  | VNum _ => false
  | VArr items =>
      (fix all (l : list Value) : bool :=
         match l with
         | [] => true
         | x :: r => representable x && all r
         end) items
  | VObj fields =>
      (fix all (l : list (string * Value)) (seen : list string) : bool :=
         match l with
         | [] => true
         | (k, x) :: r =>
             negb (existsb (String.eqb k) seen) && representable x && all r (k :: seen)
         end) fields []
  end.

(** ** Notions used to state that the engine reads back what it writes *)

(** The keys of the fields are distinct, and distinct from those seen. *)
Fixpoint distinct_from (seen : list string) (fields : list (string * Value)) : Prop :=
  match fields with
  | [] => True
  | (k, _) :: r => ~ In k seen /\ distinct_from (k :: seen) r
  end.

(** A character that can begin the text of a value. *)
Definition value_start (c : ascii) : bool :=
  let n := nat_of_ascii c in
  Nat.eqb n 34 || Nat.eqb n 123 || Nat.eqb n 91 || Nat.eqb n 45 ||
  (Nat.leb 48 n && Nat.leb n 57) ||
  Nat.eqb n 110 || Nat.eqb n 116 || Nat.eqb n 102.

(** What may follow the text of a value: nothing, a comma, or a closing
    bracket or brace. *)
Definition delimited (rest : list ascii) : Prop :=
  rest = [] \/ exists r, rest = ","%char :: r \/ rest = "]"%char :: r \/ rest = "}"%char :: r.

(** After a value: a comma and more, or the closing character. *)
Definition after_element (f : nat) (v : Value) (r : list ascii)
  : Completion (list Value * list ascii) :=
  if head_is "," r then
    bind (read_elements f (tl r)) (fun er => Normal (v :: fst er, snd er))
  else if head_is "]" r then Normal ([v], tl r)
  else Throw (unexpected r).

Definition after_member (f : nat) (k : string) (v : Value) (r : list ascii)
  : Completion (list (string * Value) * list ascii) :=
  if head_is "," r then
    bind (read_members f (tl r)) (fun mr => Normal ((k, v) :: fst mr, snd mr))
  else if head_is "}" r then Normal ([(k, v)], tl r)
  else Throw (unexpected r).

(** A value is read back from its text, whatever delimiter follows, with
    two units of fuel per character and one more. *)
Definition reads_back (v : Value) : Prop :=
  representable v = true ->
  forall l, write v = Some l ->
  forall fuel rest, (2 * length l < fuel)%nat -> delimited rest ->
  read_value fuel (l ++ rest) = Normal (v, rest).

End JSON.

(* ===================================================================== *)
(** * ProtocolCodec: [ProtocolHandler] *)
(* ===================================================================== *)

Module Protocol.
Import JS.

(** The two built-ins the codec calls.  [JSON_parse] returns the value or
    throws; [JSON_stringify] returns the text, or [None] for
    [undefined]. *)
Class JSONEngine : Type := mkJSONEngine {
  JSON_parse : string -> Completion Value;
  JSON_stringify : Value -> option string
}.

Definition ReferenceEngine : JSONEngine := mkJSONEngine JSON.parse JSON.stringify.

(** What the codec needs of an engine to read back what it wrote: on the
    values JSON represents exactly, parsing undoes stringification. *)
Class FaithfulEngine (E : JSONEngine) : Prop :=
  parse_stringify :
    forall v, JSON.representable v = true ->
    exists t, JSON_stringify v = Some t /\ JSON_parse t = Normal v.

(** [MessageType] *)
Definition messageTypes : list string :=
  ["request"; "response"; "notification"; "ack"; "error"; "ping"; "pong"].

(** [MessageEnvelope], as the interface types it: [version] and [type]
    are strings at run time, [timestamp] any number, [payload] any
    value. *)
Record MessageEnvelope : Type := mkMessageEnvelope {
  version : string;
  type : string;
  id : string;
  timestamp : Number;
  channel : string;
  payload : Value;
  requiresACK : option bool
}.

(** The object an envelope is at run time. *)
Definition envelopeValue (m : MessageEnvelope) : Value :=
  VObj ([("version", VStr (version m));
         ("type", VStr (type m));
         ("id", VStr (id m));
         ("timestamp", VNum (timestamp m));
         ("channel", VStr (channel m));
         ("payload", payload m)]
        ++ match requiresACK m with
           | Some b => [("requiresACK", VBool b)]
           | None => []
           end)%list.

Definition PROTOCOL_VERSION : string := "1.0".
Definition MESSAGE_TIMEOUT : Z := 30000.

(** The constructors of envelopes.  [uuid] is the result of the call of
    [generateUUID] and [now] the reading of [Date.now()] they make. *)
Definition createRequest (operationRequest : Value) (requiresACK : bool)
    (uuid : string) (now : Z) : MessageEnvelope :=
  mkMessageEnvelope "1.0" "request" uuid (NInt now) "command" operationRequest
    (Some requiresACK).

Definition createResponse (operationResponse : Value) (requestId : string)
    (now : Z) : MessageEnvelope :=
  mkMessageEnvelope "1.0" "response" requestId (NInt now) "command"
    operationResponse None.

Definition createError (code message : string) (requestId : option string)
    (details : Value) (uuid : string) (now : Z) : MessageEnvelope :=
  mkMessageEnvelope "1.0" "error"
    (match requestId with
     | Some r => if String.eqb r EmptyString then uuid else r
     | None => uuid
     end)
    (NInt now) "error"
    (VObj [("code", VStr code); ("message", VStr message); ("details", details)])
    None.

Definition createPing (uuid : string) (now : Z) : MessageEnvelope :=
  mkMessageEnvelope "1.0" "ping" uuid (NInt now) "heartbeat" VNull None.

Definition createPong (pingId : string) (uuid : string) (now : Z) : MessageEnvelope :=
  mkMessageEnvelope "1.0" "pong" uuid (NInt now) "heartbeat" VNull None.

Definition createACK (acknowledgedId : string) (uuid : string) (now : Z)
  : MessageEnvelope :=
  mkMessageEnvelope "1.0" "ack" uuid (NInt now) "ack"
    (VObj [("acknowledgedId", VStr acknowledgedId)]) None.

(** [isValidMessage(msg)]: the chain of [&&] as written, whose value is the
    first falsy operand or the last one. *)
Definition isValidMessage (msg : Value) : Value :=
  and_then msg (fun _ =>
  and_then (VBool (String.eqb (typeof msg) "object")) (fun _ =>
  and_then (VBool (isString (member msg "version") "1.0")) (fun _ =>
  and_then (member msg "type") (fun _ =>
  and_then (member msg "id") (fun _ =>
  and_then (VBool (String.eqb (typeof (member msg "timestamp")) "number")) (fun _ =>
  member msg "channel")))))).

Definition validateAndNormalize (msg : Value) : Completion Value :=
  if negb (truthy (isValidMessage msg))
  then Throw (Error "Invalid message format: missing required fields or invalid version")
  else Normal msg.

(** [error instanceof Error ? error.message : String(error)] *)
Definition describeThrown (e : Thrown) : string :=
  match e with
  | ErrorObject _ m => m
  | ThrownValue v => toStr v
  end.

Section Codec.

Context {E : JSONEngine}.

(** [parseMessage(data)]: whatever is thrown inside the [try] block, by
    [JSON.parse] or by [validateAndNormalize], is caught and thrown again
    as a new [Error]. *)
Definition parseMessage (data : string) : Completion Value :=
  match bind (JSON_parse data) validateAndNormalize with
  | Normal msg => Normal msg
  | Throw error => Throw (Error ("Failed to parse message: " ++ describeThrown error))
  end.

(** [serializeMessage(msg)] *)
Definition serializeMessage (msg : MessageEnvelope) : option string :=
  JSON_stringify (envelopeValue msg).

End Codec.

Definition isRequest (msg : MessageEnvelope) : bool := String.eqb (type msg) "request".
Definition isResponse (msg : MessageEnvelope) : bool := String.eqb (type msg) "response".
Definition isError (msg : MessageEnvelope) : bool := String.eqb (type msg) "error".
Definition requiresACK_of (msg : MessageEnvelope) : bool :=
  match requiresACK msg with Some true => true | _ => false end.
Definition getMessageTimeout : Z := MESSAGE_TIMEOUT.
Definition getProtocolVersion : string := PROTOCOL_VERSION.

(** The kind of a thrown error, as far as a handler can tell by class:
    the name of its constructor. *)
Definition errorClass (e : Thrown) : string :=
  match e with
  | ErrorObject name _ => name
  | ThrownValue _ => "(not an error object)"
  end.

(** The envelope invariant of the specification: the protocol's version,
    non-empty [type], [id] and [channel]; the timestamp of an envelope is a
    number by its type. *)
Definition wellFormed (m : MessageEnvelope) : bool :=
  String.eqb (version m) "1.0" &&
  negb (String.eqb (type m) EmptyString) &&
  negb (String.eqb (id m) EmptyString) &&
  negb (String.eqb (channel m) EmptyString).

Definition finite (n : Number) : bool :=
  match n with NInt _ => true | _ => false end.

(** ** Sample data *)

(** A heartbeat whose timestamp is [NaN]. *)
Definition pingAtNaN : MessageEnvelope :=
  mkMessageEnvelope "1.0" "ping" "p-1" NaN "heartbeat" VNull None.

(** A request whose payload holds an array with an [undefined] element. *)
Definition requestWithHole : MessageEnvelope :=
  createRequest (VObj [("args", VArr [VUndefined])]) true "r-1" 1700000000000.

(** The request frame of the wire-format example. *)
Definition sampleRequest : MessageEnvelope :=
  createRequest
    (VObj [("id", VStr "r-1"); ("timestamp", VNum (NInt 1700000000000));
           ("commandId", VStr "file.create"); ("category", VStr "fileOps");
           ("selectedAI", VStr "claude"); ("selectedModel", VStr "claude-3-5-sonnet");
           ("payload", VObj [("type", VStr "create"); ("targetPath", VStr "a.txt");
                             ("content", VStr EmptyString)]);
           ("workspaceRoot", VStr "/ws"); ("filePath", VStr "a.txt")])
    true "u-1" 1700000000000.

(** Text that is not JSON; JSON that is not an envelope; an envelope whose
    [type] is none of the seven kinds. *)
Definition brokenText : string := "{".
Definition emptyObjectText : string := "{}".
Definition unlistedTypeText : string :=
  JSON.text "{'version':'1.0','type':'bogus','id':'x','timestamp':1,'channel':'c'}".
Definition wrongVersionText : string :=
  JSON.text "{'version':'2.0','type':'ping','id':'x','timestamp':1,'channel':'c'}".

End Protocol.

(* ===================================================================== *)
(** * CommandRegistry and the file-operations handler *)
(* ===================================================================== *)

Module Commands.
Import JS.

(** ** [commands/types.ts] *)

Record ErrorInfo : Type := mkErrorInfo {
  code : string;
  message : string;
  details : option Value
}.

Record OperationRequest : Type := mkOperationRequest {
  req_id : string;
  req_timestamp : Z;
  commandId : string;
  category : string;
  selectedAI : string;
  selectedModel : string;
  payload : Value;
  workspaceRoot : string;
  filePath : option string;
  req_metadata : option (list (string * Value))
}.

Record OperationResponse : Type := mkOperationResponse {
  id : string;
  status : string;
  data : option Value;
  error : option ErrorInfo;
  metadata : option (list (string * Value));
  timestamp : Z
}.

Record CommandValidation : Type := mkCommandValidation {
  valid : bool;
  errors : option (list string)
}.

(** [CommandHandler].  [validate] returns or throws.  The handler's [execute] is
    asynchronous: given the request and the time of the call it gives how
    its promise settles -- fulfilled with a response or rejected -- and the
    time at which it does. *)
Record CommandHandler : Type := mkCommandHandler {
  handler_execute : OperationRequest -> Z -> Completion OperationResponse * Z;
  handler_validate : Value -> Completion CommandValidation;
  handler_getSchema : Value
}.

Record CommandDescriptor : Type := mkCommandDescriptor {
  d_id : string;
  title : string;
  d_category : string;
  description : string;
  icon : option string;
  handler : CommandHandler;
  requiresFile : option bool;
  requiresSelection : option bool;
  keybinding : option string
}.

(** ** [utils/validators.ts] *)

(** [x.includes(t)] for a string literal [t]: substring test on a string,
    membership test on an array; no other value of the model has a method
    of that name, and calling what is not a function throws. *)
Definition callIncludes (what : string) (x : Value) (t : string) : Completion bool :=
  match x with
  | VStr s => Normal (includesb s t)
  | VArr items => Normal (existsb (fun v => isString v t) items)
  | VUndefined | VNull =>
      Throw (TypeError ("Cannot read properties of " ++ toStr x ++ " (reading 'includes')"))
  | _ => Throw (TypeError (what ++ " is not a function"))
  end.

(** [x?.includes(t)] *)
Definition optIncludes (x : Value) (t : string) : Completion bool :=
  match x with
  | VUndefined | VNull => Normal false
  | _ => callIncludes "path?.includes" x t
  end.

(** [x?.startsWith(t)]: only strings have the method. *)
Definition optStartsWith (x : Value) (t : string) : Completion bool :=
  match x with
  | VUndefined | VNull => Normal false
  | VStr s => Normal (prefixb t s)
  | _ => Throw (TypeError "path?.startsWith is not a function")
  end.

Definition NUL : string := String (ascii_of_nat 0) EmptyString.

Definition pushIf (b : bool) (e : string) (errs : list string) : list string :=
  if b then (errs ++ [e])%list else errs.

(** The object every validator returns from its list of errors. *)
Definition validationOf (errs : list string) : CommandValidation :=
  mkCommandValidation (Nat.eqb (length errs) 0)
    (if Nat.ltb 0 (length errs) then Some errs else None).

(** [validators.validateFilePath(path)] *)
Definition validateFilePath (path : Value) : Completion CommandValidation :=
  let errs := pushIf (negb (truthy path)) "Path cannot be empty" [] in
  bind (optIncludes path "..") (fun dots =>
  let errs := pushIf dots "Path traversal (../) is not allowed" errs in
  bind (optStartsWith path "/") (fun absolute =>
  let errs := pushIf absolute "Absolute paths are not allowed" errs in
  bind (if truthy path then callIncludes "path.includes" path NUL else Normal false)
    (fun nul =>
  let errs := pushIf nul "Path contains invalid characters" errs in
  Normal (validationOf errs)))).

(** ** [commands/handlers/fileOpsHandler.ts] *)

(** [[...].includes(v)] for an array literal of strings. *)
Definition oneOf (names : list string) (v : Value) : bool :=
  existsb (isString v) names.

(** [errors.push(...(validation.errors || []))] when the validation is not
    valid. *)
Definition pushErrorsOf (validation : CommandValidation) (errs : list string)
  : list string :=
  if negb (valid validation)
  then (errs ++ default [] (errors validation))%list
  else errs.

Definition FileOpsHandler_validate (payload : Value) : Completion CommandValidation :=
  bind (getMember payload "type") (fun type =>
  let errs :=
    if negb (truthy type) then ["Operation type is required"]
    else if negb (oneOf ["create"; "delete"; "modify"; "copy"; "move"; "rename"] type)
         then ["Invalid operation type: " ++ toStr type]
         else [] in
  let targetPath := member payload "targetPath" in
  bind (if negb (truthy targetPath)
        then Normal (errs ++ ["Target path is required"])%list
        else bind (validateFilePath targetPath) (fun pathValidation =>
             Normal (pushErrorsOf pathValidation errs))) (fun errs =>
  bind (if oneOf ["copy"; "move"; "rename"] type
        then
          let sourcePath := member payload "sourcePath" in
          if negb (truthy sourcePath)
          then
            let line := "Source path is required for " ++ toStr type ++ " operation" in
            Normal (errs ++ [line])%list
          else bind (validateFilePath sourcePath) (fun sourceValidation =>
               Normal (pushErrorsOf sourceValidation errs))
        else Normal errs) (fun errs =>
  let errs :=
    if oneOf ["create"; "modify"] type
    then pushIf (negb (String.eqb (typeof (member payload "content")) "string"))
           "Content must be a string" errs
    else errs in
  Normal (validationOf errs)))).

(** [execute] of the handler: a placeholder that reports the operation as
    queued.  Its body does not wait, so its promise settles at the time of
    the call. *)
Definition FileOpsHandler_execute (request : OperationRequest) (now : Z)
  : Completion OperationResponse * Z :=
  let operation := payload request in
  match bind (getMember operation "type") (fun type =>
        bind (getMember operation "targetPath") (fun targetPath =>
        Normal (type, targetPath))) with
  | Normal (type, targetPath) =>
      (Normal (mkOperationResponse (req_id request) "success"
         (Some (VObj [("type", type); ("path", targetPath);
                      ("message", VStr ("File operation " ++ dquote ++ toStr type
                                        ++ dquote ++ " queued for execution"))]))
         None None now), now)
  | Throw e =>
      (Normal (mkOperationResponse (req_id request) "error" None
         (Some (mkErrorInfo "FILE_OP_ERROR"
            (match e with
             | ErrorObject _ m => m
             | ThrownValue _ => "Unknown error"
             end) None))
         None now), now)
  end.

Definition described (k : string) (d : string) : Value :=
  VObj [(k, VStr "string"); ("description", VStr d)].

Definition FileOpsHandler_getSchema : Value :=
  VObj [
    ("type", VObj [("enum", VArr (map VStr ["create"; "delete"; "modify"; "copy"; "move"; "rename"]));
                   ("description", VStr "Type of file operation")]);
    ("targetPath", described "type" "Path to target file");
    ("sourcePath", described "type" "Path to source file (for copy, move, rename)");
    ("content", described "type" "File content (for create, modify)");
    ("options", VObj [("type", VStr "object");
                      ("properties", VObj [("overwrite", VObj [("type", VStr "boolean")]);
                                           ("createParents", VObj [("type", VStr "boolean")])])])
  ].

Definition FileOpsHandler : CommandHandler :=
  mkCommandHandler FileOpsHandler_execute FileOpsHandler_validate
    FileOpsHandler_getSchema.

(** ** [commands/commandRegistry.ts] *)

Inductive LogLevel : Type := LogDebug | LogWarn | LogError.

(** A call the registry makes to a handler. *)
Inductive HandlerCall : Type :=
| CallValidate (command : string) (payload : Value)
| CallExecute (command : string) (request : OperationRequest).

(** The registry: the map of commands in insertion order (the order
    [Map.prototype.keys] enumerates) and whether a logger was given. *)
Record CommandRegistry : Type := mkCommandRegistry {
  commands : list (string * CommandDescriptor);
  hasLogger : bool
}.

(** The environment of a call: the clock [Date.now()] reads, the lines the
    logger received (first argument only), and the calls made to handlers. *)
Record World : Type := mkWorld {
  now : Z;
  logs : list (LogLevel * string);
  calls : list HandlerCall
}.

Definition log (reg : CommandRegistry) (level : LogLevel) (line : string)
    (w : World) : World :=
  if hasLogger reg
  then mkWorld (now w) (logs w ++ [(level, line)]) (calls w)
  else w.

Definition called (c : HandlerCall) (w : World) : World :=
  mkWorld (now w) (logs w) (calls w ++ [c]).

Definition at_time (t : Z) (w : World) : World :=
  mkWorld t (logs w) (calls w).

Fixpoint mapGet {A} (m : list (string * A)) (k : string) : option A :=
  match m with
  | [] => None
  | (k', v) :: rest => if String.eqb k' k then Some v else mapGet rest k
  end.

(** [Map.prototype.set]: a key already present keeps its place. *)
Fixpoint mapSet {A} (m : list (string * A)) (k : string) (v : A) : list (string * A) :=
  match m with
  | [] => [(k, v)]
  | (k', v') :: rest =>
      if String.eqb k' k then (k', v) :: rest else (k', v') :: mapSet rest k v
  end.

Definition hasCommand (reg : CommandRegistry) (i : string) : bool :=
  match mapGet (commands reg) i with Some _ => true | None => false end.

Definition getCommand (reg : CommandRegistry) (i : string) : option CommandDescriptor :=
  mapGet (commands reg) i.

Definition register (descriptor : CommandDescriptor) (reg : CommandRegistry)
    (w : World) : CommandRegistry * World :=
  let w := if hasCommand reg (d_id descriptor)
           then log reg LogWarn ("Command " ++ dquote ++ d_id descriptor
                                 ++ dquote ++ " already registered, overwriting") w
           else w in
  (mkCommandRegistry (mapSet (commands reg) (d_id descriptor) descriptor) (hasLogger reg),
   log reg LogDebug ("Registered command: " ++ d_id descriptor) w).

Fixpoint registerBatch (descriptors : list CommandDescriptor) (reg : CommandRegistry)
    (w : World) : CommandRegistry * World :=
  match descriptors with
  | [] => (reg, w)
  | d :: rest => let '(reg, w) := register d reg w in registerBatch rest reg w
  end.

Definition getAllCommands (reg : CommandRegistry) : list CommandDescriptor :=
  map snd (commands reg).

Definition getCommandsByCategory (reg : CommandRegistry) (c : string)
  : list CommandDescriptor :=
  List.filter (fun cmd => String.eqb (d_category cmd) c) (getAllCommands reg).

Definition getFileRequiredCommands (reg : CommandRegistry) : list CommandDescriptor :=
  List.filter (fun cmd => match requiresFile cmd with Some true => true | _ => false end)
    (getAllCommands reg).

Definition getCommandCount (reg : CommandRegistry) : nat := length (commands reg).

Definition getCommandSchema (reg : CommandRegistry) (i : string) : option Value :=
  option_map (fun d => handler_getSchema (handler d)) (mapGet (commands reg) i).

(** [unregister(id)]: whether a command was deleted, and the registry. *)
Definition unregister (i : string) (reg : CommandRegistry) (w : World)
  : bool * CommandRegistry * World :=
  if hasCommand reg i
  then (true,
        mkCommandRegistry
          (List.filter (fun kd => negb (String.eqb (fst kd) i)) (commands reg))
          (hasLogger reg),
        log reg LogDebug ("Unregistered command: " ++ i) w)
  else (false, reg, w).

Definition clear (reg : CommandRegistry) (w : World) : CommandRegistry * World :=
  (mkCommandRegistry [] (hasLogger reg), log reg LogDebug "All commands unregistered" w).

Definition errorResponse (request : OperationRequest) (e : ErrorInfo) (t : Z)
  : OperationResponse :=
  mkOperationResponse (req_id request) "error" None (Some e) None t.

(** [validation.errors] as the value stored under [details.errors]. *)
Definition errorsValue (errs : option (list string)) : Value :=
  match errs with
  | Some l => VArr (map VStr l)
  | None => VUndefined
  end.

(** [{ ...metadata, duration }] *)
Definition withDuration (metadata : option (list (string * Value))) (duration : Z)
  : list (string * Value) :=
  mapSet (default [] metadata) "duration" (VNum (NInt duration)).

(** [error instanceof Error ? error.message : String(error)] *)
Definition describeThrown (e : Thrown) : string :=
  match e with
  | ErrorObject _ m => m
  | ThrownValue v => toStr v
  end.

(** [execute(request)]: how the promise it returns settles -- [Normal]
    when it is fulfilled with a response, [Throw] when it is rejected --
    and the environment it leaves. *)
Definition execute (reg : CommandRegistry) (request : OperationRequest) (w : World)
  : Completion OperationResponse * World :=
  match mapGet (commands reg) (commandId request) with
  | None =>
      let w := log reg LogWarn ("Command not found: " ++ commandId request) w in
      (Normal (errorResponse request
         (mkErrorInfo "COMMAND_NOT_FOUND"
            ("Command " ++ dquote ++ commandId request ++ dquote
             ++ " not found. Available commands: "
             ++ joinWith ", " (map fst (commands reg)))
            None)
         (now w)), w)
  | Some descriptor =>
      (* Validate payload *)
      let w := called (CallValidate (d_id descriptor) (payload request)) w in
      match handler_validate (handler descriptor) (payload request) with
      | Throw e => (Throw e, w)
      | Normal validation =>
          if negb (valid validation) then
            let w := log reg LogWarn
                       ("Validation failed for " ++ commandId request ++ ":") w in
            (Normal (errorResponse request
               (mkErrorInfo "VALIDATION_ERROR" "Payload validation failed"
                  (Some (VObj [("errors", errorsValue (errors validation))])))
               (now w)), w)
          else
            (* Execute command *)
            let w := log reg LogDebug ("Executing command: " ++ commandId request) w in
            let startTime := now w in
            let w := called (CallExecute (d_id descriptor) request) w in
            let '(settled, t) := handler_execute (handler descriptor) request (now w) in
            let w := at_time t w in
            match settled with
            | Normal response =>
                let duration := now w - startTime in
                let w := log reg LogDebug
                           ("Command completed in " ++ numberToString (NInt duration)
                            ++ "ms: " ++ commandId request) w in
                (Normal (mkOperationResponse (id response) (status response)
                           (data response) (error response)
                           (Some (withDuration (metadata response) duration))
                           (timestamp response)), w)
            | Throw e =>
                let errorMessage := describeThrown e in
                let w := log reg LogError
                           ("Command execution failed: " ++ commandId request) w in
                (Normal (errorResponse request
                   (mkErrorInfo "EXECUTION_ERROR"
                      ("Command execution failed: " ++ errorMessage) None)
                   (now w)), w)
            end
      end
  end.

(** ** Sample data *)

Definition fileCreate : CommandDescriptor :=
  mkCommandDescriptor "file.create" "Create File" "fileOps"
    "Create a new file in the workspace" None FileOpsHandler (Some false) None None.

Definition sampleRegistry : CommandRegistry :=
  mkCommandRegistry [("file.create", fileCreate)] false.

Definition sampleWorld : World := mkWorld 1700000000000 [] [].

Definition requestWith (p : Value) : OperationRequest :=
  mkOperationRequest "req-1" 1700000000000 "file.create" "fileOps" "claude"
    "claude-3-5-sonnet" p "/ws" None None.

(** [{ type: 'create', content: '' }]: no [targetPath]. *)
Definition payloadWithoutTarget : Value :=
  VObj [("type", VStr "create"); ("content", VStr EmptyString)].

(** [{ type: 'create', targetPath: 5, content: '' }]: a [targetPath] that
    is not a string. *)
Definition payloadWithNumericTarget : Value :=
  VObj [("type", VStr "create"); ("targetPath", VNum (NInt 5)); ("content", VStr EmptyString)].

(** [{ type: 'create', targetPath: 'a.txt', content: '' }] *)
Definition payloadCreate : Value :=
  VObj [("type", VStr "create"); ("targetPath", VStr "a.txt"); ("content", VStr EmptyString)].

End Commands.

(* ===================================================================== *)
(** * The other command handlers and their registration *)
(* ===================================================================== *)

(** [commands/handlers/debugHandler.ts], [toolsHandler.ts] (in the file of
    the file-operations handler), [execHandler.ts] and [index.ts], with the
    string functions they use. *)
Module Handlers.
Import JS Commands.

(** ** Strings *)

(** [s.split('.')]: the pieces between the dots; never empty. *)
Fixpoint splitDots (s : string) : list string :=
  match s with
  | EmptyString => [EmptyString]
  | String c r =>
      if Ascii.eqb c "." then EmptyString :: splitDots r
      else match splitDots r with
           | h :: t => String c h :: t
           | [] => [String c EmptyString]
           end
  end.

(** [a[i]] for an array of strings. *)
Definition at_index (a : list string) (i : nat) : Value :=
  match nth_error a i with
  | Some s => VStr s
  | None => VUndefined
  end.

(** [s.toLowerCase()], on the letters A to Z. *)
Definition lower_char (c : ascii) : ascii :=
  let n := nat_of_ascii c in
  if Nat.leb 65 n && Nat.leb n 90 then ascii_of_nat (n + 32) else c.

Fixpoint toLowerCase (s : string) : string :=
  match s with
  | EmptyString => EmptyString
  | String c r => String (lower_char c) (toLowerCase r)
  end.

(** [a || b] *)
Definition or_else (a b : Value) : Value := if truthy a then a else b.

(** ** [DebugHandler] *)

(** [typeof v !== 'number' || v < 1]: the comparison is false for [NaN]. *)
Definition notALineNumber (v : Value) : bool :=
  match v with
  | VNum (NInt z) => z <? 1
  | VNum NegInfinity => true
  | VNum _ => false
  | _ => true
  end.

Definition DebugHandler_validate (payload : Value) : Completion CommandValidation :=
  bind (getMember payload "type") (fun type =>
  let errs :=
    if negb (truthy type) then ["Debug operation type is required"]
    else if negb (oneOf ["setBreakpoint"; "clearBreakpoint"; "addWatch"; "enableLogging"] type)
         then ["Invalid debug operation type: " ++ toStr type]
         else [] in
  let filePath := member payload "filePath" in
  bind (if negb (truthy filePath)
        then Normal (errs ++ ["File path is required"])%list
        else bind (validateFilePath filePath) (fun pathValidation =>
             Normal (pushErrorsOf pathValidation errs))) (fun errs =>
  let errs :=
    if oneOf ["setBreakpoint"; "clearBreakpoint"] type
    then pushIf (notALineNumber (member payload "lineNumber"))
           "Valid line number is required" errs
    else errs in
  let errs :=
    if isString type "addWatch"
    then pushIf (negb (truthy (member payload "expression"))
                 || negb (String.eqb (typeof (member payload "expression")) "string"))
           "Watch expression is required" errs
    else errs in
  let errs :=
    if isString type "enableLogging"
    then pushIf (truthy (member payload "logLevel")
                 && negb (oneOf ["debug"; "info"; "warn"; "error"]
                            (member payload "logLevel")))
           "Invalid log level" errs
    else errs in
  Normal (validationOf errs))).

(** The placeholder [execute] the four handlers share in shape: read
    fields of the payload inside a [try], answer [success] with them, or
    answer [error] with the code of the handler when reading throws. *)
Definition placeholder (code : string) (request : OperationRequest) (now : Z)
    (data : Completion Value) : Completion OperationResponse * Z :=
  match data with
  | Normal d =>
      (Normal (mkOperationResponse (req_id request) "success" (Some d) None None now), now)
  | Throw e =>
      (Normal (mkOperationResponse (req_id request) "error" None
         (Some (mkErrorInfo code
            (match e with
             | ErrorObject _ m => m
             | ThrownValue _ => "Unknown error"
             end) None))
         None now), now)
  end.

Definition DebugHandler_execute (request : OperationRequest) (now : Z)
  : Completion OperationResponse * Z :=
  let operation := payload request in
  placeholder "DEBUG_OP_ERROR" request now
    (bind (getMember operation "type") (fun type =>
     Normal (VObj [("type", type);
                   ("file", member operation "filePath");
                   ("line", member operation "lineNumber");
                   ("message", VStr ("Debug operation " ++ dquote ++ toStr type
                                     ++ dquote ++ " processed"))]))).

Definition enumerated (names : list string) (d : string) : Value :=
  VObj [("enum", VArr (map VStr names)); ("description", VStr d)].

Definition typed (t d : string) : Value :=
  VObj [("type", VStr t); ("description", VStr d)].

Definition DebugHandler_getSchema : Value :=
  VObj [
    ("type", enumerated ["setBreakpoint"; "clearBreakpoint"; "addWatch"; "enableLogging"]
               "Type of debug operation");
    ("filePath", typed "string" "Path to file");
    ("lineNumber", typed "number" "Line number for breakpoint");
    ("expression", typed "string" "Watch expression or logging expression");
    ("logLevel", enumerated ["debug"; "info"; "warn"; "error"]
                   "Log level for logging operations")
  ].

Definition DebugHandler : CommandHandler :=
  mkCommandHandler DebugHandler_execute DebugHandler_validate DebugHandler_getSchema.

(** ** [ToolsHandler] *)

Definition ToolsHandler_validate (payload : Value) : Completion CommandValidation :=
  bind (getMember payload "type") (fun type =>
  let errs :=
    if negb (truthy type) then ["Tool operation type is required"]
    else if negb (oneOf ["format"; "lint"; "test"; "generate"] type)
         then ["Invalid tool operation type: " ++ toStr type]
         else [] in
  let filePath := member payload "filePath" in
  bind (if truthy filePath && String.eqb (typeof filePath) "string"
        then bind (validateFilePath filePath) (fun pathValidation =>
             Normal (pushErrorsOf pathValidation errs))
        else Normal errs) (fun errs =>
  let errs :=
    if isString type "generate"
    then pushIf (negb (truthy (member payload "tool"))
                 || negb (String.eqb (typeof (member payload "tool")) "string"))
           "Tool specification is required for generate operations" errs
    else errs in
  Normal (validationOf errs))).

Definition ToolsHandler_execute (request : OperationRequest) (now : Z)
  : Completion OperationResponse * Z :=
  let operation := payload request in
  placeholder "TOOL_OP_ERROR" request now
    (bind (getMember operation "type") (fun type =>
     Normal (VObj [("type", type);
                   ("file", or_else (member operation "filePath") (VStr "workspace"));
                   ("tool", member operation "tool");
                   ("message", VStr ("Tool operation " ++ dquote ++ toStr type
                                     ++ dquote ++ " queued"))]))).

Definition ToolsHandler_getSchema : Value :=
  VObj [
    ("type", enumerated ["format"; "lint"; "test"; "generate"]
               "Type of code quality operation");
    ("filePath", typed "string" "Path to file (optional, applies to workspace if omitted)");
    ("tool", typed "string" "Specific tool to use");
    ("options", typed "object" "Tool-specific options")
  ].

Definition ToolsHandler : CommandHandler :=
  mkCommandHandler ToolsHandler_execute ToolsHandler_validate ToolsHandler_getSchema.

(** ** [ExecHandler] *)

Definition supportedExtensions : list string := ["py"; "sh"; "js"; "ts"; "jsx"; "tsx"].

(** [filePath.split('.').pop()?.toLowerCase()] for a string. *)
Definition extensionOf (filePath : string) : string :=
  toLowerCase (List.last (splitDots filePath) EmptyString).

Definition ExecHandler_validate (payload : Value) : Completion CommandValidation :=
  bind (getMember payload "filePath") (fun filePath =>
  bind (if negb (truthy filePath)
        then Normal ["File path is required"]
        else bind (validateFilePath filePath) (fun pathValidation =>
             Normal (pushErrorsOf pathValidation []))) (fun errs =>
  bind (if truthy filePath
        then match filePath with
             | VStr s =>
                 let ext := extensionOf s in
                 Normal (pushIf (negb (existsb (String.eqb ext) supportedExtensions))
                           ("Unsupported file type: ." ++ ext) errs)
             | _ => Throw (TypeError "filePath.split is not a function")
             end
        else Normal errs) (fun errs =>
  Normal (validationOf errs)))).

Definition ExecHandler_execute (request : OperationRequest) (now : Z)
  : Completion OperationResponse * Z :=
  let operation := payload request in
  placeholder "EXEC_OP_ERROR" request now
    (bind (getMember operation "type") (fun type =>
     Normal (VObj [("type", type);
                   ("file", member operation "filePath");
                   ("args", member operation "args");
                   ("message", VStr ("File execution " ++ dquote ++ "$run "
                                     ++ toStr (member operation "filePath")
                                     ++ dquote ++ " queued"))]))).

Definition ExecHandler_getSchema : Value :=
  VObj [
    ("type", VObj [("const", VStr "run"); ("description", VStr "Execute/run operation")]);
    ("filePath", typed "string" "Path to file to execute");
    ("args", VObj [("type", VStr "array");
                   ("items", VObj [("type", VStr "string")]);
                   ("description", VStr "Command line arguments")])
  ].

Definition ExecHandler : CommandHandler :=
  mkCommandHandler ExecHandler_execute ExecHandler_validate ExecHandler_getSchema.

(** ** [registerAllHandlers] *)

Definition describe (i t c d : string) (h : CommandHandler) (file : bool)
  : CommandDescriptor :=
  mkCommandDescriptor i t c d None h (Some file) None None.

(** The descriptors [registerAllHandlers] registers, in its order. *)
Definition allDescriptors : list CommandDescriptor := [
  describe "file.create" "Create File" "fileOps" "Create a new file in the workspace"
    FileOpsHandler false;
  describe "file.delete" "Delete File" "fileOps" "Delete a file from the workspace"
    FileOpsHandler true;
  describe "file.modify" "Modify File" "fileOps" "Modify the contents of a file"
    FileOpsHandler true;
  describe "file.copy" "Copy File" "fileOps" "Copy a file to a new location"
    FileOpsHandler true;
  describe "file.move" "Move File" "fileOps" "Move a file to a different location"
    FileOpsHandler true;
  describe "file.rename" "Rename File" "fileOps" "Rename a file"
    FileOpsHandler true;
  describe "debug.breakpoint" "Set Breakpoint" "debug" "Set or clear a breakpoint"
    DebugHandler true;
  describe "debug.watch" "Add Watch" "debug" "Add a watch expression"
    DebugHandler true;
  describe "debug.logging" "Enable Logging" "debug" "Enable debug logging"
    DebugHandler false;
  describe "tools.format" "Format Code" "tools" "Format code using configured formatter"
    ToolsHandler false;
  describe "tools.lint" "Lint Code" "tools" "Lint code using configured linter"
    ToolsHandler false;
  describe "tools.test" "Generate Tests" "tools" "Generate tests for code"
    ToolsHandler false;
  describe "tools.generate" "Generate Code" "tools" "Generate code snippets or files"
    ToolsHandler false;
  describe "exec.run" "Run File" "execute" "Execute a file"
    ExecHandler true
].

(** [registerAllHandlers(registry, logger)]: the registry and its
    environment after the fourteen calls of [register], and the line given
    to [logger.info] when there is a logger. *)
Definition registerAllHandlers (reg : CommandRegistry) (logger : bool) (w : World)
  : CommandRegistry * World * option string :=
  let '(reg, w) := registerBatch allDescriptors reg w in
  (reg, w,
   if logger
   then Some ("Registered " ++ numberToString (NInt (Z.of_nat (getCommandCount reg)))
              ++ " handlers")
   else None).

(** The registry of the extension: a logger is given, the handlers are
    registered into a new registry. *)
Definition extensionRegistry : CommandRegistry :=
  fst (fst (registerAllHandlers (mkCommandRegistry [] true) true (mkWorld 0 [] []))).

(** ** The payloads and categories the sidebar gives ([sidebarProvider.ts]) *)

(** [getCommandCategory(commandId)] *)
Definition getCommandCategory (commandId : string) : string :=
  if prefixb "file." commandId then "fileOps"
  else if prefixb "debug." commandId then "debug"
  else if prefixb "tools." commandId then "tools"
  else if prefixb "exec." commandId then "execute"
  else "custom".

(** [filePath || ''] for an optional string. *)
Definition orEmpty (filePath : option string) : Value :=
  match filePath with
  | Some s => VStr s
  | None => VStr EmptyString
  end.

(** [buildCommandPayload(commandId, filePath)] *)
Definition buildCommandPayload (commandId : string) (filePath : option string) : Value :=
  let type := at_index (splitDots commandId) 1 in
  if prefixb "file." commandId then
    VObj [("type", type); ("targetPath", orEmpty filePath); ("content", VStr EmptyString)]
  else if prefixb "debug." commandId then
    VObj [("type", type); ("filePath", orEmpty filePath); ("lineNumber", VNum (NInt 1))]
  else if prefixb "tools." commandId then
    VObj [("type", type); ("filePath", orEmpty filePath); ("tool", type)]
  else if prefixb "exec." commandId then
    VObj [("type", VStr "run"); ("filePath", orEmpty filePath)]
  else VObj [].

(** ** Notions used to state what the validators accept *)

(** The errors the path validator collects for a string. *)
Definition pathErrors (s : string) : list string :=
  pushIf (includesb s NUL) "Path contains invalid characters"
    (pushIf (prefixb "/" s) "Absolute paths are not allowed"
       (pushIf (includesb s "..") "Path traversal (../) is not allowed"
          (pushIf (String.eqb s EmptyString) "Path cannot be empty" []))).

Definition isStringValue (v : Value) : bool :=
  match v with VStr _ => true | _ => false end.

(** A truthy value that is not a string: the path validator throws on
    it. *)
Definition truthyNonString (v : Value) : bool :=
  truthy v && negb (isStringValue v).

(** A path the path validator accepts. *)
Definition goodPath (s : string) : bool :=
  negb (String.eqb s EmptyString) &&
  negb (includesb s "..") &&
  negb (prefixb "/" s) &&
  negb (includesb s NUL).

(** A value that is a string the path validator accepts. *)
Definition pathOk (v : Value) : bool :=
  match v with VStr s => goodPath s | _ => false end.

(** The errors of the step every handler takes for a required path:
    [required] when the value is falsy, those of the path validator
    otherwise. *)
Definition requiredPathErrors (required : string) (v : Value) : list string :=
  match v with
  | VStr s => if String.eqb s EmptyString then [required] else pathErrors s
  | _ => [required]
  end.

(** That step, as the handlers write it. *)
Definition requiredPathStep (required : string) (v : Value) (errs : list string)
  : Completion (list string) :=
  if negb (truthy v)
  then Normal (errs ++ [required])%list
  else bind (validateFilePath v) (fun pathValidation =>
       Normal (pushErrorsOf pathValidation errs)).

Definition noErrors (errs : list string) : bool :=
  match errs with [] => true | _ => false end.

(** The errors about the [type] field. *)
Definition typeErrors (required invalid : string) (names : list string) (type : Value)
  : list string :=
  if negb (truthy type) then [required]
  else if negb (oneOf names type) then [invalid ++ toStr type]
  else [].

(** An optional path: a non-empty string must be a path the validator
    accepts, any other value passes. *)
Definition optionalPathOk (v : Value) : bool :=
  match v with
  | VStr s => String.eqb s EmptyString || goodPath s
  | _ => true
  end.

(** [v && typeof v === 'string']: a non-empty string. *)
Definition nonEmptyString (v : Value) : bool :=
  truthy v && String.eqb (typeof v) "string".

Definition supported (ext : string) : bool :=
  existsb (String.eqb ext) supportedExtensions.

(** What the four validators accept. *)
Definition fileOpsAccepts (payload : Value) : bool :=
  let type := member payload "type" in
  oneOf ["create"; "delete"; "modify"; "copy"; "move"; "rename"] type &&
  pathOk (member payload "targetPath") &&
  (if oneOf ["copy"; "move"; "rename"] type
   then pathOk (member payload "sourcePath") else true) &&
  (if oneOf ["create"; "modify"] type
   then String.eqb (typeof (member payload "content")) "string" else true).

Definition debugAccepts (payload : Value) : bool :=
  let type := member payload "type" in
  oneOf ["setBreakpoint"; "clearBreakpoint"; "addWatch"; "enableLogging"] type &&
  pathOk (member payload "filePath") &&
  (if oneOf ["setBreakpoint"; "clearBreakpoint"] type
   then negb (notALineNumber (member payload "lineNumber")) else true) &&
  (if isString type "addWatch"
   then nonEmptyString (member payload "expression") else true) &&
  (if isString type "enableLogging"
   then negb (truthy (member payload "logLevel")) ||
        oneOf ["debug"; "info"; "warn"; "error"] (member payload "logLevel")
   else true).

Definition toolsAccepts (payload : Value) : bool :=
  let type := member payload "type" in
  oneOf ["format"; "lint"; "test"; "generate"] type &&
  optionalPathOk (member payload "filePath") &&
  (if isString type "generate" then nonEmptyString (member payload "tool") else true).

Definition execAccepts (payload : Value) : bool :=
  match member payload "filePath" with
  | VStr s => goodPath s && supported (extensionOf s)
  | _ => false
  end.

Definition nullish (v : Value) : bool :=
  match v with VUndefined | VNull => true | _ => false end.

(** What a placeholder answers: [success] with data for a payload that is
    an object, [error] with the code of the handler for [null] and
    [undefined]. *)
Definition placeholderAnswer (code : string) (request : OperationRequest) (t : Z)
    (settled : Completion OperationResponse * Z) : Prop :=
  exists r, settled = (Normal r, t) /\
    id r = req_id request /\ timestamp r = t /\ metadata r = None /\
    if nullish (payload request)
    then status r = "error" /\ data r = None /\
         exists m, error r = Some (mkErrorInfo code m None)
    else status r = "success" /\ error r = None /\
         exists fields, data r = Some (VObj fields) /\
                        lookupField fields "type" = member (payload request) "type".

(** [{ type: 'setBreakpoint', filePath: 'src/a.py', lineNumber: NaN }] *)
Definition breakpointAtNaN : Value :=
  VObj [("type", VStr "setBreakpoint"); ("filePath", VStr "src/a.py");
        ("lineNumber", VNum NaN)].

End Handlers.

(* ===================================================================== *)
(** * The registry in use *)
(* ===================================================================== *)

(** Sequences of calls on a registry, and the request the sidebar builds
    for it ([sidebarProvider.ts], [executeCommand]). *)
Module Extension.
Import JS Commands Handlers.

(** A call that changes the registry. *)
Inductive RegistryCall : Type :=
| DoRegister (descriptor : CommandDescriptor)
| DoRegisterBatch (descriptors : list CommandDescriptor)
| DoUnregister (i : string)
| DoClear.

Definition perform (c : RegistryCall) (s : CommandRegistry * World)
  : CommandRegistry * World :=
  match c with
  | DoRegister d => register d (fst s) (snd s)
  | DoRegisterBatch ds => registerBatch ds (fst s) (snd s)
  | DoUnregister i => let '(_, reg, w) := unregister i (fst s) (snd s) in (reg, w)
  | DoClear => clear (fst s) (snd s)
  end.

Definition performAll (cs : list RegistryCall) (s : CommandRegistry * World)
  : CommandRegistry * World :=
  fold_left (fun s c => perform c s) cs s.

(** [new CommandRegistry(logger)] *)
Definition newRegistry (logger : bool) : CommandRegistry := mkCommandRegistry [] logger.

(** The request [executeCommand] builds from the message of the web view:
    [uuid] is what [generateUUID()] returns, [t] what [Date.now()] reads. *)
Definition buildRequest (uuid : string) (t : Z) (command ai model : string)
    (file : option string) (root : string) : OperationRequest :=
  mkOperationRequest uuid t command (getCommandCategory command) ai model
    (buildCommandPayload command file) root file None.

(** The last descriptor of a batch registered under an id. *)
Definition lastWith (i : string) (descriptors : list CommandDescriptor)
  : option CommandDescriptor :=
  List.find (fun d => String.eqb (d_id d) i) (rev descriptors).

(** A handler that accepts every payload and whose [execute] is rejected
    five milliseconds after the call. *)
Definition rejectingHandler : CommandHandler :=
  mkCommandHandler
    (fun _ t => (Throw (Error "backend unavailable"), t + 5))
    (fun _ => Normal (validationOf []))
    (VObj []).

Definition rejectingRegistry : CommandRegistry :=
  mkCommandRegistry
    [("file.create",
      mkCommandDescriptor "file.create" "Create File" "fileOps" "Create a file"
        None rejectingHandler None None None)] false.

(** What the operations of the registry maintain: no id is filed twice,
    and every descriptor is filed under its own id. *)
Definition wellKeyed (reg : CommandRegistry) : Prop :=
  List.NoDup (map fst (commands reg)) /\
  Forall (fun kd => fst kd = d_id (snd kd)) (commands reg).

(** The four handlers of the extension. *)
Definition builtinHandlers : list (string * CommandHandler) :=
  [("FILE_OP_ERROR", FileOpsHandler); ("DEBUG_OP_ERROR", DebugHandler);
   ("TOOL_OP_ERROR", ToolsHandler); ("EXEC_OP_ERROR", ExecHandler)].

(** The commands whose sidebar payload can pass validation, and the files
    with which it does. *)
Definition sidebarAccepts (command : string) (file : option string) : bool :=
  if existsb (String.eqb command) ["file.create"; "file.delete"; "file.modify"]
  then pathOk (orEmpty file)
  else if existsb (String.eqb command)
            ["tools.format"; "tools.lint"; "tools.test"; "tools.generate"]
  then optionalPathOk (orEmpty file)
  else if String.eqb command "exec.run"
  then match orEmpty file with
       | VStr s => goodPath s && supported (extensionOf s)
       | _ => false
       end
  else false.

(** The code of the error of a response, if any. *)
Definition errorCode (r : OperationResponse) : option string :=
  option_map code (error r).

(** A request for a command that is not registered. *)
Definition unknownRequest : OperationRequest :=
  mkOperationRequest "req-2" 1700000000000 "file.destroy" "fileOps" "claude"
    "claude-3-5-sonnet" (VObj []) "/ws" None None.

End Extension.

(* ===================================================================== *)
(** * OperationStateStore: the sidebar's [StateManager] *)
(* ===================================================================== *)

(** The state object, its two arrays and the objects [getState] returns
    are shared with the callers of the manager: they live in a store, and a
    [SidebarState] holds references into it.  Listeners are observers: what
    they are given is the state as it reads through the store at the time of
    the call.  ([once] is not embedded.) *)
Module Sidebar.
Import JS.

Inductive UIMode : Type := compact | expanded.

(** [PendingOperation] and [HistoryEntry] of [sidebar/types.ts]. *)
Record PendingOperation : Type := mkPendingOperation {
  op_id : string;
  op_commandId : string;
  op_status : string;
  op_progress : Z;
  op_startTime : Z;
  op_endTime : option Z;
  op_error : option string
}.

Record HistoryEntry : Type := mkHistoryEntry {
  id : string;
  timestamp : Z;
  commandId : string;
  ai : string;
  model : string;
  status : string;
  duration : Z;
  message : option string
}.

(** [Omit<PendingOperation, 'id'>] and [Omit<HistoryEntry, 'id'>].  The
    types leave [id] out, but a value that has an [id] of its own (a whole
    [HistoryEntry], say) is assignable to them: [in_op_id] and [in_id] are
    the [id] the argument carries, if it carries one. *)
Record PendingOperationInput : Type := mkPendingOperationInput {
  in_op_id : option string;
  in_op_commandId : string;
  in_op_status : string;
  in_op_progress : Z;
  in_op_startTime : Z;
  in_op_endTime : option Z;
  in_op_error : option string
}.

Record HistoryEntryInput : Type := mkHistoryEntryInput {
  in_id : option string;
  in_timestamp : Z;
  in_commandId : string;
  in_ai : string;
  in_model : string;
  in_status : string;
  in_duration : Z;
  in_message : option string
}.

(** [{ id, ...operation }] and [{ id, ...entry }]: the properties of the
    argument are written after [id], so an [id] the argument carries
    replaces the generated one. *)
Definition fullOperation (i : string) (o : PendingOperationInput) : PendingOperation :=
  mkPendingOperation (default i (in_op_id o)) (in_op_commandId o) (in_op_status o)
    (in_op_progress o) (in_op_startTime o) (in_op_endTime o) (in_op_error o).

Definition fullEntry (i : string) (e : HistoryEntryInput) : HistoryEntry :=
  mkHistoryEntry (default i (in_id e)) (in_timestamp e) (in_commandId e) (in_ai e)
    (in_model e) (in_status e) (in_duration e) (in_message e).

(** [SidebarState], over the representation of its two lists: a state
    object holds references to its arrays ([StateObject]); read through the
    store it shows their contents ([Snapshot]). *)
Record SidebarStateOf (Ops Hist : Type) : Type := mkSidebarState {
  selectedAI : option string;
  selectedModel : option string;
  selectedFile : option string;
  selectedOperation : option string;
  isLoading : bool;
  operations : Ops;
  history : Hist;
  uiMode : UIMode
}.
Arguments mkSidebarState {Ops Hist}.
Arguments selectedAI {Ops Hist}.
Arguments selectedModel {Ops Hist}.
Arguments selectedFile {Ops Hist}.
Arguments selectedOperation {Ops Hist}.
Arguments isLoading {Ops Hist}.
Arguments operations {Ops Hist}.
Arguments history {Ops Hist}.
Arguments uiMode {Ops Hist}.

Definition loc : Type := nat.
Definition StateObject : Type := SidebarStateOf loc loc.
Definition Snapshot : Type := SidebarStateOf (list PendingOperation) (list HistoryEntry).

(** How a promise ends. *)
Inductive PromiseOutcome : Type :=
| Fulfilled
| Rejected (reason : Thrown)
| NeverSettles.

(** What a call of a listener does: return nothing, return a promise, or
    throw.  Listeners observe the state they are given; they do not write
    to it. *)
Inductive ListenerResult : Type :=
| ReturnsVoid
| ReturnsPromise (p : PromiseOutcome)
| Throws (e : Thrown).

Definition Listener : Type := Snapshot -> ListenerResult.

(** The store of shared objects, the [StateManager] instance, and what its
    calls leave behind in the environment. *)
Record World : Type := mkWorld {
  (* the store *)
  stateObjects : gmap loc StateObject;
  operationArrays : gmap loc (list PendingOperation);
  historyArrays : gmap loc (list HistoryEntry);
  nextLoc : loc;
  (* the instance *)
  this_state : loc;
  changeListeners : list (nat * Listener);
  nextListener : nat;
  (* the environment *)
  uuidCalls : nat;
  delivered : list (nat * Snapshot);
  consoleErrors : list Thrown;
  droppedRejections : list Thrown
}.

Definition with_store (so : gmap loc StateObject)
    (oa : gmap loc (list PendingOperation)) (ha : gmap loc (list HistoryEntry))
    (n : loc) (w : World) : World :=
  mkWorld so oa ha n (this_state w) (changeListeners w) (nextListener w)
    (uuidCalls w) (delivered w) (consoleErrors w) (droppedRejections w).

Definition with_this_state (r : loc) (w : World) : World :=
  mkWorld (stateObjects w) (operationArrays w) (historyArrays w) (nextLoc w)
    r (changeListeners w) (nextListener w)
    (uuidCalls w) (delivered w) (consoleErrors w) (droppedRejections w).

Definition with_listeners (ls : list (nat * Listener)) (n : nat) (w : World) : World :=
  mkWorld (stateObjects w) (operationArrays w) (historyArrays w) (nextLoc w)
    (this_state w) ls n
    (uuidCalls w) (delivered w) (consoleErrors w) (droppedRejections w).

Definition with_environment (u : nat) (d : list (nat * Snapshot))
    (ce dr : list Thrown) (w : World) : World :=
  mkWorld (stateObjects w) (operationArrays w) (historyArrays w) (nextLoc w)
    (this_state w) (changeListeners w) (nextListener w) u d ce dr.

(** ** The store *)

Definition allocState (s : StateObject) (w : World) : loc * World :=
  (nextLoc w,
   with_store (<[nextLoc w := s]> (stateObjects w)) (operationArrays w)
     (historyArrays w) (S (nextLoc w)) w).

Definition allocOperations (l : list PendingOperation) (w : World) : loc * World :=
  (nextLoc w,
   with_store (stateObjects w) (<[nextLoc w := l]> (operationArrays w))
     (historyArrays w) (S (nextLoc w)) w).

Definition allocHistory (l : list HistoryEntry) (w : World) : loc * World :=
  (nextLoc w,
   with_store (stateObjects w) (operationArrays w)
     (<[nextLoc w := l]> (historyArrays w)) (S (nextLoc w)) w).

Definition writeState (r : loc) (s : StateObject) (w : World) : World :=
  with_store (<[r := s]> (stateObjects w)) (operationArrays w)
    (historyArrays w) (nextLoc w) w.

Definition writeOperations (r : loc) (l : list PendingOperation) (w : World) : World :=
  with_store (stateObjects w) (<[r := l]> (operationArrays w))
    (historyArrays w) (nextLoc w) w.

Definition writeHistory (r : loc) (l : list HistoryEntry) (w : World) : World :=
  with_store (stateObjects w) (operationArrays w)
    (<[r := l]> (historyArrays w)) (nextLoc w) w.

Definition initialFields {Ops Hist} (ops : Ops) (hist : Hist) : SidebarStateOf Ops Hist :=
  mkSidebarState None None None None false ops hist expanded.

Definition readState (w : World) (r : loc) : StateObject :=
  default (initialFields 0%nat 0%nat) (stateObjects w !! r).

Definition readOperations (w : World) (r : loc) : list PendingOperation :=
  default [] (operationArrays w !! r).

Definition readHistory (w : World) (r : loc) : list HistoryEntry :=
  default [] (historyArrays w !! r).

(** A state object as seen through the store. *)
Definition snapshot (w : World) (r : loc) : Snapshot :=
  let s := readState w r in
  mkSidebarState (selectedAI s) (selectedModel s) (selectedFile s)
    (selectedOperation s) (isLoading s)
    (readOperations w (operations s)) (readHistory w (history s)) (uiMode s).

(** The state the manager holds, [this.state], as seen through the store. *)
Definition stored (w : World) : Snapshot := snapshot w (this_state w).

(** A new [StateManager]: the state object of the field initialiser with
    its two empty arrays, no listener. *)
Definition newStateManager : World :=
  mkWorld {[ 2%nat := initialFields 0%nat 1%nat ]}
    {[ 0%nat := [] ]} {[ 1%nat := [] ]} 3%nat
    2%nat [] 0%nat 0%nat [] [] [].

(** ** Notification *)

(** [Promise.all]: rejected as soon as one of the promises is, with the
    reason of the first rejected one in the order of the list (the order in
    which the promises of one [emit] reject unless a listener delays);
    fulfilled when all are; unsettled otherwise. *)
Fixpoint promiseAll (ps : list PromiseOutcome) : PromiseOutcome :=
  match ps with
  | [] => Fulfilled
  | p :: ps =>
      match p, promiseAll ps with
      | Rejected e, _ => Rejected e
      | _, Rejected e => Rejected e
      | NeverSettles, _ => NeverSettles
      | Fulfilled, rest => rest
      end
  end.

(** The body of the arrow function of [emit]:
    [try { return Promise.resolve(listener(event)) }
     catch (error) { console.error(...); return Promise.resolve() }]. *)
Definition callListener (listener : Listener) (event : Snapshot)
  : PromiseOutcome * list Thrown :=
  match listener event with
  | ReturnsVoid => (Fulfilled, [])
  | ReturnsPromise p => (p, [])
  | Throws e => (Fulfilled, [e])
  end.

(** [emit(event)]: the promise it returns, with the calls it made and the
    errors it logged. *)
Definition emit (event : loc) (w : World) : PromiseOutcome * World :=
  let ev := snapshot w event in
  let calls := map (fun l => (fst l, callListener (snd l) ev)) (changeListeners w) in
  let outcome := promiseAll (map (fun c => fst (snd c)) calls) in
  (outcome,
   with_environment (uuidCalls w)
     (delivered w ++ map (fun c => (fst c, ev)) calls)
     (consoleErrors w ++ concat (map (fun c => snd (snd c)) calls))
     (droppedRejections w) w).

(** [this.emit(this.state);] as the mutators write it: the promise is
    dropped, so a rejection of it is handled by nobody. *)
Definition notify (w : World) : World :=
  let '(outcome, w) := emit (this_state w) w in
  match outcome with
  | Rejected e =>
      with_environment (uuidCalls w) (delivered w) (consoleErrors w)
        (droppedRejections w ++ [e]) w
  | _ => w
  end.

(** A registered listener is a function object: the number paired with it
    is the identity of that object, which is what [l !== callback]
    compares.

    [on(callback)] with a function object that was not subscribed before:
    it gets the next identity.  [unsubscribe] is the function [on]
    returns. *)
Definition on (callback : Listener) (w : World) : nat * World :=
  (nextListener w,
   with_listeners (changeListeners w ++ [(nextListener w, callback)])
     (S (nextListener w)) w).

(** [on(callback)] with the function object of identity [n], subscribed
    already: it is pushed once more, under the same identity. *)
Definition onAgain (n : nat) (w : World) : World :=
  match List.find (fun l => Nat.eqb (fst l) n) (changeListeners w) with
  | Some l => with_listeners (changeListeners w ++ [(n, snd l)]) (nextListener w) w
  | None => w
  end.

(** [this.changeListeners.filter(l => l !== callback)]: every registration
    of the function goes, however often it was subscribed. *)
Definition unsubscribe (n : nat) (w : World) : World :=
  with_listeners (filter (fun l => fst l <> n) (changeListeners w))
    (nextListener w) w.

Definition clearListeners (w : World) : World :=
  with_listeners [] (nextListener w) w.

(** ** Reading and writing the state *)

(** [getState()]: [{ ...this.state }], a new object with the fields of the
    stored one. *)
Definition getState (w : World) : loc * World :=
  allocState (readState w (this_state w)) w.

Definition updateStored (f : StateObject -> StateObject) (w : World) : World :=
  writeState (this_state w) (f (readState w (this_state w))) w.

Definition setSelectedAI (aiId : option string) (w : World) : World :=
  let w := updateStored (fun s =>
    mkSidebarState aiId (selectedModel s) (selectedFile s) (selectedOperation s)
      (isLoading s) (operations s) (history s) (uiMode s)) w in
  let w := updateStored (fun s =>
    mkSidebarState (selectedAI s) None (selectedFile s) (selectedOperation s)
      (isLoading s) (operations s) (history s) (uiMode s)) w in
  notify w.

Definition setSelectedModel (modelId : option string) (w : World) : World :=
  notify (updateStored (fun s =>
    mkSidebarState (selectedAI s) modelId (selectedFile s) (selectedOperation s)
      (isLoading s) (operations s) (history s) (uiMode s)) w).

Definition setSelectedFile (filePath : option string) (w : World) : World :=
  notify (updateStored (fun s =>
    mkSidebarState (selectedAI s) (selectedModel s) filePath (selectedOperation s)
      (isLoading s) (operations s) (history s) (uiMode s)) w).

Definition setSelectedOperation (operationId : option string) (w : World) : World :=
  notify (updateStored (fun s =>
    mkSidebarState (selectedAI s) (selectedModel s) (selectedFile s) operationId
      (isLoading s) (operations s) (history s) (uiMode s)) w).

Definition setLoading (b : bool) (w : World) : World :=
  notify (updateStored (fun s =>
    mkSidebarState (selectedAI s) (selectedModel s) (selectedFile s)
      (selectedOperation s) b (operations s) (history s) (uiMode s)) w).

Definition set_operations (r : loc) (s : StateObject) : StateObject :=
  mkSidebarState (selectedAI s) (selectedModel s) (selectedFile s)
    (selectedOperation s) (isLoading s) r (history s) (uiMode s).

Definition set_history (r : loc) (s : StateObject) : StateObject :=
  mkSidebarState (selectedAI s) (selectedModel s) (selectedFile s)
    (selectedOperation s) (isLoading s) (operations s) r (uiMode s).

(** [Partial<SidebarState>]: the fields that are given; the two lists are
    given by reference. *)
Record PartialState : Type := mkPartialState {
  p_selectedAI : option (option string);
  p_selectedModel : option (option string);
  p_selectedFile : option (option string);
  p_selectedOperation : option (option string);
  p_isLoading : option bool;
  p_operations : option loc;
  p_history : option loc;
  p_uiMode : option UIMode
}.

(** [setState(partial)]: [this.state = { ...this.state, ...partial }], a
    new state object. *)
Definition setState (partial : PartialState) (w : World) : World :=
  let s := readState w (this_state w) in
  let '(r, w) :=
    allocState
      (mkSidebarState
         (default (selectedAI s) (p_selectedAI partial))
         (default (selectedModel s) (p_selectedModel partial))
         (default (selectedFile s) (p_selectedFile partial))
         (default (selectedOperation s) (p_selectedOperation partial))
         (default (isLoading s) (p_isLoading partial))
         (default (operations s) (p_operations partial))
         (default (history s) (p_history partial))
         (default (uiMode s) (p_uiMode partial))) w in
  notify (with_this_state r w).

(** [Partial<PendingOperation>] and [Object.assign(operation, partial)]. *)
Record PartialOperation : Type := mkPartialOperation {
  po_id : option string;
  po_commandId : option string;
  po_status : option string;
  po_progress : option Z;
  po_startTime : option Z;
  po_endTime : option (option Z);
  po_error : option (option string)
}.

Definition assignOperation (op : PendingOperation) (partial : PartialOperation)
  : PendingOperation :=
  mkPendingOperation
    (default (op_id op) (po_id partial))
    (default (op_commandId op) (po_commandId partial))
    (default (op_status op) (po_status partial))
    (default (op_progress op) (po_progress partial))
    (default (op_startTime op) (po_startTime partial))
    (default (op_endTime op) (po_endTime partial))
    (default (op_error op) (po_error partial)).

(** The first operation with the identifier is replaced by its update. *)
Fixpoint assignFirst (i : string) (partial : PartialOperation)
    (ops : list PendingOperation) : option (list PendingOperation) :=
  match ops with
  | [] => None
  | op :: rest =>
      if String.eqb (op_id op) i then Some (assignOperation op partial :: rest)
      else option_map (cons op) (assignFirst i partial rest)
  end.

(** [updateOperation(id, partial)]: the operation found is changed in
    place, inside the array the state refers to; nothing happens, and
    nobody is notified, when there is none. *)
Definition updateOperation (i : string) (partial : PartialOperation) (w : World)
  : World :=
  let r := operations (readState w (this_state w)) in
  match assignFirst i partial (readOperations w r) with
  | Some ops => notify (writeOperations r ops w)
  | None => w
  end.

Definition toggleUIMode (w : World) : World :=
  notify (updateStored (fun s =>
    mkSidebarState (selectedAI s) (selectedModel s) (selectedFile s)
      (selectedOperation s) (isLoading s) (operations s) (history s)
      (match uiMode s with compact => expanded | expanded => compact end)) w).

Section Identifiers.

(** [generateUUID] of [utils/uuid.ts], whose source is not part of the
    modelled files: the identifier its n-th call returns. *)
Variable generateUUID : nat -> string.

Definition freshUUID (w : World) : string * World :=
  (generateUUID (uuidCalls w),
   with_environment (S (uuidCalls w)) (delivered w) (consoleErrors w)
     (droppedRejections w) w).

(** [addOperation(operation)]: [push] writes into the array the state
    refers to. *)
Definition addOperation (operation : PendingOperationInput) (w : World)
  : string * World :=
  let '(i, w) := freshUUID w in
  let r := operations (readState w (this_state w)) in
  let w := writeOperations r (readOperations w r ++ [fullOperation i operation]) w in
  (i, notify w).

(** [removeOperation(id)]: [filter] makes a new array. *)
Definition removeOperation (i : string) (w : World) : World :=
  let r := operations (readState w (this_state w)) in
  let '(r', w) :=
    allocOperations
      (filter (fun op => negb (String.eqb (op_id op) i)) (readOperations w r)) w in
  notify (updateStored (set_operations r') w).

(** [addToHistory(entry)]:
    [this.state.history = [fullEntry, ...this.state.history].slice(0, 50)]. *)
Definition addToHistory (entry : HistoryEntryInput) (w : World)
  : string * World :=
  let '(i, w) := freshUUID w in
  let r := history (readState w (this_state w)) in
  let '(r', w) :=
    allocHistory (take 50 (fullEntry i entry :: readHistory w r)) w in
  let w := updateStored (set_history r') w in
  (i, notify w).

Definition clearHistory (w : World) : World :=
  let '(r', w) := allocHistory [] w in
  notify (updateStored (set_history r') w).

(** [reset()]: a new state object with two new empty arrays. *)
Definition reset (w : World) : World :=
  let '(ro, w) := allocOperations [] w in
  let '(rh, w) := allocHistory [] w in
  let '(rs, w) := allocState (initialFields ro rh) w in
  notify (with_this_state rs w).



End Identifiers.

(** Locations in use lie below the allocation pointer. *)
Definition wellFormed (w : World) : Prop :=
  (this_state w < nextLoc w)%nat /\
  (operations (readState w (this_state w)) < nextLoc w)%nat /\
  (history (readState w (this_state w)) < nextLoc w)%nat.

(** Sample data: an identifier generator and 51 history entries. *)
Definition sampleUUID (n : nat) : string :=
  "uuid-" ++ string_of_list_ascii (int_chars (Z.of_nat n)).



(** ** What a caller can do with the object [getState] returned *)

(** Writes through a reference [r] to a state object: assignments to its
    fields, and in-place changes of the arrays its fields refer to. *)
Inductive Mutation : Type :=
| AssignSelectedAI (v : option string)          (* r.selectedAI = v *)
| AssignSelectedModel (v : option string)       (* r.selectedModel = v *)
| AssignIsLoading (b : bool)                    (* r.isLoading = b *)
| AssignUIMode (m : UIMode)                     (* r.uiMode = m *)
| AssignOperations (l : list PendingOperation)  (* r.operations = [...] *)
| AssignHistory (l : list HistoryEntry)         (* r.history = [...] *)
| PushOperation (op : PendingOperation)         (* r.operations.push(op) *)
| PushHistory (h : HistoryEntry)                (* r.history.push(h) *)
| TruncateOperations                            (* r.operations.length = 0 *)
| TruncateHistory.                              (* r.history.length = 0 *)

Definition isFieldAssignment (m : Mutation) : bool :=
  match m with
  | PushOperation _ | PushHistory _ | TruncateOperations | TruncateHistory => false
  | _ => true
  end.

Definition mutate (r : loc) (m : Mutation) (w : World) : World :=
  let s := readState w r in
  match m with
  | AssignSelectedAI v =>
      writeState r (mkSidebarState v (selectedModel s) (selectedFile s)
        (selectedOperation s) (isLoading s) (operations s) (history s) (uiMode s)) w
  | AssignSelectedModel v =>
      writeState r (mkSidebarState (selectedAI s) v (selectedFile s)
        (selectedOperation s) (isLoading s) (operations s) (history s) (uiMode s)) w
  | AssignIsLoading b =>
      writeState r (mkSidebarState (selectedAI s) (selectedModel s) (selectedFile s)
        (selectedOperation s) b (operations s) (history s) (uiMode s)) w
  | AssignUIMode m =>
      writeState r (mkSidebarState (selectedAI s) (selectedModel s) (selectedFile s)
        (selectedOperation s) (isLoading s) (operations s) (history s) m) w
  | AssignOperations l =>
      let '(a, w) := allocOperations l w in
      writeState r (set_operations a s) w
  | AssignHistory l =>
      let '(a, w) := allocHistory l w in
      writeState r (set_history a s) w
  | PushOperation op =>
      writeOperations (operations s) (readOperations w (operations s) ++ [op]) w
  | PushHistory h =>
      writeHistory (history s) (readHistory w (history s) ++ [h]) w
  | TruncateOperations => writeOperations (operations s) [] w
  | TruncateHistory => writeHistory (history s) [] w
  end.

End Sidebar.

(* ===================================================================== *)
(** * The calls of the state manager *)
(* ===================================================================== *)

Module Manager.
Import JS Sidebar.

(** A call of a method of [StateManager] that writes the state. *)
Inductive ManagerCall : Type :=
| CallSetState (partial : PartialState)
| CallSetSelectedAI (aiId : option string)
| CallSetSelectedModel (modelId : option string)
| CallSetSelectedFile (filePath : option string)
| CallSetSelectedOperation (operationId : option string)
| CallSetLoading (b : bool)
| CallAddOperation (operation : PendingOperationInput)
| CallUpdateOperation (i : string) (partial : PartialOperation)
| CallRemoveOperation (i : string)
| CallAddToHistory (entry : HistoryEntryInput)
| CallClearHistory
| CallToggleUIMode
| CallReset.

Section Calls.

Variable generateUUID : nat -> string.

Definition call (c : ManagerCall) (w : World) : World :=
  match c with
  | CallSetState partial => setState partial w
  | CallSetSelectedAI aiId => setSelectedAI aiId w
  | CallSetSelectedModel modelId => setSelectedModel modelId w
  | CallSetSelectedFile filePath => setSelectedFile filePath w
  | CallSetSelectedOperation operationId => setSelectedOperation operationId w
  | CallSetLoading b => setLoading b w
  | CallAddOperation operation => snd (addOperation generateUUID operation w)
  | CallUpdateOperation i partial => updateOperation i partial w
  | CallRemoveOperation i => removeOperation i w
  | CallAddToHistory entry => snd (addToHistory generateUUID entry w)
  | CallClearHistory => clearHistory w
  | CallToggleUIMode => toggleUIMode w
  | CallReset => reset w
  end.

End Calls.

(** Whether the stored state has an operation with the identifier. *)
Definition hasOperation (i : string) (w : World) : bool :=
  existsb (fun op => String.eqb (op_id op) i) (operations (stored w)).

(** The one call that may do nothing: [updateOperation] of an identifier
    no operation has. *)
Definition changesState (c : ManagerCall) (w : World) : bool :=
  match c with
  | CallUpdateOperation i _ => hasOperation i w
  | _ => true
  end.

(** [{ selectedAI: aiId }] as a [Partial<SidebarState>]. *)
Definition onlySelectedAI (aiId : option string) : PartialState :=
  mkPartialState (Some aiId) None None None None None None None.

(** A sample operation and an update of its status. *)
Definition sampleOperation : PendingOperationInput :=
  mkPendingOperationInput None "file.create" "executing" 0 1700000000000 None None.

Definition completed : PartialOperation :=
  mkPartialOperation None None (Some "completed") (Some 100) None
    (Some (Some 1700000000012)) None.

End Manager.
(* ===================================================================== *)
(** * Transport: the reconnecting WebSocket client *)
(* ===================================================================== *)

(** [connect] and [close] are embedded, with the four socket handlers and
    the reconnect timer as events.  [send] only reads the client's fields
    (it polls [readyState] and transmits): it is not an event of the state
    machine. *)
Module Transport.

(** [WebSocket.readyState]. *)
Inductive ReadyState : Type := CONNECTING | OPEN | CLOSING | CLOSED.

Definition ReadyState_eqb (a b : ReadyState) : bool :=
  match a, b with
  | CONNECTING, CONNECTING | OPEN, OPEN | CLOSING, CLOSING | CLOSED, CLOSED => true
  | _, _ => false
  end.

(** An underlying connection: one [new WebSocket(url)]. *)
Record Socket : Type := mkSocket {
  url : string;
  readyState : ReadyState
}.

(** The fields of [WebSocketClient], together with what surrounds it: every
    socket it has created (a socket is named by its position), the reconnect
    timers armed by [setTimeout] and not yet fired (each with the delay it
    was armed with), and the calls made to the two observers. *)
Record Client : Type := mkClient {
  sockets : list Socket;
  ws : option nat;
  reconnectDelay : Z;
  maxDelay : Z;
  shouldReconnect : bool;
  connecting : bool;
  timers : list Z;
  infos : list string;
  messages : list string
}.

Definition initial : Client :=
  {| sockets := []; ws := None; reconnectDelay := 1000; maxDelay := 30000;
     shouldReconnect := true; connecting := false; timers := [];
     infos := []; messages := [] |}.

Definition onInfo (info : string) (c : Client) : Client :=
  {| sockets := sockets c; ws := ws c; reconnectDelay := reconnectDelay c;
     maxDelay := maxDelay c; shouldReconnect := shouldReconnect c;
     connecting := connecting c; timers := timers c;
     infos := infos c ++ [info]; messages := messages c |}.

Definition onMessage (text : string) (c : Client) : Client :=
  {| sockets := sockets c; ws := ws c; reconnectDelay := reconnectDelay c;
     maxDelay := maxDelay c; shouldReconnect := shouldReconnect c;
     connecting := connecting c; timers := timers c;
     infos := infos c; messages := messages c ++ [text] |}.

Definition set_sockets (l : list Socket) (c : Client) : Client :=
  {| sockets := l; ws := ws c; reconnectDelay := reconnectDelay c;
     maxDelay := maxDelay c; shouldReconnect := shouldReconnect c;
     connecting := connecting c; timers := timers c;
     infos := infos c; messages := messages c |}.

Definition set_ws (w : option nat) (c : Client) : Client :=
  {| sockets := sockets c; ws := w; reconnectDelay := reconnectDelay c;
     maxDelay := maxDelay c; shouldReconnect := shouldReconnect c;
     connecting := connecting c; timers := timers c;
     infos := infos c; messages := messages c |}.

Definition set_reconnectDelay (d : Z) (c : Client) : Client :=
  {| sockets := sockets c; ws := ws c; reconnectDelay := d;
     maxDelay := maxDelay c; shouldReconnect := shouldReconnect c;
     connecting := connecting c; timers := timers c;
     infos := infos c; messages := messages c |}.

Definition set_shouldReconnect (b : bool) (c : Client) : Client :=
  {| sockets := sockets c; ws := ws c; reconnectDelay := reconnectDelay c;
     maxDelay := maxDelay c; shouldReconnect := b;
     connecting := connecting c; timers := timers c;
     infos := infos c; messages := messages c |}.

Definition set_connecting (b : bool) (c : Client) : Client :=
  {| sockets := sockets c; ws := ws c; reconnectDelay := reconnectDelay c;
     maxDelay := maxDelay c; shouldReconnect := shouldReconnect c;
     connecting := b; timers := timers c;
     infos := infos c; messages := messages c |}.

Definition set_timers (t : list Z) (c : Client) : Client :=
  {| sockets := sockets c; ws := ws c; reconnectDelay := reconnectDelay c;
     maxDelay := maxDelay c; shouldReconnect := shouldReconnect c;
     connecting := connecting c; timers := t;
     infos := infos c; messages := messages c |}.

Definition set_readyState (i : nat) (r : ReadyState) (c : Client) : Client :=
  set_sockets (alter (fun s => mkSocket (url s) r) i (sockets c)) c.

Definition readyStateOf (c : Client) (i : nat) : option ReadyState :=
  readyState <$> (sockets c !! i).

(** [this.ws && this.ws.readyState === WebSocket.OPEN] *)
Definition wsIsOpen (c : Client) : bool :=
  match ws c with
  | Some i =>
      match readyStateOf c i with
      | Some r => ReadyState_eqb r OPEN
      | None => false
      end
  | None => false
  end.

Section Client.

(** The caller's address resolver, re-evaluated on every attempt: its
    result at the attempt that creates the socket of the given position. *)
Variable getUrl : nat -> string.

(** The local function [tryConnect] of [connect]: resolve the address,
    create a socket, make it the current one.  Its four handlers are the
    [Socket*] events of [step]. *)
Definition tryConnect (c : Client) : Client :=
  let n := length (sockets c) in
  let u := getUrl n in
  let c := onInfo ("Connecting to " ++ u) c in
  set_ws (Some n) (set_sockets (sockets c ++ [mkSocket u CONNECTING]) c).

(** [connect()] *)
Definition connect (c : Client) : Client :=
  if connecting c && wsIsOpen c then c
  else tryConnect (set_connecting true (set_shouldReconnect true c)).

(** [close()]: [ws.close()] starts the closing handshake of a socket that
    is not closed already; the socket's [close] event follows later. *)
Definition close (c : Client) : Client :=
  let c := set_shouldReconnect false c in
  match ws c with
  | Some i =>
      match readyStateOf c i with
      | Some CLOSED | None => c
      | Some _ => set_readyState i CLOSING c
      end
  | None => c
  end.

(** What happens to a client: calls of its public methods, events of the
    sockets it created, and reconnect timers coming due. *)
Inductive Event : Type :=
| CallConnect
| CallClose
| SocketOpen (i : nat)
| SocketMessage (i : nat) (text : string)
| SocketError (i : nat) (message : string)
| SocketClose (i : nat)
| TimerFire (k : nat).

(** One event.  [None] when the event cannot happen in the state: a socket
    opens once, from [CONNECTING]; it delivers messages while [OPEN]; it
    closes once; a timer fires once. *)
Definition step (ev : Event) (c : Client) : option Client :=
  match ev with
  | CallConnect => Some (connect c)
  | CallClose => Some (close c)
  | SocketOpen i =>
      match readyStateOf c i with
      | Some CONNECTING =>
          let c := set_readyState i OPEN c in
          let c := onInfo "Connected to backend" c in
          let c := set_reconnectDelay 1000 c in
          Some (set_connecting false c)
      | _ => None
      end
  | SocketMessage i text =>
      match readyStateOf c i with
      | Some OPEN => Some (onMessage text c)
      | _ => None
      end
  | SocketError i message =>
      match readyStateOf c i with
      | Some CLOSED | None => None
      | Some _ => Some (onInfo ("WebSocket error: " ++ message) c)
      end
  | SocketClose i =>
      match readyStateOf c i with
      | Some CLOSED | None => None
      | Some _ =>
          let c := set_readyState i CLOSED c in
          let c := onInfo "Disconnected from backend" c in
          if negb (shouldReconnect c) then Some c
          else Some (set_timers (timers c ++ [reconnectDelay c]) c)
      end
  | TimerFire k =>
      match timers c !! k with
      | Some _ =>
          let c := set_timers (delete k (timers c)) c in
          let c := set_reconnectDelay (Z.min (reconnectDelay c * 2) (maxDelay c)) c in
          Some (tryConnect c)
      | None => None
      end
  end.

(** The states of the reconnection state machine. *)
Inductive reachable : Client -> Prop :=
| reachable_initial : reachable initial
| reachable_step ev c c' :
    reachable c -> step ev c = Some c' -> reachable c'.

Fixpoint run (evs : list Event) (c : Client) : option Client :=
  match evs with
  | [] => Some c
  | ev :: evs => match step ev c with
                 | Some c' => run evs c'
                 | None => None
                 end
  end.

End Client.

(** What the reconnection state machine keeps true: the ceiling is the
    constant 30000, the delay stays between floor and ceiling, and the
    [connecting] flag is never up while the current socket is open (the
    [open] handler lowers it at the moment the socket opens). *)
Definition invariant (c : Client) : Prop :=
  maxDelay c = 30000 /\
  1000 <= reconnectDelay c <= 30000 /\
  (connecting c = true -> wsIsOpen c = false).

(** A run of the state machine: [connect()], then the attempt fails. *)
Definition lost_once : Client :=
  Eval vm_compute in
    default initial
      (run (fun _ => "ws://localhost:8000") [CallConnect; SocketClose 0%nat] initial).

End Transport.

(* ===================================================================== *)
(** * The shape of the reconnecting client *)
(* ===================================================================== *)

Module Reconnection.
Import Transport.

(** The delays of the backoff: doubling from the floor, cut at the
    ceiling. *)
Definition backoffDelays : list Z := [1000; 2000; 4000; 8000; 16000; 30000].

Definition isBackoffDelay (d : Z) : bool := existsb (Z.eqb d) backoffDelays.

(** The socket created last, if any. *)
Definition newest (c : Client) : option nat :=
  match length (sockets c) with
  | O => None
  | S n => Some n
  end.

(** The delay and every armed timer carry a delay of the backoff, and the
    current socket is the one created last. *)
Definition shape (c : Client) : Prop :=
  isBackoffDelay (reconnectDelay c) = true /\
  Forall (fun d => isBackoffDelay d = true) (timers c) /\
  ws c = newest c.

End Reconnection.

(* ===================================================================== *)
(** * The reference engine reads back what it writes *)
(* ===================================================================== *)

Module JSONSpec.
Import JS JSON.
Local Open Scope list_scope.

(** ** The writer, equation by equation *)

Lemma write_arr items :
  write (VArr items) = Some ("["%char :: join_commas (write_elements items) ++ ["]"%char]).
Proof. reflexivity. Qed.

Lemma write_obj fields :
  write (VObj fields) = Some ("{"%char :: join_commas (write_members fields) ++ ["}"%char]).
Proof. reflexivity. Qed.

(** ** Representable values *)

Lemma representable_arr items :
  representable (VArr items) = true -> Forall (fun x => representable x = true) items.
Proof.
  simpl. induction items as [|x r IH]; intros H; constructor.
  - apply andb_true_iff in H. tauto.
  - apply IH. apply andb_true_iff in H. tauto.
Qed.

Lemma existsb_eqb_In k seen : existsb (String.eqb k) seen = true <-> In k seen.
Proof.
  rewrite existsb_exists. split.
  - intros (x & Hin & Heq). apply String.eqb_eq in Heq. subst. exact Hin.
  - intros H. exists k. split; [exact H|apply String.eqb_refl].
Qed.

Lemma representable_obj fields :
  representable (VObj fields) = true ->
  Forall (fun kx => representable (snd kx) = true) fields /\ distinct_from [] fields.
Proof.
  simpl. generalize (@nil string) as seen.
  induction fields as [|[k x] r IH]; intros seen H.
  - split; [constructor|exact I].
  - apply andb_true_iff in H. destruct H as [H Hr].
    apply andb_true_iff in H. destruct H as [Hk Hx].
    destruct (IH _ Hr) as [IH1 IH2]. split.
    + constructor; assumption.
    + simpl. split; [|exact IH2].
      intros Hin. apply existsb_eqb_In in Hin. rewrite Hin in Hk. discriminate.
Qed.

(** ** Characters *)

Ltac each_char c := destruct c as [[] [] [] [] [] [] [] []].

Lemma value_start_facts c :
  value_start c = true ->
  is_ws c = false /\
  Ascii.eqb c "]" = false /\ Ascii.eqb c "}" = false /\ Ascii.eqb c "," = false.
Proof. each_char c; intros H; try discriminate H; repeat split. Qed.

Lemma delimited_facts rest :
  delimited rest ->
  starts_fraction rest = false /\
  match rest with [] => True | c :: _ => digit_of c = None end.
Proof.
  intros [ -> | (r & [ -> | [ -> | -> ]]) ]; split; reflexivity || exact I.
Qed.

(** ** Strings *)

Lemma read_string_quote_char c r acc :
  read_string (quote_char c ++ r) acc = read_string r (c :: acc).
Proof. each_char c; reflexivity. Qed.

Lemma read_string_body cs : forall acc rest,
  read_string (concat (map quote_char cs) ++ dq :: rest) acc =
  Normal (string_of_list_ascii (rev acc ++ cs), rest).
Proof.
  induction cs as [|c cs IH]; intros acc rest.
  - rewrite app_nil_r. reflexivity.
  - simpl concat. rewrite <- app_assoc, read_string_quote_char, IH.
    simpl rev. rewrite <- app_assoc. reflexivity.
Qed.

Lemma read_string_quote s rest :
  read_string (tl (quote s) ++ rest) [] = Normal (s, rest).
Proof.
  unfold quote. simpl tl. rewrite <- app_assoc. simpl app at 2.
  rewrite read_string_body. simpl rev. simpl app.
  unfold chars. rewrite string_of_list_ascii_of_string. reflexivity.
Qed.

(** ** Integers *)

Lemma read_digits_uint d rest :
  match rest with [] => True | c :: _ => digit_of c = None end ->
  read_digits (uint_chars d ++ rest) = (d, rest).
Proof.
  intros Hrest.
  induction d; simpl; try (rewrite IHd; reflexivity).
  destruct rest as [|c r]; [reflexivity|]. simpl. rewrite Hrest. reflexivity.
Qed.

Lemma uint_chars_head d :
  d <> Nil -> exists c r, uint_chars d = c :: r /\ digit_of c <> None /\
                          Ascii.eqb c "-" = false /\ value_start c = true.
Proof.
  destruct d; intros H; try contradiction; simpl;
    do 2 eexists; (split; [reflexivity|]); repeat split; discriminate.
Qed.

(** The digits [Z.to_int] gives are not empty and have no leading zero. *)
Lemma to_int_normal z :
  match Z.to_int z with
  | Decimal.Pos d | Decimal.Neg d => d <> Nil /\ forall d', d = D0 d' -> d' = Nil
  end.
Proof.
  pose proof (DecimalZ.to_of (Z.to_int z)) as H.
  rewrite DecimalZ.of_to in H.
  destruct (Z.to_int z) as [d|d]; simpl in H.
  - injection H as H. split.
    + rewrite H. apply DecimalFacts.unorm_nonnil.
    + intros d' ->. rewrite DecimalFacts.unorm_D0 in H. unfold unorm in H.
      destruct (nzhead d') eqn:E; try (injection H as <-; reflexivity);
        exfalso; apply (DecimalFacts.nzhead_nonzero d' d'); congruence.
  - destruct (nzhead d) eqn:E; try discriminate H; injection H as ->;
      (split; [discriminate|]);
      intros d' Hd'; try discriminate Hd';
      exfalso; exact (DecimalFacts.nzhead_nonzero _ _ E).
Qed.

Lemma read_number_int z rest :
  delimited rest ->
  read_number (int_chars z ++ rest) = Normal (VNum (NInt z), rest).
Proof.
  intros Hd. destruct (delimited_facts rest Hd) as [Hfrac Hdigit].
  pose proof (to_int_normal z) as Hn. pose proof (DecimalZ.of_to z) as Hz.
  unfold int_chars. destruct (Z.to_int z) as [d|d]; destruct Hn as [Hnil Hzero].
  - destruct (uint_chars_head d Hnil) as (c & r & Hc & _ & Hminus & _).
    unfold read_number.
    replace (head_is "-" (uint_chars d ++ rest)) with false
      by (rewrite Hc; simpl; rewrite Hminus; reflexivity).
    rewrite read_digits_uint by exact Hdigit.
    destruct d; try contradiction; rewrite Hfrac, ?Hz; try reflexivity.
    rewrite (Hzero d eq_refl). reflexivity.
  - rewrite <- app_comm_cons. unfold read_number. cbn [head_is tl].
    change (Ascii.eqb "-" "-") with true. cbv iota.
    rewrite read_digits_uint by exact Hdigit.
    destruct d; try contradiction; rewrite Hfrac, ?Hz; try reflexivity.
    rewrite (Hzero d eq_refl). reflexivity.
Qed.

Lemma int_chars_head z :
  exists c r, int_chars z = c :: r /\ value_start c = true /\
              (Ascii.eqb c "-" = true \/ digit_of c <> None).
Proof.
  pose proof (to_int_normal z) as Hn. unfold int_chars.
  destruct (Z.to_int z) as [d|d]; destruct Hn as [Hnil _].
  - destruct (uint_chars_head d Hnil) as (c & r & Hc & Hdig & _ & Hv).
    exists c, r. auto.
  - do 2 eexists. split; [reflexivity|]. split; [reflexivity|]. left. reflexivity.
Qed.

(** ** Values *)

Lemma representable_write v :
  representable v = true -> exists l, write v = Some l.
Proof.
  destruct v as [| |[]|[]|s|items|fields]; intros H; try discriminate H;
    eexists; reflexivity.
Qed.

Lemma write_starts v l :
  write v = Some l -> exists c l', l = c :: l' /\ value_start c = true.
Proof.
  destruct v as [| |[]|[z| | |]|s|items|fields]; simpl; intros H;
    try discriminate H; injection H as <-;
    try (do 2 eexists; split; reflexivity).
  destruct (int_chars_head z) as (c & r & Hc & Hv & _). exists c, r. auto.
Qed.

Lemma skip_ws_start c l : value_start c = true -> skip_ws (c :: l) = c :: l.
Proof.
  intros H. destruct (value_start_facts c H) as (Hws & _). simpl. rewrite Hws.
  reflexivity.
Qed.

Lemma read_value_number f c r :
  Ascii.eqb c "-" = true \/ digit_of c <> None ->
  read_value (S f) (c :: r) = read_number (c :: r).
Proof.
  intros H.
  each_char c; try reflexivity; exfalso; destruct H as [H|H];
    try discriminate H; apply H; reflexivity.
Qed.

(** One step of each reader, on text of the shape the writer gives. *)

Lemma read_value_string f s rest :
  read_value (S f) (quote s ++ rest) = Normal (VStr s, rest).
Proof.
  transitivity (bind (read_string (tl (quote s) ++ rest) [])
                  (fun sr => Normal (VStr (fst sr), snd sr))).
  - reflexivity.
  - rewrite read_string_quote. reflexivity.
Qed.

Lemma read_value_array f c t :
  value_start c = true ->
  read_value (S f) ("["%char :: c :: t) =
  bind (read_elements f (c :: t)) (fun er => Normal (VArr (fst er), snd er)).
Proof.
  intros H. destruct (value_start_facts c H) as (Hws & Hb & _).
  transitivity
    (if head_is "]" (skip_ws (c :: t))
     then Normal (VArr [], tl (skip_ws (c :: t)))
     else bind (read_elements f (c :: t)) (fun er => Normal (VArr (fst er), snd er))).
  - reflexivity.
  - rewrite (skip_ws_start c t H). simpl head_is. rewrite Hb. reflexivity.
Qed.

Lemma read_value_object f c t :
  value_start c = true ->
  read_value (S f) ("{"%char :: c :: t) =
  bind (read_members f (c :: t)) (fun mr => Normal (object_of (fst mr), snd mr)).
Proof.
  intros H. destruct (value_start_facts c H) as (Hws & _ & Hb & _).
  transitivity
    (if head_is "}" (skip_ws (c :: t))
     then Normal (VObj [], tl (skip_ws (c :: t)))
     else bind (read_members f (c :: t)) (fun mr => Normal (object_of (fst mr), snd mr))).
  - reflexivity.
  - rewrite (skip_ws_start c t H). simpl head_is. rewrite Hb. reflexivity.
Qed.

Lemma read_elements_step f s :
  read_elements (S f) s =
  bind (read_value f s) (fun vr => after_element f (fst vr) (skip_ws (snd vr))).
Proof. reflexivity. Qed.

Lemma read_members_step f k t :
  read_members (S f) (quote k ++ ":"%char :: t) =
  bind (read_value f t) (fun vr => after_member f k (fst vr) (skip_ws (snd vr))).
Proof.
  transitivity
    (bind (read_string (tl (quote k) ++ ":"%char :: t) []) (fun kr =>
       let r := skip_ws (snd kr) in
       if head_is ":" r then
         bind (read_value f (tl r)) (fun vr =>
           after_member f (fst kr) (fst vr) (skip_ws (snd vr)))
       else Throw (unexpected r))).
  - reflexivity.
  - rewrite read_string_quote. reflexivity.
Qed.

Lemma delimited_comma r : delimited (","%char :: r).
Proof. right. exists r. auto. Qed.

Lemma delimited_bracket r : delimited ("]"%char :: r).
Proof. right. exists r. auto. Qed.

Lemma delimited_brace r : delimited ("}"%char :: r).
Proof. right. exists r. auto. Qed.

Lemma read_elements_written items :
  Forall reads_back items ->
  Forall (fun x => representable x = true) items ->
  items <> [] ->
  forall fuel rest,
    (2 * length (join_commas (write_elements items)) + 1 < fuel)%nat ->
    read_elements fuel (join_commas (write_elements items) ++ "]"%char :: rest) =
    Normal (items, rest).
Proof.
  induction items as [|x xs IH]; intros Hback Hrep Hne fuel rest Hfuel;
    [contradiction|].
  inversion Hback as [|? ? Hx Hxs]; subst. inversion Hrep as [|? ? Rx Rxs]; subst.
  destruct (representable_write x Rx) as (l & Hl).
  destruct fuel as [|f]; [lia|]. rewrite read_elements_step.
  destruct xs as [|y ys].
  - simpl in Hfuel |- *. rewrite Hl in Hfuel |- *. simpl in Hfuel |- *.
    rewrite (Hx Rx l Hl f _ ltac:(lia) (delimited_bracket rest)).
    reflexivity.
  - assert (Hj : join_commas (write_elements (x :: y :: ys)) =
                 l ++ ","%char :: join_commas (write_elements (y :: ys))).
    { simpl. rewrite Hl. reflexivity. }
    rewrite Hj in Hfuel |- *. rewrite length_app in Hfuel. cbn [length] in Hfuel.
    specialize (IH Hxs Rxs ltac:(discriminate) f rest).
    remember (join_commas (write_elements (y :: ys))) as J eqn:EJ.
    rewrite <- app_assoc. rewrite <- app_comm_cons.
    rewrite (Hx Rx l Hl f _ ltac:(lia) (delimited_comma _)).
    simpl. unfold after_element. simpl. rewrite IH by lia.
    reflexivity.
Qed.

Lemma write_members_cons k x l r :
  write x = Some l ->
  write_members ((k, x) :: r) = (quote k ++ ":"%char :: l) :: write_members r.
Proof. intros H. simpl. rewrite H. reflexivity. Qed.

Lemma read_members_written fields :
  Forall (fun kx => reads_back (snd kx)) fields ->
  Forall (fun kx => representable (snd kx) = true) fields ->
  fields <> [] ->
  forall fuel rest,
    (2 * length (join_commas (write_members fields)) + 1 < fuel)%nat ->
    read_members fuel (join_commas (write_members fields) ++ "}"%char :: rest) =
    Normal (fields, rest).
Proof.
  induction fields as [|[k x] xs IH]; intros Hback Hrep Hne fuel rest Hfuel;
    [contradiction|].
  inversion Hback as [|? ? Hx Hxs]; subst. inversion Hrep as [|? ? Rx Rxs]; subst.
  simpl in Hx, Rx.
  destruct (representable_write x Rx) as (l & Hl).
  destruct fuel as [|f]; [lia|].
  rewrite (write_members_cons k x l xs Hl) in Hfuel |- *.
  destruct xs as [|[k' y] ys].
  - cbn [write_members join_commas] in Hfuel |- *.
    rewrite length_app in Hfuel. cbn [length] in Hfuel.
    rewrite <- app_assoc. rewrite <- app_comm_cons. rewrite read_members_step.
    rewrite (Hx Rx l Hl f _ ltac:(lia) (delimited_brace rest)).
    reflexivity.
  - specialize (IH Hxs Rxs ltac:(discriminate) f rest).
    inversion Rxs as [|? ? Ry _]; subst. simpl in Ry.
    destruct (representable_write y Ry) as (ly & Hly).
    rewrite (write_members_cons k' y ly ys Hly) in Hfuel, IH |- *.
    remember (join_commas ((quote k' ++ ":"%char :: ly) :: write_members ys)) as J eqn:EJ.
    assert (Hj : join_commas ((quote k ++ ":"%char :: l)
                              :: (quote k' ++ ":"%char :: ly) :: write_members ys) =
                 (quote k ++ ":"%char :: l) ++ ","%char :: J).
    { rewrite EJ. reflexivity. }
    rewrite Hj in Hfuel |- *. rewrite !length_app in Hfuel. cbn [length] in Hfuel.
    rewrite <- !app_assoc. rewrite <- !app_comm_cons.
    rewrite read_members_step.
    rewrite (Hx Rx l Hl f _ ltac:(lia) (delimited_comma _)).
    simpl. unfold after_member. simpl. rewrite IH by lia.
    reflexivity.
Qed.

(** Defining distinct keys one after the other gives the members in the
    order they were read. *)
Lemma define_fresh fields k v :
  ~ In k (map fst fields) -> define fields k v = fields ++ [(k, v)].
Proof.
  induction fields as [|[k' v'] r IH]; simpl; intros H; [reflexivity|].
  destruct (String.eqb_spec k' k) as [->|Hne]; [exfalso; auto|].
  rewrite IH by tauto. reflexivity.
Qed.

Lemma fold_define members : forall acc seen,
  (forall k, In k (map fst acc) -> In k seen) ->
  distinct_from seen members ->
  fold_left (fun acc kv => define acc (fst kv) (snd kv)) members acc = acc ++ members.
Proof.
  induction members as [|[k v] r IH]; intros acc seen Hsub Hd; simpl.
  - rewrite app_nil_r. reflexivity.
  - destruct Hd as [Hk Hr]. rewrite define_fresh by (intros H; apply Hk, Hsub, H).
    rewrite (IH _ (k :: seen)); [rewrite <- app_assoc; reflexivity| |exact Hr].
    intros k0. rewrite map_app, in_app_iff. simpl. intros [H|[H|[]]]; auto.
Qed.

Lemma object_of_distinct fields :
  distinct_from [] fields -> object_of fields = VObj fields.
Proof.
  intros H. unfold object_of. rewrite (fold_define fields [] []); auto.
Qed.

Lemma join_commas_head c t ws :
  exists t', join_commas ((c :: t) :: ws) = c :: t'.
Proof. destruct ws; eexists; reflexivity. Qed.

Lemma write_elements_cons x l xs :
  write x = Some l -> write_elements (x :: xs) = l :: write_elements xs.
Proof. intros H. unfold write_elements. simpl. rewrite H. reflexivity. Qed.

Lemma reads_back_all v : reads_back v.
Proof.
  induction v as [| |b|n|s|items IH|fields IH] using Value_nested_ind;
    intros Hrep l Hw fuel rest Hfuel Hd.
  - discriminate Hrep.
  - injection Hw as <-. destruct fuel as [|f]; [simpl in Hfuel; lia|]. reflexivity.
  - destruct fuel as [|f]; [lia|]. destruct b; injection Hw as <-; reflexivity.
  - destruct n as [z| | |]; try discriminate Hrep. injection Hw as <-.
    destruct fuel as [|f]; [lia|].
    destruct (int_chars_head z) as (c & r & Hc & Hv & Hnum).
    replace (read_value (S f) (int_chars z ++ rest))
      with (read_number (int_chars z ++ rest)).
    + apply read_number_int. exact Hd.
    + rewrite Hc, <- app_comm_cons. symmetry. apply read_value_number. exact Hnum.
  - injection Hw as <-. destruct fuel as [|f]; [lia|]. apply read_value_string.
  - rewrite write_arr in Hw. injection Hw as <-.
    destruct fuel as [|f]; [lia|].
    destruct items as [|x xs]; [reflexivity|].
    pose proof (representable_arr _ Hrep) as Hall.
    inversion Hall as [|? ? Rx _]; subst.
    destruct (representable_write x Rx) as (lx & Hlx).
    destruct (write_starts x lx Hlx) as (c & t & -> & Hc).
    assert (Hhead : exists t', join_commas (write_elements (x :: xs)) = c :: t').
    { rewrite (write_elements_cons x _ xs Hlx). apply join_commas_head. }
    destruct Hhead as (t' & Ht').
    cbn [length] in Hfuel. rewrite length_app in Hfuel. cbn [length] in Hfuel.
    rewrite <- app_comm_cons, <- app_assoc.
    pose proof (read_elements_written (x :: xs) IH Hall ltac:(discriminate) f rest
                  ltac:(lia)) as Helems.
    rewrite Ht' in Helems |- *. rewrite <- app_comm_cons in Helems |- *.
    change (["]"%char] ++ rest) with ("]"%char :: rest).
    rewrite (read_value_array f c _ Hc), Helems. reflexivity.
  - rewrite write_obj in Hw. injection Hw as <-.
    destruct fuel as [|f]; [lia|].
    destruct fields as [|[k x] xs]; [reflexivity|].
    destruct (representable_obj _ Hrep) as [Hall Hdist].
    inversion Hall as [|? ? Rx _]; subst. simpl in Rx.
    destruct (representable_write x Rx) as (lx & Hlx).
    assert (Hhead : exists t', join_commas (write_members ((k, x) :: xs)) = dq :: t').
    { rewrite (write_members_cons k x lx xs Hlx). unfold quote.
      rewrite <- app_comm_cons. apply join_commas_head. }
    destruct Hhead as (t' & Ht').
    cbn [length] in Hfuel. rewrite length_app in Hfuel. cbn [length] in Hfuel.
    rewrite <- app_comm_cons, <- app_assoc.
    pose proof (read_members_written ((k, x) :: xs) IH Hall ltac:(discriminate) f rest
                  ltac:(lia)) as Hmembers.
    rewrite Ht' in Hmembers |- *. rewrite <- app_comm_cons in Hmembers |- *.
    change (["}"%char] ++ rest) with ("}"%char :: rest).
    rewrite (read_value_object f dq _ eq_refl), Hmembers.
    cbn [bind fst snd]. rewrite (object_of_distinct _ Hdist). reflexivity.
Qed.

Lemma skip_ws_nil : skip_ws [] = [].
Proof. reflexivity. Qed.

(** Parsing undoes stringification on the values JSON represents
    exactly. *)
Theorem parse_stringify_reference (v : Value) :
  representable v = true ->
  exists t, stringify v = Some t /\ parse t = Normal v.
Proof.
  intros Hrep. destruct (representable_write v Hrep) as (l & Hl).
  exists (string_of_list_ascii l). split.
  - unfold stringify. rewrite Hl. reflexivity.
  - unfold parse, chars. rewrite list_ascii_of_string_of_list_ascii.
    pose proof (reads_back_all v Hrep l Hl (2 * length l + 2)%nat []
                  ltac:(lia) (or_introl eq_refl)) as H.
    rewrite app_nil_r in H. rewrite H. reflexivity.
Qed.

End JSONSpec.

(* ===================================================================== *)
(** * Properties of the codec *)
(* ===================================================================== *)

Module ProtocolSpec.
Import JS Protocol.

(** What [isValidMessage] checks, and nothing else: a truthy value of type
    [object] whose [version] is the string [1.0], whose [type], [id] and
    [channel] are truthy and whose [timestamp] is a number. *)
Lemma isValidMessage_truthy (msg : Value) :
  truthy (isValidMessage msg) =
    truthy msg &&
    String.eqb (typeof msg) "object" &&
    isString (member msg "version") "1.0" &&
    truthy (member msg "type") &&
    truthy (member msg "id") &&
    String.eqb (typeof (member msg "timestamp")) "number" &&
    truthy (member msg "channel").
Proof.
  unfold isValidMessage, and_then.
  destruct (truthy msg) eqn:E1; [|rewrite E1; reflexivity].
  destruct (String.eqb (typeof msg) "object"); simpl; [|reflexivity].
  destruct (isString (member msg "version") "1.0"); simpl; [|reflexivity].
  destruct (truthy (member msg "type")) eqn:E2; [|rewrite E2; reflexivity].
  destruct (truthy (member msg "id")) eqn:E3; [|rewrite E3; reflexivity].
  destruct (String.eqb (typeof (member msg "timestamp")) "number"); reflexivity.
Qed.

Section AnyEngine.

Context {E : JSONEngine}.

Lemma parseMessage_of_parsed data msg :
  JSON_parse data = Normal msg ->
  parseMessage data =
    if truthy (isValidMessage msg) then Normal msg
    else Throw (Error "Failed to parse message: Invalid message format: missing required fields or invalid version").
Proof.
  intros H. unfold parseMessage, validateAndNormalize. rewrite H. simpl.
  destruct (truthy (isValidMessage msg)); reflexivity.
Qed.

(** C6, as the code has it.  [parseMessage] fails for text that
    [JSON.parse] refuses and for text whose value violates the envelope
    invariants.  Both failures are a plain [Error] whose message starts
    with [Failed to parse message: ]; what follows is the description of
    the syntax error in the first case and the fixed sentence of the
    validator in the second.  In particular it fails for a value lacking
    one of [version], [type], [id], [timestamp], [channel], for a
    [timestamp] that is not a number, and for a [version] other than
    [1.0]. *)
Theorem parseMessage_failures (data : string) :
  (forall e, JSON_parse data = Throw e ->
     parseMessage data =
       Throw (Error ("Failed to parse message: " ++ describeThrown e))) /\
  (forall msg, JSON_parse data = Normal msg ->
     truthy (isValidMessage msg) = false ->
     parseMessage data =
       Throw (Error "Failed to parse message: Invalid message format: missing required fields or invalid version")) /\
  (forall msg, JSON_parse data = Normal msg ->
     (exists k, In k ["version"; "type"; "id"; "timestamp"; "channel"] /\
                member msg k = VUndefined) \/
     typeof (member msg "timestamp") <> "number" \/
     member msg "version" <> VStr "1.0" ->
     truthy (isValidMessage msg) = false /\
     exists m, parseMessage data = Throw (Error m) /\
               errorClass (Error m) = "Error").
Proof.
  split; [|split].
  - intros e H. unfold parseMessage. rewrite H. reflexivity.
  - intros msg H Hv. rewrite (parseMessage_of_parsed data msg H), Hv. reflexivity.
  - intros msg H Hbad.
    assert (Hv : truthy (isValidMessage msg) = false).
    { rewrite isValidMessage_truthy.
      destruct Hbad as [(k & Hk & Hu)|[Ht|Hver]].
      - simpl in Hk.
        destruct Hk as [<-|[<-|[<-|[<-|[<-|[]]]]]]; rewrite Hu; simpl;
          rewrite ?andb_false_r; reflexivity.
      - destruct (String.eqb_spec (typeof (member msg "timestamp")) "number");
          [contradiction|]. rewrite ?andb_false_r. reflexivity.
      - assert (Hs : isString (member msg "version") "1.0" = false).
        { destruct (member msg "version") as [| | | |s| |]; try reflexivity.
          simpl. destruct (String.eqb_spec s "1.0"); [subst; contradiction|reflexivity]. }
        rewrite Hs, ?andb_false_r. reflexivity. }
    split; [exact Hv|]. eexists. split; [|reflexivity].
    rewrite (parseMessage_of_parsed data msg H), Hv. reflexivity.
Qed.

(** An envelope as a run-time object passes [isValidMessage] exactly when
    it is well formed. *)
Lemma isValidMessage_envelope (m : MessageEnvelope) :
  truthy (isValidMessage (envelopeValue m)) = wellFormed m.
Proof.
  rewrite isValidMessage_truthy. unfold wellFormed, envelopeValue. simpl.
  rewrite ?andb_true_r. reflexivity.
Qed.

Lemma representable_envelope (m : MessageEnvelope) :
  JSON.representable (envelopeValue m) =
  finite (timestamp m) && JSON.representable (payload m).
Proof.
  unfold envelopeValue. destruct m as [v t i ts c p [b|]]; simpl;
    destruct ts; simpl; rewrite ?andb_true_r; reflexivity.
Qed.

(** C2, as the code has it.  For an engine that reads back what it writes,
    and every well-formed envelope whose timestamp is a finite number and
    whose payload JSON represents exactly, [serializeMessage] gives a text
    that [parseMessage] accepts, and the parsed envelope is equal to the
    original in every field. *)
Theorem parse_serialize_roundtrip {F : FaithfulEngine E} (m : MessageEnvelope) :
  wellFormed m = true ->
  finite (timestamp m) = true ->
  JSON.representable (payload m) = true ->
  exists text,
    serializeMessage m = Some text /\
    parseMessage text = Normal (envelopeValue m).
Proof.
  intros Hwf Hts Hp.
  destruct (parse_stringify (envelopeValue m)) as (text & Hs & Hparse).
  { rewrite representable_envelope, Hts, Hp. reflexivity. }
  exists text. split; [exact Hs|].
  rewrite (parseMessage_of_parsed text _ Hparse), isValidMessage_envelope, Hwf.
  reflexivity.
Qed.

End AnyEngine.

#[local] Existing Instance ReferenceEngine.

(** The reference engine reads back what it writes. *)
Lemma reference_faithful : FaithfulEngine ReferenceEngine.
Proof. exact JSONSpec.parse_stringify_reference. Qed.

Lemma parse_serialize_roundtrip_witness :
  wellFormed sampleRequest = true /\
  finite (timestamp sampleRequest) = true /\
  JSON.representable (payload sampleRequest) = true /\
  exists text,
    serializeMessage sampleRequest = Some text /\
    parseMessage text = Normal (envelopeValue sampleRequest).
Proof.
  split; [reflexivity|]. split; [reflexivity|]. split; [reflexivity|].
  exact (parse_serialize_roundtrip (F := reference_faithful) sampleRequest
           eq_refl eq_refl eq_refl).
Defined.

Lemma parseMessage_failures_witness :
  JSON_parse brokenText = Throw (SyntaxError "Unexpected end of JSON input") /\
  parseMessage brokenText =
    Throw (Error "Failed to parse message: Unexpected end of JSON input") /\
  JSON_parse wrongVersionText =
    Normal (VObj [("version", VStr "2.0"); ("type", VStr "ping"); ("id", VStr "x");
                  ("timestamp", VNum (NInt 1)); ("channel", VStr "c")]) /\
  parseMessage wrongVersionText =
    Throw (Error "Failed to parse message: Invalid message format: missing required fields or invalid version").
Proof.
  split; [reflexivity|]. split.
  - exact (proj1 (parseMessage_failures brokenText) _ eq_refl).
  - split; [reflexivity|].
    exact (proj1 (proj2 (parseMessage_failures wrongVersionText)) _ eq_refl eq_refl).
Defined.

(** C6 as the specification states it does not hold: the failure for JSON that is not an
    envelope is not of a kind of its own.  The text of an empty object is
    valid JSON, and [parseMessage] fails on it with an error of the same
    class and the same [Failed to parse message: ] label as on text that
    is not JSON. *)
Lemma validation_failure_is_raised_as_parse_failure :
  JSON_parse brokenText = Throw (SyntaxError "Unexpected end of JSON input") /\
  JSON_parse emptyObjectText = Normal (VObj []) /\
  exists e1 e2,
    parseMessage brokenText = Throw e1 /\
    parseMessage emptyObjectText = Throw e2 /\
    errorClass e1 = errorClass e2 /\
    prefixb "Failed to parse message: " (describeThrown e1) = true /\
    prefixb "Failed to parse message: " (describeThrown e2) = true.
Proof.
  split; [reflexivity|]. split; [reflexivity|].
  do 2 eexists. repeat split.
Qed.

(** C2 as the specification states it does not hold.  A heartbeat whose timestamp is
    [NaN] is well formed (its timestamp is a number), but it is written
    with [null] for timestamp and [parseMessage] refuses the text.  A
    request whose payload holds an array with an [undefined] element is
    read back with [null] in its place. *)
Lemma roundtrip_fails_outside_JSON :
  wellFormed pingAtNaN = true /\
  truthy (isValidMessage (envelopeValue pingAtNaN)) = true /\
  (exists text e,
     serializeMessage pingAtNaN = Some text /\ parseMessage text = Throw e) /\
  wellFormed requestWithHole = true /\
  (exists text msg,
     serializeMessage requestWithHole = Some text /\
     parseMessage text = Normal msg /\
     member msg "payload" = VObj [("args", VArr [VNull])] /\
     member (envelopeValue requestWithHole) "payload" = VObj [("args", VArr [VUndefined])] /\
     msg <> envelopeValue requestWithHole).
Proof.
  split; [reflexivity|]. split; [reflexivity|]. split.
  - do 2 eexists. split; reflexivity.
  - split; [reflexivity|]. do 2 eexists.
    split; [reflexivity|]. split; [vm_compute; reflexivity|].
    split; [reflexivity|]. split; [reflexivity|]. discriminate.
Qed.

(** C10.  [parseMessage] accepts an envelope whose [type] is none of the
    seven message kinds: [isValidMessage] asks for a truthy value of type
    [object] with [version] equal to [1.0], truthy [type], [id] and
    [channel] and a [timestamp] that is a number, and nothing more. *)
Theorem parseMessage_accepts_unlisted_type :
  (exists data msg t,
     parseMessage data = Normal msg /\
     member msg "type" = VStr t /\
     ~ In t messageTypes) /\
  (forall msg,
     truthy (isValidMessage msg) =
       truthy msg &&
       String.eqb (typeof msg) "object" &&
       isString (member msg "version") "1.0" &&
       truthy (member msg "type") &&
       truthy (member msg "id") &&
       String.eqb (typeof (member msg "timestamp")) "number" &&
       truthy (member msg "channel")).
Proof.
  split; [|exact isValidMessage_truthy].
  exists unlistedTypeText. do 2 eexists.
  split; [vm_compute; reflexivity|]. split; [reflexivity|].
  simpl. intros H. repeat (destruct H as [H|H]; [discriminate H|]). exact H.
Qed.

End ProtocolSpec.

(* ===================================================================== *)
(** * Properties of the envelope constructors *)
(* ===================================================================== *)

Module EnvelopeSpec.
Import JS Protocol.

Section AnyEngine.

Context {E : JSONEngine}.

(** X28.  [parseMessage] returns exactly when [JSON.parse] returns a value that
    passes [isValidMessage], and then it returns that value as it is:
    nothing is normalised, no field is dropped or checked further.
    Whatever it throws is a plain [Error] whose message starts with
    [Failed to parse message: ]. *)
Theorem parseMessage_returns_the_parsed_value_or_wraps (data : string) :
  (forall msg, parseMessage data = Normal msg <->
               JSON_parse data = Normal msg /\ truthy (isValidMessage msg) = true) /\
  (forall e, parseMessage data = Throw e ->
             exists m, e = Error ("Failed to parse message: " ++ m)).
Proof.
  unfold parseMessage, validateAndNormalize.
  destruct (JSON_parse data) as [v|e0]; simpl.
  - destruct (truthy (isValidMessage v)) eqn:Hv; simpl; split.
    + intros msg. split.
      * intros H. injection H as <-. auto.
      * intros [H _]. exact H.
    + intros e H. discriminate H.
    + intros msg. split; [discriminate|].
      intros [H Ht]. injection H as <-. congruence.
    + intros e H. injection H as <-. eexists. reflexivity.
  - split.
    + intros msg. split; [discriminate|]. intros [H _]. discriminate H.
    + intros e H. injection H as <-. eexists. reflexivity.
Qed.

Lemma survives {F : FaithfulEngine E} (m : MessageEnvelope) :
  wellFormed m = true ->
  finite (timestamp m) = true ->
  JSON.representable (payload m) = true ->
  exists text,
    serializeMessage m = Some text /\
    parseMessage text = Normal (envelopeValue m).
Proof.
  intros Hwf Hts Hp.
  destruct (parse_stringify (envelopeValue m)) as (text & Hs & Hparse).
  { rewrite ProtocolSpec.representable_envelope, Hts, Hp. reflexivity. }
  exists text. split; [exact Hs|].
  rewrite (ProtocolSpec.parseMessage_of_parsed text _ Hparse),
    ProtocolSpec.isValidMessage_envelope, Hwf.
  reflexivity.
Qed.

(** X29.  With an identifier generator that gives a non-empty string, the
    heartbeat and acknowledgement frames the constructors build always
    survive the wire: they are serialised, and [parseMessage] reads the
    text back as the same envelope.  So does an error frame whose details
    JSON represents exactly, with or without a request id.  The pong does
    not carry the id of its ping: it is the same for every ping. *)
Theorem control_frames_survive_the_wire {F : FaithfulEngine E}
    (uuid : string) (now : Z) (pingId acknowledgedId code message : string)
    (requestId : option string) (details : Value) :
  uuid <> EmptyString ->
  JSON.representable details = true ->
  Forall (fun m => exists text, serializeMessage m = Some text /\
                                parseMessage text = Normal (envelopeValue m))
    [createPing uuid now; createPong pingId uuid now;
     createACK acknowledgedId uuid now;
     createError code message requestId details uuid now] /\
  (forall otherPing, createPong otherPing uuid now = createPong pingId uuid now).
Proof.
  intros Hu Hd. apply String.eqb_neq in Hu. split; [|reflexivity].
  repeat constructor; apply survives; try reflexivity;
    unfold wellFormed; simpl; rewrite ?Hu; try reflexivity.
  - destruct requestId as [r|]; [|rewrite Hu; reflexivity].
    destruct (String.eqb r EmptyString) eqn:Hr; [rewrite Hu|rewrite Hr]; reflexivity.
  - rewrite Hd. reflexivity.
Qed.

(** X30.  [createResponse] takes the id of the response from its caller: for an
    empty request id it builds an envelope that [isValidMessage] refuses,
    so the receiving side cannot parse what was sent; for any other id the
    envelope is valid.  [createRequest] with a non-empty generated id
    always builds a valid envelope, which asks for an acknowledgement
    exactly when told to. *)
Theorem createResponse_is_valid_iff_request_id_not_empty
    (operationResponse operationRequest : Value) (requestId uuid : string)
    (ack : bool) (now : Z) :
  truthy (isValidMessage (envelopeValue (createResponse operationResponse requestId now)))
    = negb (String.eqb requestId EmptyString) /\
  truthy (isValidMessage (envelopeValue (createRequest operationRequest ack uuid now)))
    = negb (String.eqb uuid EmptyString) /\
  requiresACK_of (createRequest operationRequest ack uuid now) = ack /\
  isRequest (createRequest operationRequest ack uuid now) = true /\
  isResponse (createResponse operationResponse requestId now) = true.
Proof.
  rewrite !ProtocolSpec.isValidMessage_envelope. unfold wellFormed. simpl.
  rewrite !andb_true_r. repeat split. destruct ack; reflexivity.
Qed.

End AnyEngine.

Lemma control_frames_survive_the_wire_witness :
  exists text,
    serializeMessage (E := ReferenceEngine) (createPing "u-1" 1700000000000) = Some text /\
    parseMessage (E := ReferenceEngine) text =
      Normal (envelopeValue (createPing "u-1" 1700000000000)).
Proof.
  pose proof (control_frames_survive_the_wire (E := ReferenceEngine)
                (F := ProtocolSpec.reference_faithful)
                "u-1" 1700000000000 "p-1" "r-1" "E" "m" None VNull
                ltac:(discriminate) eq_refl) as [H _].
  exact (Forall_inv H).
Defined.

End EnvelopeSpec.

(* ===================================================================== *)
(** * Properties of the command registry *)
(* ===================================================================== *)

Module CommandsSpec.
Import JS Commands.

Lemma now_log reg level line w : now (log reg level line w) = now w.
Proof. unfold log. destruct (hasLogger reg); reflexivity. Qed.

Lemma calls_log reg level line w : calls (log reg level line w) = calls w.
Proof. unfold log. destruct (hasLogger reg); reflexivity. Qed.

(** An unregistered command gives a [COMMAND_NOT_FOUND] response. *)
Lemma execute_unregistered reg request w :
  getCommand reg (commandId request) = None ->
  exists m,
    fst (execute reg request w) =
      Normal (errorResponse request (mkErrorInfo "COMMAND_NOT_FOUND" m None) (now w)) /\
    calls (snd (execute reg request w)) = calls w.
Proof.
  unfold getCommand, execute. intros ->. eexists. simpl.
  rewrite now_log, calls_log. split; reflexivity.
Qed.

(** A failure of the handler's [execute] -- a rejected promise or a throw
    -- is turned into an [EXECUTION_ERROR] response. *)
Lemma execute_converts_handler_failure reg request descriptor validation w e t :
  getCommand reg (commandId request) = Some descriptor ->
  handler_validate (handler descriptor) (payload request) = Normal validation ->
  valid validation = true ->
  handler_execute (handler descriptor) request (now w) = (Throw e, t) ->
  fst (execute reg request w) =
    Normal (errorResponse request
      (mkErrorInfo "EXECUTION_ERROR"
         ("Command execution failed: " ++ describeThrown e) None) t).
Proof.
  unfold getCommand, execute. intros -> -> Hv He. rewrite Hv.
  unfold called, at_time. simpl. rewrite !now_log. simpl. rewrite He. simpl.
  rewrite ?now_log. reflexivity.
Qed.

(** The promise of [execute] is rejected exactly when the command is
    registered and its handler's [validate] throws: the call of [validate]
    is outside the [try] block. *)
Lemma execute_rejects_iff_validate_throws reg request w e :
  fst (execute reg request w) = Throw e <->
  exists descriptor,
    getCommand reg (commandId request) = Some descriptor /\
    handler_validate (handler descriptor) (payload request) = Throw e.
Proof.
  unfold getCommand, execute.
  destruct (mapGet (commands reg) (commandId request)) as [d|].
  - destruct (handler_validate (handler d) (payload request)) as [v|e'] eqn:Ev.
    + split.
      * destruct (valid v); simpl.
        -- destruct (handler_execute _ _ _) as [[r|e'] t]; simpl; discriminate.
        -- discriminate.
      * intros (d' & Hd & Hv). injection Hd as <-. congruence.
    + simpl. split.
      * intros H. injection H as ->. exists d. auto.
      * intros (d' & Hd & Hv). injection Hd as <-. congruence.
  - simpl. split; [discriminate|]. intros (d' & Hd & _). discriminate.
Qed.

(** C7.  When the command is registered and its handler's [validate]
    rejects the payload, [execute] answers with status [error], code
    [VALIDATION_ERROR] and the validator's error list under
    [details.errors]; the only call it makes to the handler is the one of
    [validate]: the handler's [execute] is not called. *)
Theorem invalid_payload_is_reported_not_executed
    (reg : CommandRegistry) (request : OperationRequest)
    (descriptor : CommandDescriptor) (validation : CommandValidation) (w : World) :
  getCommand reg (commandId request) = Some descriptor ->
  handler_validate (handler descriptor) (payload request) = Normal validation ->
  valid validation = false ->
  fst (execute reg request w) =
    Normal (mkOperationResponse (req_id request) "error" None
      (Some (mkErrorInfo "VALIDATION_ERROR" "Payload validation failed"
         (Some (VObj [("errors", errorsValue (errors validation))]))))
      None (now w)) /\
  calls (snd (execute reg request w)) =
    (calls w ++ [CallValidate (d_id descriptor) (payload request)])%list /\
  (forall c r,
     ~ In (CallExecute c r)
          (drop (length (calls w)) (calls (snd (execute reg request w))))).
Proof.
  unfold getCommand, execute. intros -> -> Hv. rewrite Hv.
  unfold called. simpl. rewrite now_log, calls_log. simpl.
  split; [reflexivity|]. split; [reflexivity|].
  intros c r. rewrite drop_app_length. simpl. intros [H|[]]. discriminate.
Qed.

Lemma invalid_payload_is_reported_not_executed_witness :
  getCommand sampleRegistry (commandId (requestWith payloadWithoutTarget)) =
    Some fileCreate /\
  handler_validate (handler fileCreate) (payload (requestWith payloadWithoutTarget)) =
    Normal (mkCommandValidation false (Some ["Target path is required"])) /\
  fst (execute sampleRegistry (requestWith payloadWithoutTarget) sampleWorld) =
    Normal (mkOperationResponse "req-1" "error" None
      (Some (mkErrorInfo "VALIDATION_ERROR" "Payload validation failed"
         (Some (VObj [("errors", VArr [VStr "Target path is required"])]))))
      None 1700000000000).
Proof.
  split; [reflexivity|]. split; [reflexivity|].
  exact (proj1 (invalid_payload_is_reported_not_executed sampleRegistry
                  (requestWith payloadWithoutTarget) fileCreate
                  (mkCommandValidation false (Some ["Target path is required"]))
                  sampleWorld eq_refl eq_refl eq_refl)).
Defined.

(** C1 (the code departs from the specification).  With the file-operations
    handler registered under [file.create], a request whose payload has a
    [targetPath] that is not a string makes the handler's [validate] throw
    a [TypeError] (the path validator calls [includes] on it), and the
    promise of [execute] is rejected with that error instead of being
    fulfilled with a response of status [error].  The same happens for a
    payload that is [null]. *)
Theorem execute_rejects_when_validate_throws :
  FileOpsHandler_validate payloadWithNumericTarget =
    Throw (TypeError "path?.includes is not a function") /\
  fst (execute sampleRegistry (requestWith payloadWithNumericTarget) sampleWorld) =
    Throw (TypeError "path?.includes is not a function") /\
  fst (execute sampleRegistry (requestWith VNull) sampleWorld) =
    Throw (TypeError "Cannot read properties of null (reading 'type')").
Proof. repeat split. Qed.

End CommandsSpec.

(* ===================================================================== *)
(** * Properties of the validators and the handlers *)
(* ===================================================================== *)

Module HandlersSpec.
Import JS Commands Handlers.

(** ** The result of every validator *)

Lemma valid_validationOf errs :
  valid (validationOf errs) = match errs with [] => true | _ => false end.
Proof. destruct errs; reflexivity. Qed.

Lemma errors_validationOf errs :
  errors (validationOf errs) = match errs with [] => None | _ => Some errs end.
Proof. destruct errs; reflexivity. Qed.

Lemma pushErrorsOf_validationOf e errs :
  pushErrorsOf (validationOf e) errs = (errs ++ e)%list.
Proof.
  unfold pushErrorsOf. rewrite valid_validationOf, errors_validationOf.
  destruct e; simpl; [rewrite app_nil_r|]; reflexivity.
Qed.

Lemma pushIf_app b e errs :
  pushIf b e errs = (errs ++ if b then [e] else [])%list.
Proof. destruct b; simpl; [|rewrite app_nil_r]; reflexivity. Qed.

(** ** The path validator *)

Lemma validateFilePath_string s :
  validateFilePath (VStr s) = Normal (validationOf (pathErrors s)).
Proof.
  unfold validateFilePath, pathErrors. simpl.
  destruct (String.eqb_spec s EmptyString) as [->|Hne]; reflexivity.
Qed.

Lemma pathErrors_nil s :
  match pathErrors s with [] => true | _ => false end = goodPath s.
Proof.
  unfold pathErrors, goodPath.
  destruct (String.eqb s EmptyString), (includesb s ".."), (prefixb "/" s),
    (includesb s NUL); reflexivity.
Qed.

Lemma validateFilePath_truthyNonString v :
  truthyNonString v = true -> exists m, validateFilePath v = Throw (TypeError m).
Proof.
  unfold truthyNonString.
  destruct v as [| |b|n|s|items|fields]; simpl; intros H;
    rewrite ?andb_false_r in H; try discriminate H;
    eexists; unfold validateFilePath; simpl; reflexivity.
Qed.

(** X1.  What [validateFilePath] does with any value.  A string is examined and
    is valid exactly when it is not empty, has no [..], does not start
    with a slash and has no NUL character; [null] and [undefined] are
    refused as empty; every other value (a number, a boolean, an array, an
    object) makes it throw a [TypeError], whether truthy or not. *)
Theorem validateFilePath_on_every_value (path : Value) :
  match path with
  | VStr s =>
      exists v, validateFilePath path = Normal v /\
                valid v = goodPath s /\
                (valid v = true <-> errors v = None)
  | VUndefined | VNull =>
      validateFilePath path =
        Normal (mkCommandValidation false (Some ["Path cannot be empty"]))
  | _ => exists m, validateFilePath path = Throw (TypeError m)
  end.
Proof.
  destruct path as [| |b|n|s|items|fields]; try reflexivity;
    try (eexists; reflexivity).
  exists (validationOf (pathErrors s)). split; [apply validateFilePath_string|].
  rewrite valid_validationOf, errors_validationOf, <- pathErrors_nil.
  destruct (pathErrors s); split; try reflexivity; split; discriminate || reflexivity.
Qed.

(** ** The step for a required path *)

Lemma noErrors_app a b : noErrors (a ++ b) = noErrors a && noErrors b.
Proof. destruct a; reflexivity. Qed.

Lemma noErrors_pushIf b e errs : noErrors (pushIf b e errs) = noErrors errs && negb b.
Proof. rewrite pushIf_app, noErrors_app. destruct b; reflexivity. Qed.

Lemma valid_noErrors errs : valid (validationOf errs) = noErrors errs.
Proof. apply valid_validationOf. Qed.

Lemma noErrors_requiredPathErrors required v :
  noErrors (requiredPathErrors required v) = pathOk v.
Proof.
  destruct v as [| |b|n|s|items|fields]; try reflexivity. simpl.
  unfold goodPath. destruct (String.eqb_spec s EmptyString) as [->|Hne];
    [reflexivity|].
  unfold noErrors. rewrite pathErrors_nil. unfold goodPath.
  destruct (String.eqb_spec s EmptyString); [contradiction|reflexivity].
Qed.

Lemma requiredPathStep_returns required v errs :
  truthyNonString v = false ->
  requiredPathStep required v errs =
  Normal (errs ++ requiredPathErrors required v)%list.
Proof.
  unfold requiredPathStep, truthyNonString.
  destruct v as [| |b|n|s|items|fields]; simpl; intros H;
    try discriminate H; try reflexivity.
  - destruct b; [discriminate H|reflexivity].
  - destruct n as [z| | |]; simpl in *; try discriminate H.
    + destruct (z =? 0); [reflexivity|discriminate H].
    + reflexivity.
  - destruct (String.eqb_spec s EmptyString) as [->|Hne]; simpl; [reflexivity|].
    change (bind (validateFilePath (VStr s)) _)
      with (bind (validateFilePath (VStr s))
              (fun pathValidation => Normal (pushErrorsOf pathValidation errs))).
    rewrite validateFilePath_string. simpl. rewrite pushErrorsOf_validationOf.
    reflexivity.
Qed.

Lemma requiredPathStep_throws required v errs :
  truthyNonString v = true ->
  exists m, requiredPathStep required v errs = Throw (TypeError m).
Proof.
  intros H. destruct (validateFilePath_truthyNonString v H) as (m & Hm).
  exists m. unfold requiredPathStep. unfold truthyNonString in H.
  apply andb_true_iff in H. destruct H as [Ht _]. rewrite Ht. simpl.
  rewrite Hm. reflexivity.
Qed.

(** ** The file-operations handler *)

Lemma getMember_defined payload k :
  nullish payload = false -> getMember payload k = Normal (member payload k).
Proof. destruct payload; intros H; try discriminate H; reflexivity. Qed.

Lemma noErrors_typeErrors required invalid names type :
  noErrors (typeErrors required invalid names type) = truthy type && oneOf names type.
Proof.
  unfold typeErrors. destruct (truthy type), (oneOf names type); reflexivity.
Qed.

Lemma oneOf_truthy names type :
  ~ In EmptyString names -> oneOf names type = true -> truthy type = true.
Proof.
  intros Hne H. unfold oneOf in H. apply existsb_exists in H.
  destruct H as (n & Hin & Hs). destruct type; try discriminate Hs.
  simpl in Hs. apply String.eqb_eq in Hs. subst. simpl.
  destruct (String.eqb_spec n EmptyString) as [->|]; [contradiction|reflexivity].
Qed.

Lemma oneOf_absorbs_truthy names type :
  ~ In EmptyString names -> truthy type && oneOf names type = oneOf names type.
Proof.
  intros Hne. destruct (oneOf names type) eqn:Ho; [|apply andb_false_r].
  rewrite (oneOf_truthy names type Hne Ho). reflexivity.
Qed.

Lemma FileOpsHandler_validate_steps payload :
  nullish payload = false ->
  FileOpsHandler_validate payload =
  let type := member payload "type" in
  bind (requiredPathStep "Target path is required" (member payload "targetPath")
          (typeErrors "Operation type is required" "Invalid operation type: "
             ["create"; "delete"; "modify"; "copy"; "move"; "rename"] type))
    (fun errs =>
  bind (if oneOf ["copy"; "move"; "rename"] type
        then requiredPathStep
               ("Source path is required for " ++ toStr type ++ " operation")
               (member payload "sourcePath") errs
        else Normal errs)
    (fun errs =>
  Normal (validationOf
    (if oneOf ["create"; "modify"] type
     then pushIf (negb (String.eqb (typeof (member payload "content")) "string"))
            "Content must be a string" errs
     else errs)))).
Proof.
  intros H. unfold FileOpsHandler_validate. rewrite (getMember_defined _ _ H).
  reflexivity.
Qed.

Lemma FileOpsHandler_validate_returns payload :
  nullish payload = false ->
  truthyNonString (member payload "targetPath") = false ->
  (oneOf ["copy"; "move"; "rename"] (member payload "type") = true ->
   truthyNonString (member payload "sourcePath") = false) ->
  exists errs, FileOpsHandler_validate payload = Normal (validationOf errs) /\
               noErrors errs = fileOpsAccepts payload.
Proof.
  intros Hnull Ht Hs.
  rewrite (FileOpsHandler_validate_steps payload Hnull). cbv zeta.
  unfold fileOpsAccepts. cbv zeta.
  set (type := member payload "type") in *.
  set (withContent := oneOf ["create"; "modify"] type) in *.
  rewrite (requiredPathStep_returns _ _ _ Ht). cbn [bind].
  assert (Htype : noErrors (typeErrors "Operation type is required"
                    "Invalid operation type: "
                    ["create"; "delete"; "modify"; "copy"; "move"; "rename"] type) =
                  oneOf ["create"; "delete"; "modify"; "copy"; "move"; "rename"] type).
  { rewrite noErrors_typeErrors. apply oneOf_absorbs_truthy.
    simpl; intuition discriminate. }
  destruct (oneOf ["copy"; "move"; "rename"] type) eqn:Hc.
  - rewrite (requiredPathStep_returns _ _ _ (Hs eq_refl)). cbn [bind].
    eexists. split; [reflexivity|].
    destruct withContent;
      rewrite ?noErrors_pushIf, !noErrors_app, !noErrors_requiredPathErrors, Htype,
        ?negb_involutive, ?andb_true_r; reflexivity.
  - cbn [bind]. eexists. split; [reflexivity|].
    destruct withContent;
      rewrite ?noErrors_pushIf, !noErrors_app, !noErrors_requiredPathErrors, Htype,
        ?negb_involutive, ?andb_true_r; reflexivity.
Qed.

(** X2.  [FileOpsHandler.validate] throws exactly when the payload is [null] or
    [undefined], or its [targetPath] is a truthy value that is not a
    string, or the operation is a copy, a move or a rename and its
    [sourcePath] is a truthy value that is not a string. *)
Theorem FileOpsHandler_validate_throws_exactly (payload : Value) :
  (exists e, FileOpsHandler_validate payload = Throw e) <->
  nullish payload = true \/
  truthyNonString (member payload "targetPath") = true \/
  (oneOf ["copy"; "move"; "rename"] (member payload "type") = true /\
   truthyNonString (member payload "sourcePath") = true).
Proof.
  destruct (nullish payload) eqn:Hnull.
  { split; [auto|]. intros _.
    destruct payload; try discriminate Hnull; eexists; reflexivity. }
  rewrite (FileOpsHandler_validate_steps payload Hnull). cbv zeta.
  set (errs0 := typeErrors _ _ _ _).
  destruct (truthyNonString (member payload "targetPath")) eqn:Ht.
  { destruct (requiredPathStep_throws "Target path is required" _ errs0 Ht) as (m & ->).
    split; [auto|]. intros _. eexists. reflexivity. }
  rewrite (requiredPathStep_returns _ _ _ Ht). cbn [bind].
  destruct (oneOf ["copy"; "move"; "rename"] (member payload "type")) eqn:Hc.
  - destruct (truthyNonString (member payload "sourcePath")) eqn:Hs.
    + match goal with
      | |- context [requiredPathStep ?r ?v ?e] =>
          destruct (requiredPathStep_throws r v e Hs) as (m & ->)
      end.
      split; [auto|]. intros _. eexists. reflexivity.
    + rewrite (requiredPathStep_returns _ _ _ Hs). cbn [bind].
      split; [intros (e & He); discriminate He|].
      intros [H|[H|[_ H]]]; discriminate H.
  - cbn [bind]. split; [intros (e & He); discriminate He|].
    intros [H|[H|[H _]]]; discriminate H.
Qed.

(** X3.  When [FileOpsHandler.validate] returns, the payload is valid exactly
    when its [type] is one of the six operations, its [targetPath] is a
    string the path validator accepts, its [sourcePath] is such a string
    too if the operation is a copy, a move or a rename, and its [content]
    is a string if the operation is a create or a modify. *)
Theorem FileOpsHandler_validate_accepts_exactly
    (payload : Value) (v : CommandValidation) :
  FileOpsHandler_validate payload = Normal v ->
  valid v =
    oneOf ["create"; "delete"; "modify"; "copy"; "move"; "rename"]
      (member payload "type") &&
    pathOk (member payload "targetPath") &&
    (if oneOf ["copy"; "move"; "rename"] (member payload "type")
     then pathOk (member payload "sourcePath") else true) &&
    (if oneOf ["create"; "modify"] (member payload "type")
     then String.eqb (typeof (member payload "content")) "string" else true).
Proof.
  intros Hv.
  destruct (nullish payload) eqn:Hnull.
  { destruct payload; try discriminate Hnull; discriminate Hv. }
  rewrite (FileOpsHandler_validate_steps payload Hnull) in Hv. cbv zeta in Hv.
  set (type := member payload "type") in *.
  set (withContent := oneOf ["create"; "modify"] type) in *.
  destruct (truthyNonString (member payload "targetPath")) eqn:Ht.
  { match type of Hv with
    | context [requiredPathStep ?r ?x ?e] =>
        destruct (requiredPathStep_throws r x e Ht) as (m & Hm); rewrite Hm in Hv
    end. discriminate Hv. }
  rewrite (requiredPathStep_returns _ _ _ Ht) in Hv. cbn [bind] in Hv.
  assert (Htype : noErrors (typeErrors "Operation type is required"
                    "Invalid operation type: "
                    ["create"; "delete"; "modify"; "copy"; "move"; "rename"] type) =
                  oneOf ["create"; "delete"; "modify"; "copy"; "move"; "rename"] type).
  { rewrite noErrors_typeErrors. apply oneOf_absorbs_truthy.
    simpl; intuition discriminate. }
  destruct (oneOf ["copy"; "move"; "rename"] type) eqn:Hc.
  - destruct (truthyNonString (member payload "sourcePath")) eqn:Hs.
    { match type of Hv with
      | context [requiredPathStep ?r ?x ?e] =>
          destruct (requiredPathStep_throws r x e Hs) as (m & Hm); rewrite Hm in Hv
      end. discriminate Hv. }
    rewrite (requiredPathStep_returns _ _ _ Hs) in Hv. cbn [bind] in Hv.
    injection Hv as <-. rewrite valid_noErrors.
    destruct withContent;
      rewrite ?noErrors_pushIf, !noErrors_app, !noErrors_requiredPathErrors, Htype,
        ?negb_involutive, ?andb_true_r; reflexivity.
  - cbn [bind] in Hv. injection Hv as <-. rewrite valid_noErrors.
    destruct withContent;
      rewrite ?noErrors_pushIf, !noErrors_app, !noErrors_requiredPathErrors, Htype,
        ?negb_involutive, ?andb_true_r; reflexivity.
Qed.

Lemma FileOpsHandler_validate_accepts_exactly_witness :
  FileOpsHandler_validate payloadCreate = Normal (mkCommandValidation true None) /\
  valid (mkCommandValidation true None) = true.
Proof.
  split; [reflexivity|].
  exact (FileOpsHandler_validate_accepts_exactly payloadCreate
           (mkCommandValidation true None) eq_refl).
Defined.

(** ** The debug handler *)

Lemma getMember_nullish payload k :
  nullish payload = true -> exists m, getMember payload k = Throw (TypeError m).
Proof. destruct payload; intros H; try discriminate H; eexists; reflexivity. Qed.

Lemma DebugHandler_validate_steps payload :
  nullish payload = false ->
  DebugHandler_validate payload =
  let type := member payload "type" in
  bind (requiredPathStep "File path is required" (member payload "filePath")
          (typeErrors "Debug operation type is required" "Invalid debug operation type: "
             ["setBreakpoint"; "clearBreakpoint"; "addWatch"; "enableLogging"] type))
    (fun errs =>
  Normal (validationOf
    (let errs :=
       if oneOf ["setBreakpoint"; "clearBreakpoint"] type
       then pushIf (notALineNumber (member payload "lineNumber"))
              "Valid line number is required" errs
       else errs in
     let errs :=
       if isString type "addWatch"
       then pushIf (negb (truthy (member payload "expression"))
                    || negb (String.eqb (typeof (member payload "expression")) "string"))
              "Watch expression is required" errs
       else errs in
     if isString type "enableLogging"
     then pushIf (truthy (member payload "logLevel")
                  && negb (oneOf ["debug"; "info"; "warn"; "error"]
                             (member payload "logLevel")))
            "Invalid log level" errs
     else errs))).
Proof.
  intros H. unfold DebugHandler_validate. rewrite (getMember_defined _ _ H).
  reflexivity.
Qed.

Lemma validationOf_sound errs :
  valid (validationOf errs) = true <-> errors (validationOf errs) = None.
Proof. destruct errs; simpl; split; intros H; try discriminate H; reflexivity. Qed.

Lemma DebugHandler_validate_returns payload :
  nullish payload = false ->
  truthyNonString (member payload "filePath") = false ->
  exists errs, DebugHandler_validate payload = Normal (validationOf errs) /\
               noErrors errs = debugAccepts payload.
Proof.
  intros Hnull Hp. rewrite (DebugHandler_validate_steps payload Hnull). cbv zeta.
  rewrite (requiredPathStep_returns _ _ _ Hp). cbn [bind].
  eexists. split; [reflexivity|]. unfold debugAccepts. cbv zeta.
  set (type := member payload "type").
  set (line := oneOf ["setBreakpoint"; "clearBreakpoint"] type).
  set (watch := isString type "addWatch").
  set (logging := isString type "enableLogging").
  assert (Htype : noErrors (typeErrors "Debug operation type is required"
                    "Invalid debug operation type: "
                    ["setBreakpoint"; "clearBreakpoint"; "addWatch"; "enableLogging"]
                    type) =
                  oneOf ["setBreakpoint"; "clearBreakpoint"; "addWatch"; "enableLogging"]
                    type).
  { rewrite noErrors_typeErrors. apply oneOf_absorbs_truthy.
    simpl; intuition discriminate. }
  unfold nonEmptyString.
  destruct line, watch, logging;
    rewrite ?noErrors_pushIf, !noErrors_app, !noErrors_requiredPathErrors, Htype,
      ?negb_orb, ?negb_andb, ?negb_involutive, ?andb_true_r; reflexivity.
Qed.

(** X4.  What [DebugHandler.validate] does with any payload.  It throws a
    [TypeError] when the payload is [null] or [undefined] or its
    [filePath] is a truthy value that is not a string.  Otherwise it
    returns, and the payload is valid exactly when its [type] is one of
    the four debug operations, its [filePath] is a string the path
    validator accepts, and the field of the operation is right: a
    [lineNumber] that is a number not below 1 for the breakpoint
    operations, a non-empty string [expression] for a watch, a falsy or
    listed [logLevel] for logging.  A valid result carries no errors. *)
Theorem DebugHandler_validate_outcome (payload : Value) :
  if nullish payload || truthyNonString (member payload "filePath")
  then exists m, DebugHandler_validate payload = Throw (TypeError m)
  else exists v, DebugHandler_validate payload = Normal v /\
                 valid v = debugAccepts payload /\
                 (valid v = true <-> errors v = None).
Proof.
  destruct (nullish payload) eqn:Hnull; cbn [orb].
  { unfold DebugHandler_validate.
    destruct (getMember_nullish payload "type" Hnull) as (m & ->).
    exists m. reflexivity. }
  destruct (truthyNonString (member payload "filePath")) eqn:Hp.
  - rewrite (DebugHandler_validate_steps payload Hnull). cbv zeta.
    match goal with
    | |- context [requiredPathStep ?r ?x ?e] =>
        destruct (requiredPathStep_throws r x e Hp) as (m & ->)
    end.
    exists m. reflexivity.
  - destruct (DebugHandler_validate_returns payload Hnull Hp) as (errs & -> & He).
    eexists. split; [reflexivity|]. split; [|apply validationOf_sound].
    rewrite valid_noErrors. exact He.
Qed.

(** X5.  [DebugHandler.validate] accepts a breakpoint whose line number is
    [NaN] or [Infinity]: both are numbers, and neither is below 1. *)
Theorem DebugHandler_validate_accepts_NaN_line (payload : Value) (n : Number) :
  oneOf ["setBreakpoint"; "clearBreakpoint"] (member payload "type") = true ->
  pathOk (member payload "filePath") = true ->
  member payload "lineNumber" = VNum n ->
  n = NaN \/ n = PosInfinity ->
  DebugHandler_validate payload = Normal (mkCommandValidation true None).
Proof.
  intros Htype Hpath Hline Hn.
  assert (Hnull : nullish payload = false).
  { destruct payload; try reflexivity; discriminate Htype. }
  assert (Hp : truthyNonString (member payload "filePath") = false).
  { destruct (member payload "filePath"); try discriminate Hpath.
    unfold truthyNonString. apply andb_false_r. }
  destruct (DebugHandler_validate_returns payload Hnull Hp) as (errs & -> & He).
  assert (Hacc : debugAccepts payload = true).
  { unfold debugAccepts. cbv zeta. rewrite Hpath, Htype, Hline.
    destruct (member payload "type") as [| |b|k|t|items|fields];
      try discriminate Htype.
    simpl in Htype. simpl.
    assert (Hnum : negb match n with
                        | NInt z => z <? 1
                        | NegInfinity => true
                        | _ => false
                        end = true).
    { destruct Hn as [Hn|Hn]; rewrite Hn; reflexivity. }
    rewrite Hnum.
    destruct (String.eqb_spec t "setBreakpoint") as [Ht|Ht];
      [rewrite Ht; reflexivity|].
    destruct (String.eqb_spec t "clearBreakpoint") as [Hc|Hc];
      [rewrite Hc; reflexivity|discriminate Htype]. }
  rewrite Hacc in He. destruct errs; [reflexivity|discriminate He].
Qed.

Lemma DebugHandler_validate_accepts_NaN_line_witness :
  DebugHandler_validate breakpointAtNaN = Normal (mkCommandValidation true None).
Proof.
  exact (DebugHandler_validate_accepts_NaN_line breakpointAtNaN NaN
           eq_refl eq_refl eq_refl (or_introl eq_refl)).
Defined.

(** ** The tools handler *)

Lemma optionalPathStep v errs :
  exists errs',
    (if truthy v && String.eqb (typeof v) "string"
     then bind (validateFilePath v) (fun pathValidation =>
          Normal (pushErrorsOf pathValidation errs))
     else Normal errs) = Normal errs' /\
    noErrors errs' = noErrors errs && optionalPathOk v.
Proof.
  destruct v as [| |b|n|s|items|fields]; simpl;
    rewrite ?andb_false_r;
    try (exists errs; split; [reflexivity|rewrite andb_true_r; reflexivity]).
  destruct (String.eqb_spec s EmptyString) as [->|Hne]; simpl.
  { exists errs. split; [reflexivity|rewrite andb_true_r; reflexivity]. }
  change (bind (validateFilePath (VStr s)) _)
    with (bind (validateFilePath (VStr s))
            (fun pathValidation => Normal (pushErrorsOf pathValidation errs))).
  rewrite validateFilePath_string. simpl. rewrite pushErrorsOf_validationOf.
  eexists. split; [reflexivity|]. rewrite noErrors_app. f_equal.
  unfold noErrors. apply pathErrors_nil.
Qed.

Lemma ToolsHandler_validate_returns payload :
  nullish payload = false ->
  exists errs, ToolsHandler_validate payload = Normal (validationOf errs) /\
               noErrors errs = toolsAccepts payload.
Proof.
  intros Hnull.
  unfold ToolsHandler_validate. rewrite (getMember_defined _ _ Hnull).
  cbn [bind]. cbv zeta.
  set (type := member payload "type").
  change (if negb (truthy type) then ["Tool operation type is required"]
          else if negb (oneOf ["format"; "lint"; "test"; "generate"] type)
               then [("Invalid tool operation type: " ++ toStr type)%string]
               else [])
    with (typeErrors "Tool operation type is required" "Invalid tool operation type: "
            ["format"; "lint"; "test"; "generate"] type).
  set (errs0 := typeErrors _ _ _ _).
  assert (Htype : noErrors errs0 = oneOf ["format"; "lint"; "test"; "generate"] type).
  { unfold errs0. rewrite noErrors_typeErrors. apply oneOf_absorbs_truthy.
    simpl; intuition discriminate. }
  set (gen := isString type "generate").
  destruct (optionalPathStep (member payload "filePath") errs0) as (errs & Hstep & Herrs).
  rewrite Hstep. cbn [bind].
  eexists. split; [reflexivity|].
  unfold toolsAccepts. cbv zeta. fold type. fold gen.
  unfold nonEmptyString.
  destruct gen; rewrite ?noErrors_pushIf, Herrs, Htype, ?negb_orb, ?negb_involutive,
    ?andb_true_r; reflexivity.
Qed.

(** X6.  [ToolsHandler.validate] throws only on a payload that is [null] or
    [undefined]: a [filePath] that is not a string is passed over, not
    given to the path validator.  On any other payload it returns, and the
    payload is valid exactly when its [type] is one of the four tool
    operations, its [filePath], if a non-empty string, is a path the
    validator accepts, and a [generate] operation has a non-empty string
    [tool]. *)
Theorem ToolsHandler_validate_outcome (payload : Value) :
  if nullish payload
  then exists m, ToolsHandler_validate payload = Throw (TypeError m)
  else exists v, ToolsHandler_validate payload = Normal v /\
                 valid v = toolsAccepts payload /\
                 (valid v = true <-> errors v = None).
Proof.
  destruct (nullish payload) eqn:Hnull.
  { unfold ToolsHandler_validate.
    destruct (getMember_nullish payload "type" Hnull) as (m & ->).
    exists m. reflexivity. }
  destruct (ToolsHandler_validate_returns payload Hnull) as (errs & -> & He).
  eexists. split; [reflexivity|]. split; [|apply validationOf_sound].
  rewrite valid_noErrors. exact He.
Qed.

(** ** The execution handler *)

Lemma ExecHandler_validate_steps payload :
  nullish payload = false ->
  ExecHandler_validate payload =
  bind (requiredPathStep "File path is required" (member payload "filePath") [])
    (fun errs =>
  bind (if truthy (member payload "filePath")
        then match member payload "filePath" with
             | VStr s =>
                 let ext := extensionOf s in
                 Normal (pushIf (negb (existsb (String.eqb ext) supportedExtensions))
                           ("Unsupported file type: ." ++ ext) errs)
             | _ => Throw (TypeError "filePath.split is not a function")
             end
        else Normal errs) (fun errs =>
  Normal (validationOf errs))).
Proof.
  intros H. unfold ExecHandler_validate. rewrite (getMember_defined _ _ H).
  reflexivity.
Qed.

Lemma falsy_or_string v :
  truthyNonString v = false ->
  truthy v = false \/ exists s, v = VStr s /\ s <> EmptyString.
Proof.
  unfold truthyNonString. destruct (truthy v) eqn:Ht; [|auto].
  destruct v as [| |b|n|s|items|fields]; simpl; intros H; try discriminate H.
  right. exists s. split; [reflexivity|]. intros ->. discriminate Ht.
Qed.

Lemma ExecHandler_validate_returns payload :
  nullish payload = false ->
  truthyNonString (member payload "filePath") = false ->
  exists errs, ExecHandler_validate payload = Normal (validationOf errs) /\
               noErrors errs = execAccepts payload.
Proof.
  intros Hnull Hp. rewrite (ExecHandler_validate_steps payload Hnull).
  rewrite (requiredPathStep_returns _ _ _ Hp). cbn [bind app].
  unfold execAccepts.
  destruct (falsy_or_string _ Hp) as [Hf|(s & Hs & Hne)].
  - rewrite Hf. cbn [bind]. eexists. split; [reflexivity|].
    rewrite noErrors_requiredPathErrors.
    destruct (member payload "filePath") as [| |b|n|s|items|fields];
      try reflexivity.
    simpl in Hf. unfold pathOk, goodPath. rewrite negb_false_iff in Hf.
    rewrite Hf. reflexivity.
  - rewrite Hs. cbn [truthy]. apply String.eqb_neq in Hne. rewrite Hne. cbn [negb bind].
    eexists. split; [reflexivity|].
    rewrite noErrors_pushIf, negb_involutive, noErrors_requiredPathErrors.
    reflexivity.
Qed.

(** X7.  What [ExecHandler.validate] does with any payload.  It throws a
    [TypeError] when the payload is [null] or [undefined] or its
    [filePath] is a truthy value that is not a string.  Otherwise it
    returns, and the payload is valid exactly when its [filePath] is a
    string the path validator accepts and what follows its last dot, in
    lower case, is one of the six supported extensions. *)
Theorem ExecHandler_validate_outcome (payload : Value) :
  if nullish payload || truthyNonString (member payload "filePath")
  then exists m, ExecHandler_validate payload = Throw (TypeError m)
  else exists v, ExecHandler_validate payload = Normal v /\
                 valid v = execAccepts payload /\
                 (valid v = true <-> errors v = None).
Proof.
  destruct (nullish payload) eqn:Hnull; cbn [orb].
  { unfold ExecHandler_validate.
    destruct (getMember_nullish payload "filePath" Hnull) as (m & ->).
    exists m. reflexivity. }
  destruct (truthyNonString (member payload "filePath")) eqn:Hp.
  - rewrite (ExecHandler_validate_steps payload Hnull).
    destruct (requiredPathStep_throws "File path is required" _ [] Hp) as (m & ->).
    exists m. reflexivity.
  - destruct (ExecHandler_validate_returns payload Hnull Hp) as (errs & -> & He).
    eexists. split; [reflexivity|]. split; [|apply validationOf_sound].
    rewrite valid_noErrors. exact He.
Qed.

(** ** How the four validators and placeholders settle *)

Lemma FileOpsHandler_validate_settles payload :
  match FileOpsHandler_validate payload with
  | Throw e => exists m, e = TypeError m
  | Normal _ => nullish payload = false
  end.
Proof.
  destruct (nullish payload) eqn:Hnull.
  { unfold FileOpsHandler_validate.
    destruct (getMember_nullish payload "type" Hnull) as (m & ->).
    exists m. reflexivity. }
  rewrite (FileOpsHandler_validate_steps payload Hnull). cbv zeta.
  destruct (truthyNonString (member payload "targetPath")) eqn:Ht.
  { match goal with
    | |- context [requiredPathStep ?r ?x ?e] =>
        destruct (requiredPathStep_throws r x e Ht) as (m & ->)
    end. exists m. reflexivity. }
  rewrite (requiredPathStep_returns _ _ _ Ht). cbn [bind].
  destruct (oneOf ["copy"; "move"; "rename"] (member payload "type")); [|reflexivity].
  destruct (truthyNonString (member payload "sourcePath")) eqn:Hs.
  - match goal with
    | |- context [requiredPathStep ?r ?x ?e] =>
        destruct (requiredPathStep_throws r x e Hs) as (m & ->)
    end. exists m. reflexivity.
  - rewrite (requiredPathStep_returns _ _ _ Hs). reflexivity.
Qed.

Lemma DebugHandler_validate_settles payload :
  match DebugHandler_validate payload with
  | Throw e => exists m, e = TypeError m
  | Normal _ => nullish payload = false
  end.
Proof.
  destruct (nullish payload) eqn:Hnull.
  { unfold DebugHandler_validate.
    destruct (getMember_nullish payload "type" Hnull) as (m & ->).
    exists m. reflexivity. }
  destruct (truthyNonString (member payload "filePath")) eqn:Hp.
  - rewrite (DebugHandler_validate_steps payload Hnull). cbv zeta.
    match goal with
    | |- context [requiredPathStep ?r ?x ?e] =>
        destruct (requiredPathStep_throws r x e Hp) as (m & ->)
    end. exists m. reflexivity.
  - destruct (DebugHandler_validate_returns payload Hnull Hp) as (errs & -> & _).
    reflexivity.
Qed.

Lemma ToolsHandler_validate_settles payload :
  match ToolsHandler_validate payload with
  | Throw e => exists m, e = TypeError m
  | Normal _ => nullish payload = false
  end.
Proof.
  destruct (nullish payload) eqn:Hnull.
  { unfold ToolsHandler_validate.
    destruct (getMember_nullish payload "type" Hnull) as (m & ->).
    exists m. reflexivity. }
  destruct (ToolsHandler_validate_returns payload Hnull) as (errs & -> & _).
  reflexivity.
Qed.

Lemma ExecHandler_validate_settles payload :
  match ExecHandler_validate payload with
  | Throw e => exists m, e = TypeError m
  | Normal _ => nullish payload = false
  end.
Proof.
  destruct (nullish payload) eqn:Hnull.
  { unfold ExecHandler_validate.
    destruct (getMember_nullish payload "filePath" Hnull) as (m & ->).
    exists m. reflexivity. }
  destruct (truthyNonString (member payload "filePath")) eqn:Hp.
  - rewrite (ExecHandler_validate_steps payload Hnull).
    destruct (requiredPathStep_throws "File path is required" _ [] Hp) as (m & ->).
    exists m. reflexivity.
  - destruct (ExecHandler_validate_returns payload Hnull Hp) as (errs & -> & _).
    reflexivity.
Qed.

Lemma builtin_execute_defined request t :
  nullish (payload request) = false ->
  Forall (fun h => exists r, handler_execute h request t = (Normal r, t) /\
                             id r = req_id request /\
                             status r = "success" /\ error r = None)
    [FileOpsHandler; DebugHandler; ToolsHandler; ExecHandler].
Proof.
  intros H. repeat constructor; simpl;
    unfold FileOpsHandler_execute, DebugHandler_execute, ToolsHandler_execute,
      ExecHandler_execute, placeholder;
    destruct (payload request); try discriminate H; simpl;
    eexists; (split; [reflexivity|]); repeat split.
Qed.

(** X8.  The [execute] of each of the four handlers never rejects and settles
    at once.  For a payload that is an object it answers [success] under
    the id of the request, with data that repeat the [type] of the
    payload; for a payload that is [null] or [undefined] reading the
    payload throws inside the [try], and the answer is an [error] with the
    code of the handler. *)
Theorem placeholders_never_reject (request : OperationRequest) (t : Z) :
  placeholderAnswer "FILE_OP_ERROR" request t (FileOpsHandler_execute request t) /\
  placeholderAnswer "DEBUG_OP_ERROR" request t (DebugHandler_execute request t) /\
  placeholderAnswer "TOOL_OP_ERROR" request t (ToolsHandler_execute request t) /\
  placeholderAnswer "EXEC_OP_ERROR" request t (ExecHandler_execute request t).
Proof.
  unfold placeholderAnswer, FileOpsHandler_execute, DebugHandler_execute,
    ToolsHandler_execute, ExecHandler_execute, placeholder.
  destruct (payload request) as [| |b|n|s|items|fields]; simpl;
    repeat split; eexists; (split; [reflexivity|]); simpl;
    repeat split; eexists; try reflexivity; split; reflexivity.
Qed.

End HandlersSpec.

(* ===================================================================== *)
(** * Properties of the registry in use *)
(* ===================================================================== *)

Module RegistrySpec.
Import JS Commands Handlers Extension.

(** ** The map of commands *)

Lemma mapGet_mapSet {A} (m : list (string * A)) k v k' :
  mapGet (mapSet m k v) k' = if String.eqb k k' then Some v else mapGet m k'.
Proof.
  induction m as [|[k0 v0] rest IH]; simpl; [reflexivity|].
  destruct (String.eqb_spec k0 k) as [->|Hne]; simpl.
  - destruct (String.eqb k k'); reflexivity.
  - rewrite IH. destruct (String.eqb_spec k0 k') as [->|Hne'].
    + destruct (String.eqb_spec k k') as [->|]; [contradiction|reflexivity].
    + reflexivity.
Qed.

Lemma keys_mapSet {A} (m : list (string * A)) k v :
  map fst (mapSet m k v) =
  match mapGet m k with
  | Some _ => map fst m
  | None => (map fst m ++ [k])%list
  end.
Proof.
  induction m as [|[k0 v0] rest IH]; simpl; [reflexivity|].
  destruct (String.eqb_spec k0 k) as [->|Hne]; simpl; [reflexivity|].
  rewrite IH. destruct (mapGet rest k); reflexivity.
Qed.

Lemma mapGet_None {A} (m : list (string * A)) k :
  mapGet m k = None <-> ~ In k (map fst m).
Proof.
  induction m as [|[k0 v0] rest IH]; simpl; [tauto|].
  destruct (String.eqb_spec k0 k) as [->|Hne].
  - split; [discriminate|]. intros H. exfalso. apply H. auto.
  - rewrite IH. tauto.
Qed.

Lemma mapGet_In {A} (m : list (string * A)) k v :
  mapGet m k = Some v -> In (k, v) m.
Proof.
  induction m as [|[k0 v0] rest IH]; simpl; [discriminate|].
  destruct (String.eqb_spec k0 k) as [->|Hne].
  - intros H. injection H as ->. auto.
  - auto.
Qed.

Lemma In_mapGet {A} (m : list (string * A)) k v :
  List.NoDup (map fst m) -> In (k, v) m -> mapGet m k = Some v.
Proof.
  induction m as [|[k0 v0] rest IH]; simpl; [tauto|].
  intros Hnd [H|H].
  - injection H as -> ->. rewrite String.eqb_refl. reflexivity.
  - apply List.NoDup_cons_iff in Hnd. destruct Hnd as [Hnot Hnd].
    destruct (String.eqb_spec k0 k) as [->|Hne].
    + exfalso. apply Hnot. apply (in_map fst) in H. exact H.
    + auto.
Qed.

Lemma mapGet_filter_other {A} (m : list (string * A)) i k :
  mapGet (List.filter (fun kd => negb (String.eqb (fst kd) i)) m) k =
  if String.eqb i k then None else mapGet m k.
Proof.
  induction m as [|[k0 v0] rest IH]; simpl.
  - destruct (String.eqb i k); reflexivity.
  - destruct (String.eqb_spec k0 i) as [->|Hne]; simpl.
    + rewrite IH. destruct (String.eqb i k); reflexivity.
    + rewrite IH. destruct (String.eqb_spec k0 k) as [->|Hne'].
      * destruct (String.eqb_spec i k) as [->|]; [contradiction|reflexivity].
      * reflexivity.
Qed.

Lemma commands_register d reg w :
  commands (fst (register d reg w)) = mapSet (commands reg) (d_id d) d.
Proof. reflexivity. Qed.

Lemma hasLogger_register d reg w : hasLogger (fst (register d reg w)) = hasLogger reg.
Proof. reflexivity. Qed.

Lemma lookupField_mapSet fields k v k' :
  lookupField (mapSet fields k v) k' =
  if String.eqb k k' then v else lookupField fields k'.
Proof.
  induction fields as [|[k0 v0] rest IH]; simpl; [reflexivity|].
  destruct (String.eqb_spec k0 k) as [->|Hne]; simpl.
  - destruct (String.eqb k k'); reflexivity.
  - rewrite IH. destruct (String.eqb_spec k0 k') as [->|Hne'].
    + destruct (String.eqb_spec k k') as [->|]; [contradiction|reflexivity].
    + reflexivity.
Qed.

Lemma find_app_first {A} (f : A -> bool) (l1 l2 : list A) :
  List.find f (l1 ++ l2) =
  match List.find f l1 with
  | Some x => Some x
  | None => List.find f l2
  end.
Proof.
  induction l1 as [|a l1 IH]; simpl; [reflexivity|].
  destruct (f a); [reflexivity|exact IH].
Qed.

(** ** Registration *)

(** X9.  [register] files the descriptor under its id and leaves every other id
    as it was.  A new id goes to the end of the enumeration order; an id
    already registered keeps its place, its descriptor is replaced, and a
    warning is logged when a logger was given.  The count grows by one
    exactly for a new id. *)
Theorem register_overwrites_in_place
    (d : CommandDescriptor) (reg : CommandRegistry) (w : World) :
  let reg' := fst (register d reg w) in
  let w' := snd (register d reg w) in
  (forall i, getCommand reg' i =
             if String.eqb (d_id d) i then Some d else getCommand reg i) /\
  map fst (commands reg') =
    (if hasCommand reg (d_id d) then map fst (commands reg)
     else map fst (commands reg) ++ [d_id d])%list /\
  getCommandCount reg' =
    (if hasCommand reg (d_id d) then getCommandCount reg
     else S (getCommandCount reg)) /\
  (In (LogWarn, "Command " ++ dquote ++ d_id d ++ dquote
                ++ " already registered, overwriting")
      (drop (length (logs w)) (logs w')) <->
   hasCommand reg (d_id d) = true /\ hasLogger reg = true).
Proof.
  cbv zeta. split; [|split; [|split]].
  - intros i. unfold getCommand. rewrite commands_register. apply mapGet_mapSet.
  - rewrite commands_register, keys_mapSet. unfold hasCommand.
    destruct (mapGet (commands reg) (d_id d)); reflexivity.
  - unfold getCommandCount.
    rewrite <- !(length_map fst), commands_register, keys_mapSet. unfold hasCommand.
    destruct (mapGet (commands reg) (d_id d)); [reflexivity|].
    rewrite length_app. simpl. lia.
  - unfold register, log. simpl.
    destruct (hasCommand reg (d_id d)), (hasLogger reg); simpl;
      rewrite ?drop_app_length, <- ?app_assoc, ?drop_app_length, ?drop_all; simpl.
    + split; [auto|]. intros _. left. reflexivity.
    + split; [intros []|intros [_ H]; discriminate H].
    + split; [|intros [H _]; discriminate H].
      intros [H|[]]. discriminate H.
    + split; [intros []|intros [H _]; discriminate H].
Qed.

Lemma getCommand_registerBatch ds reg w i :
  getCommand (fst (registerBatch ds reg w)) i =
  match lastWith i ds with
  | Some d => Some d
  | None => getCommand reg i
  end.
Proof.
  revert reg w. induction ds as [|d rest IH]; intros reg w; [reflexivity|].
  cbn [registerBatch].
  destruct (register d reg w) as [reg1 w1] eqn:Hr.
  rewrite IH. unfold lastWith. cbn [rev]. rewrite find_app_first.
  destruct (List.find _ (rev rest)); [reflexivity|].
  replace reg1 with (fst (register d reg w)) by (rewrite Hr; reflexivity).
  unfold getCommand. rewrite commands_register, mapGet_mapSet. simpl.
  destruct (String.eqb (d_id d) i); reflexivity.
Qed.

Lemma keys_registerBatch ds reg w :
  exists added,
    map fst (commands (fst (registerBatch ds reg w))) =
    (map fst (commands reg) ++ added)%list /\
    (forall i, In i added <-> In i (map d_id ds) /\ ~ In i (map fst (commands reg))).
Proof.
  revert reg w. induction ds as [|d rest IH]; intros reg w.
  - exists []. rewrite app_nil_r. split; [reflexivity|]. simpl. tauto.
  - cbn [registerBatch]. destruct (register d reg w) as [reg1 w1] eqn:Hr.
    assert (E : reg1 = fst (register d reg w)) by (rewrite Hr; reflexivity).
    destruct (IH reg1 w1) as (added & Hk & Hin). rewrite Hk, E.
    rewrite commands_register, keys_mapSet.
    destruct (mapGet (commands reg) (d_id d)) eqn:Hg.
    + exists added. split; [reflexivity|]. intros i. rewrite Hin, E.
      rewrite commands_register, keys_mapSet, Hg. simpl.
      assert (Hd : In (d_id d) (map fst (commands reg))).
      { destruct (in_dec string_dec (d_id d) (map fst (commands reg))) as [H|H];
          [exact H|]. apply mapGet_None in H. congruence. }
      split; [tauto|]. intros [[H|H] Hn]; [subst i; contradiction|tauto].
    + rewrite <- app_assoc. exists ([d_id d] ++ added)%list.
      split; [reflexivity|]. intros i. simpl. rewrite Hin, E.
      rewrite commands_register, keys_mapSet, Hg, in_app_iff. simpl.
      apply mapGet_None in Hg.
      destruct (string_dec (d_id d) i) as [Heq|Hne]; [subst i|]; intuition.
Qed.

(** X10.  After [registerBatch], an id that occurs in the batch has the last
    descriptor of the batch with that id, and any other id has what it had
    before.  The ids registered before keep their places in the
    enumeration order; the new ids of the batch follow them. *)
Theorem registerBatch_last_wins
    (descriptors : list CommandDescriptor) (reg : CommandRegistry) (w : World) :
  let reg' := fst (registerBatch descriptors reg w) in
  (forall i, getCommand reg' i =
             match lastWith i descriptors with
             | Some d => Some d
             | None => getCommand reg i
             end) /\
  exists added,
    map fst (commands reg') = (map fst (commands reg) ++ added)%list /\
    (forall i, In i added <->
               In i (map d_id descriptors) /\ hasCommand reg i = false).
Proof.
  cbv zeta. split; [intros i; apply getCommand_registerBatch|].
  destruct (keys_registerBatch descriptors reg w) as (added & Hk & Hin).
  exists added. split; [exact Hk|]. intros i. rewrite Hin.
  unfold hasCommand. rewrite <- mapGet_None.
  destruct (mapGet (commands reg) i); intuition congruence.
Qed.

(** ** What every registry satisfies *)

Lemma Forall_mapSet {A} (P : string * A -> Prop) m k v :
  Forall P m -> P (k, v) -> Forall P (mapSet m k v).
Proof.
  intros Hm Hkv. induction Hm as [|[k0 v0] rest H0 Hrest IH]; simpl.
  - constructor; [exact Hkv|constructor].
  - destruct (String.eqb_spec k0 k) as [->|Hne].
    + constructor; [exact Hkv|exact Hrest].
    + constructor; [exact H0|exact IH].
Qed.

Lemma wellKeyed_register d reg w : wellKeyed reg -> wellKeyed (fst (register d reg w)).
Proof.
  intros [Hnd Hown]. split.
  - rewrite commands_register, keys_mapSet.
    destruct (mapGet (commands reg) (d_id d)) eqn:Hg; [exact Hnd|].
    apply List.NoDup_app; [exact Hnd| |].
    + apply List.NoDup_cons; [intros []|apply List.NoDup_nil].
    + intros x Hx [Hd|[]]. subst x. apply mapGet_None in Hg. contradiction.
  - rewrite commands_register.
    apply Forall_mapSet; [exact Hown|reflexivity].
Qed.

Lemma wellKeyed_registerBatch ds reg w :
  wellKeyed reg -> wellKeyed (fst (registerBatch ds reg w)).
Proof.
  revert reg w. induction ds as [|d rest IH]; intros reg w H; [exact H|].
  cbn [registerBatch]. destruct (register d reg w) as [reg1 w1] eqn:Hr.
  apply IH. replace reg1 with (fst (register d reg w)) by (rewrite Hr; reflexivity).
  apply wellKeyed_register. exact H.
Qed.

Lemma wellKeyed_perform c s : wellKeyed (fst s) -> wellKeyed (fst (perform c s)).
Proof.
  intros H. destruct c as [d|ds|i|]; cbn [perform].
  - apply wellKeyed_register. exact H.
  - apply wellKeyed_registerBatch. exact H.
  - unfold unregister. destruct (hasCommand (fst s) i); simpl; [|exact H].
    destruct H as [Hnd Hown]. split; simpl.
    + clear Hown. induction (commands (fst s)) as [|[k0 v0] rest IH]; simpl;
        [constructor|].
      simpl in Hnd. apply List.NoDup_cons_iff in Hnd. destruct Hnd as [Hnot Hnd].
      destruct (String.eqb k0 i); simpl; [auto|].
      apply List.NoDup_cons_iff. split; [|auto].
      intros Hin. apply Hnot. apply in_map_iff in Hin.
      destruct Hin as (kd & Hk & Hin). apply filter_In in Hin.
      apply in_map_iff. exists kd. tauto.
    + apply List.Forall_forall. intros kd Hin. apply filter_In in Hin.
      rewrite List.Forall_forall in Hown. apply Hown. tauto.
  - split; simpl; constructor.
Qed.

Lemma wellKeyed_performAll cs s :
  wellKeyed (fst s) -> wellKeyed (fst (performAll cs s)).
Proof.
  revert s. induction cs as [|c rest IH]; intros s H; [exact H|].
  simpl. apply IH. apply wellKeyed_perform. exact H.
Qed.

(** X11.  Whatever sequence of [register], [registerBatch], [unregister] and
    [clear] a new registry has gone through, [getAllCommands] lists no id
    twice, [getCommand(id)] finds exactly the listed descriptor that
    carries that id, and [getCommandCount] is the number of listed
    descriptors. *)
Theorem registry_lists_each_id_once
    (calls : list RegistryCall) (logger : bool) (w : World) :
  let reg := fst (performAll calls (newRegistry logger, w)) in
  List.NoDup (map d_id (getAllCommands reg)) /\
  (forall i d, getCommand reg i = Some d <-> In d (getAllCommands reg) /\ d_id d = i) /\
  getCommandCount reg = length (getAllCommands reg).
Proof.
  cbv zeta.
  assert (H : wellKeyed (fst (performAll calls (newRegistry logger, w)))).
  { apply wellKeyed_performAll. split; simpl; constructor. }
  set (reg := fst (performAll calls (newRegistry logger, w))) in *.
  destruct H as [Hnd Hown].
  assert (Hkeys : map d_id (getAllCommands reg) = map fst (commands reg)).
  { unfold getAllCommands. rewrite map_map. apply map_ext_in.
    intros kd Hin. rewrite List.Forall_forall in Hown. symmetry. auto. }
  split; [rewrite Hkeys; exact Hnd|]. split.
  - intros i d. unfold getCommand, getAllCommands. split.
    + intros Hg. apply mapGet_In in Hg. split.
      * apply in_map_iff. exists (i, d). auto.
      * rewrite List.Forall_forall in Hown. symmetry. apply (Hown _ Hg).
    + intros [Hin <-]. apply in_map_iff in Hin. destruct Hin as ([k d'] & Hd & Hin).
      simpl in Hd. subst d'. apply In_mapGet; [exact Hnd|].
      rewrite List.Forall_forall in Hown. specialize (Hown _ Hin). simpl in Hown.
      rewrite <- Hown. exact Hin.
  - unfold getCommandCount, getAllCommands. rewrite length_map. reflexivity.
Qed.

(** X12.  [unregister(id)] answers whether the id was registered; afterwards the
    id is not registered, and every other id has the descriptor it had. *)
Theorem unregister_removes_that_id_only (i : string) (reg : CommandRegistry) (w : World) :
  let '(deleted, reg', w') := unregister i reg w in
  deleted = hasCommand reg i /\
  hasCommand reg' i = false /\
  (forall j, j <> i -> getCommand reg' j = getCommand reg j) /\
  (deleted = false -> reg' = reg /\ w' = w).
Proof.
  unfold unregister. destruct (hasCommand reg i) eqn:Hh.
  - split; [reflexivity|]. split; [|split; [|discriminate]].
    + unfold hasCommand. simpl. rewrite mapGet_filter_other, String.eqb_refl.
      reflexivity.
    + intros j Hj. unfold getCommand. simpl. rewrite mapGet_filter_other.
      destruct (String.eqb_spec i j) as [->|]; [contradiction|reflexivity].
  - split; [reflexivity|]. split; [exact Hh|]. split; [reflexivity|auto].
Qed.

(** ** Execution *)

(** X13.  When the handler's promise is fulfilled, [execute] answers with the
    handler's response -- its id, status, data, error and timestamp
    untouched -- and with a metadata object that holds every key of the
    handler's metadata except that [duration] is the time from the start of
    the handler to its settlement.  The handler was called twice: for
    [validate], then for [execute]. *)
Theorem execute_success_adds_duration
    (reg : CommandRegistry) (request : OperationRequest)
    (descriptor : CommandDescriptor) (validation : CommandValidation)
    (w : World) (response : OperationResponse) (t : Z) :
  getCommand reg (commandId request) = Some descriptor ->
  handler_validate (handler descriptor) (payload request) = Normal validation ->
  valid validation = true ->
  handler_execute (handler descriptor) request (now w) = (Normal response, t) ->
  exists r fields,
    fst (execute reg request w) = Normal r /\
    id r = id response /\ status r = status response /\
    data r = data response /\ error r = error response /\
    timestamp r = timestamp response /\
    metadata r = Some fields /\
    (forall k, lookupField fields k =
               if String.eqb "duration" k then VNum (NInt (t - now w))
               else lookupField (default [] (metadata response)) k) /\
    calls (snd (execute reg request w)) =
      (calls w ++ [CallValidate (d_id descriptor) (payload request);
                   CallExecute (d_id descriptor) request])%list /\
    now (snd (execute reg request w)) = t.
Proof.
  unfold getCommand, execute. intros -> -> Hv He. rewrite Hv.
  unfold called, at_time. simpl. rewrite !CommandsSpec.now_log. simpl. rewrite He. simpl.
  rewrite ?CommandsSpec.now_log, ?CommandsSpec.calls_log. simpl. rewrite ?CommandsSpec.calls_log. simpl.
  eexists. eexists. split; [reflexivity|]. simpl.
  repeat (split; [reflexivity|]). split.
  - intros k. apply lookupField_mapSet.
  - split; [|reflexivity]. rewrite <- app_assoc. reflexivity.
Qed.

Lemma execute_success_adds_duration_witness :
  exists r fields,
    fst (execute sampleRegistry (requestWith payloadCreate) sampleWorld) = Normal r /\
    status r = "success" /\
    metadata r = Some fields /\
    lookupField fields "duration" = VNum (NInt 0).
Proof.
  destruct (execute_success_adds_duration sampleRegistry (requestWith payloadCreate)
              fileCreate (mkCommandValidation true None) sampleWorld
              (mkOperationResponse "req-1" "success"
                 (Some (VObj [("type", VStr "create"); ("path", VStr "a.txt");
                              ("message",
                               VStr ("File operation " ++ dquote ++ "create" ++ dquote
                                     ++ " queued for execution"))]))
                 None None 1700000000000)
              1700000000000 eq_refl eq_refl eq_refl eq_refl)
    as (r & fields & Hr & _ & Hs & _ & _ & _ & Hm & Hk & _).
  exists r, fields. split; [exact Hr|]. split; [exact Hs|]. split; [exact Hm|].
  exact (Hk "duration").
Defined.

(** X14.  When the handler's promise is rejected, or the handler throws,
    [execute] is fulfilled all the same: with a response of status [error]
    under the id of the request, code [EXECUTION_ERROR], a message that ends
    with the message of the error (or the thrown value as a string), and
    the time of the failure as timestamp.  The failure is logged as an
    error when a logger was given. *)
Theorem handler_rejection_becomes_execution_error
    (reg : CommandRegistry) (request : OperationRequest)
    (descriptor : CommandDescriptor) (validation : CommandValidation)
    (w : World) (e : Thrown) (t : Z) :
  getCommand reg (commandId request) = Some descriptor ->
  handler_validate (handler descriptor) (payload request) = Normal validation ->
  valid validation = true ->
  handler_execute (handler descriptor) request (now w) = (Throw e, t) ->
  fst (execute reg request w) =
    Normal (mkOperationResponse (req_id request) "error" None
      (Some (mkErrorInfo "EXECUTION_ERROR"
         ("Command execution failed: " ++ describeThrown e) None))
      None t) /\
  calls (snd (execute reg request w)) =
    (calls w ++ [CallValidate (d_id descriptor) (payload request);
                 CallExecute (d_id descriptor) request])%list /\
  (hasLogger reg = true ->
   last (logs (snd (execute reg request w))) =
     Some (LogError, "Command execution failed: " ++ commandId request)).
Proof.
  unfold getCommand, execute. intros -> -> Hv He. rewrite Hv.
  unfold called, at_time. simpl. rewrite !CommandsSpec.now_log. simpl.
  rewrite He. simpl.
  rewrite ?CommandsSpec.now_log, ?CommandsSpec.calls_log. simpl.
  rewrite ?CommandsSpec.calls_log. simpl.
  split; [reflexivity|]. split; [rewrite <- app_assoc; reflexivity|].
  intros Hl. unfold log. rewrite Hl. simpl. apply last_snoc.
Qed.

Lemma handler_rejection_becomes_execution_error_witness :
  fst (execute rejectingRegistry (requestWith payloadCreate) sampleWorld) =
    Normal (mkOperationResponse "req-1" "error" None
      (Some (mkErrorInfo "EXECUTION_ERROR"
         "Command execution failed: backend unavailable" None))
      None 1700000000005).
Proof.
  exact (proj1 (handler_rejection_becomes_execution_error rejectingRegistry
           (requestWith payloadCreate)
           (mkCommandDescriptor "file.create" "Create File" "fileOps" "Create a file"
              None rejectingHandler None None None)
           (validationOf []) sampleWorld (Error "backend unavailable") 1700000000005
           eq_refl eq_refl eq_refl eq_refl)).
Defined.

Lemma keys_registerBatch_distinct ds logger w :
  List.NoDup (map d_id ds) ->
  map fst (commands (fst (registerBatch ds (newRegistry logger) w))) = map d_id ds.
Proof.
  assert (G : forall ds reg w,
    List.NoDup (map fst (commands reg) ++ map d_id ds) ->
    map fst (commands (fst (registerBatch ds reg w))) =
    (map fst (commands reg) ++ map d_id ds)%list).
  { clear. induction ds as [|d rest IH]; intros reg w Hnd.
    - simpl. rewrite app_nil_r. reflexivity.
    - cbn [registerBatch]. destruct (register d reg w) as [reg1 w1] eqn:Hr.
      assert (E : reg1 = fst (register d reg w)) by (rewrite Hr; reflexivity).
      assert (Hg : mapGet (commands reg) (d_id d) = None).
      { apply mapGet_None. intros Hin. simpl in Hnd.
        apply List.NoDup_remove_2 in Hnd. apply Hnd. apply in_app_iff. auto. }
      assert (Hk : map fst (commands reg1) = (map fst (commands reg) ++ [d_id d])%list).
      { rewrite E, commands_register, keys_mapSet, Hg. reflexivity. }
      rewrite IH; rewrite Hk, <- app_assoc; [reflexivity|exact Hnd]. }
  intros Hnd. rewrite G; [reflexivity|exact Hnd].
Qed.

(** X15.  A registry filled by one [registerBatch] of descriptors with distinct
    ids answers a request for any other command with a
    [COMMAND_NOT_FOUND] error whose message lists the registered ids in
    the order of the batch, separated by a comma and a space; no handler
    is called. *)
Theorem unknown_command_lists_registered_ids
    (descriptors : list CommandDescriptor) (logger : bool) (w0 w : World)
    (request : OperationRequest) :
  List.NoDup (map d_id descriptors) ->
  ~ In (commandId request) (map d_id descriptors) ->
  let reg := fst (registerBatch descriptors (newRegistry logger) w0) in
  fst (execute reg request w) =
    Normal (errorResponse request
      (mkErrorInfo "COMMAND_NOT_FOUND"
         ("Command " ++ dquote ++ commandId request ++ dquote
          ++ " not found. Available commands: "
          ++ joinWith ", " (map d_id descriptors))
         None)
      (now w)) /\
  calls (snd (execute reg request w)) = calls w.
Proof.
  intros Hnd Hnot. cbv zeta.
  pose proof (keys_registerBatch_distinct descriptors logger w0 Hnd) as Hk.
  set (reg := fst (registerBatch descriptors (newRegistry logger) w0)) in *.
  assert (Hg : mapGet (commands reg) (commandId request) = None).
  { apply mapGet_None. rewrite Hk. exact Hnot. }
  unfold execute. rewrite Hg. simpl. rewrite CommandsSpec.now_log, CommandsSpec.calls_log, Hk.
  split; reflexivity.
Qed.

Lemma unknown_command_lists_registered_ids_witness :
  List.NoDup (map d_id allDescriptors) /\
  ~ In (commandId unknownRequest) (map d_id allDescriptors) /\
  fst (execute (fst (registerBatch allDescriptors (newRegistry true) (mkWorld 0 [] [])))
         unknownRequest sampleWorld) =
    Normal (errorResponse unknownRequest
      (mkErrorInfo "COMMAND_NOT_FOUND"
         ("Command " ++ dquote ++ commandId unknownRequest ++ dquote
          ++ " not found. Available commands: "
          ++ joinWith ", " (map d_id allDescriptors))
         None)
      (now sampleWorld)).
Proof.
  assert (Hnd : List.NoDup (map d_id allDescriptors)).
  { repeat (apply List.NoDup_cons;
              [simpl; intros H; repeat (destruct H as [H|H]; [discriminate H|]);
               exact H|]).
    apply List.NoDup_nil. }
  assert (Hnot : ~ In (commandId unknownRequest) (map d_id allDescriptors)).
  { simpl. intros H. repeat (destruct H as [H|H]; [discriminate H|]). exact H. }
  split; [exact Hnd|]. split; [exact Hnot|].
  exact (proj1 (unknown_command_lists_registered_ids allDescriptors true
                  (mkWorld 0 [] []) sampleWorld unknownRequest Hnd Hnot)).
Defined.

End RegistrySpec.

(* ===================================================================== *)
(** * Properties of the registry of the extension *)
(* ===================================================================== *)

Module ExtensionSpec.
Import JS Commands Handlers Extension.

Lemma commands_extensionRegistry :
  commands extensionRegistry = map (fun d => (d_id d, d)) allDescriptors.
Proof. reflexivity. Qed.

Ltac each_descriptor H :=
  simpl in H; repeat (destruct H as [H|H]; [|]); try contradiction.

Lemma extension_handlers i d :
  mapGet (commands extensionRegistry) i = Some d ->
  In (handler d) [FileOpsHandler; DebugHandler; ToolsHandler; ExecHandler].
Proof.
  intros H. apply RegistrySpec.mapGet_In in H. rewrite commands_extensionRegistry in H.
  apply in_map_iff in H. destruct H as (d' & Heq & Hin). injection Heq as _ ->.
  each_descriptor Hin; subst d; simpl; auto.
Qed.

Lemma builtin_validate_settles payload :
  Forall (fun h => match handler_validate h payload with
                   | Throw e => exists m, e = TypeError m
                   | Normal _ => nullish payload = false
                   end)
    [FileOpsHandler; DebugHandler; ToolsHandler; ExecHandler].
Proof.
  repeat constructor; simpl.
  - apply HandlersSpec.FileOpsHandler_validate_settles.
  - apply HandlersSpec.DebugHandler_validate_settles.
  - apply HandlersSpec.ToolsHandler_validate_settles.
  - apply HandlersSpec.ExecHandler_validate_settles.
Qed.

(** How [execute] settles once the handler is known to be one of the
    four. *)
Lemma execute_builtin reg request w d :
  mapGet (commands reg) (commandId request) = Some d ->
  In (handler d) [FileOpsHandler; DebugHandler; ToolsHandler; ExecHandler] ->
  match handler_validate (handler d) (payload request) with
  | Throw e => fst (execute reg request w) = Throw e /\ exists m, e = TypeError m
  | Normal v =>
      exists r, fst (execute reg request w) = Normal r /\
                id r = req_id request /\
                if valid v
                then status r = "success" /\ error r = None /\
                     calls (snd (execute reg request w)) =
                       (calls w ++ [CallValidate (d_id d) (payload request);
                                    CallExecute (d_id d) request])%list
                else status r = "error" /\
                     errorCode r = Some "VALIDATION_ERROR" /\
                     calls (snd (execute reg request w)) =
                       (calls w ++ [CallValidate (d_id d) (payload request)])%list
  end.
Proof.
  intros Hg Hin. unfold execute. rewrite Hg.
  pose proof (builtin_validate_settles (payload request)) as Hs.
  rewrite List.Forall_forall in Hs. specialize (Hs _ Hin).
  destruct (handler_validate (handler d) (payload request)) as [v|e].
  - destruct (valid v); simpl.
    + pose proof (HandlersSpec.builtin_execute_defined request
                    (now (called (CallExecute (d_id d) request)
                            (log reg LogDebug
                               ("Executing command: " ++ commandId request)
                               (called (CallValidate (d_id d) (payload request)) w))))
                    Hs) as He.
      rewrite List.Forall_forall in He. destruct (He _ Hin) as (r & Hr & Hid & Hst & Herr).
      simpl in Hr. rewrite Hr. simpl.
      eexists. split; [reflexivity|]. simpl.
      split; [exact Hid|]. split; [exact Hst|]. split; [exact Herr|].
      rewrite !CommandsSpec.calls_log. simpl. rewrite CommandsSpec.calls_log. simpl.
      rewrite <- app_assoc. reflexivity.
    + eexists. split; [reflexivity|]. simpl. split; [reflexivity|].
      split; [reflexivity|]. split; [reflexivity|].
      rewrite CommandsSpec.calls_log. reflexivity.
  - simpl. split; [reflexivity|exact Hs].
Qed.

(** X16.  Through the registry of the extension a request has three outcomes:
    a response of status [success]; a response of status [error] whose
    code is [COMMAND_NOT_FOUND] or [VALIDATION_ERROR]; a rejection with a
    [TypeError] thrown by a validator.  The codes of the handlers
    ([FILE_OP_ERROR] and the like) and [EXECUTION_ERROR] never occur: the
    payloads on which a placeholder would fail make its validator throw
    first. *)
Theorem extension_execute_outcomes (request : OperationRequest) (w : World) :
  match fst (execute extensionRegistry request w) with
  | Throw e => exists m, e = TypeError m
  | Normal r =>
      (status r = "success" /\ error r = None) \/
      (status r = "error" /\
       (errorCode r = Some "COMMAND_NOT_FOUND" \/
        errorCode r = Some "VALIDATION_ERROR"))
  end.
Proof.
  destruct (mapGet (commands extensionRegistry) (commandId request)) as [d|] eqn:Hg.
  - pose proof (execute_builtin extensionRegistry request w d Hg
                  (extension_handlers _ _ Hg)) as H.
    destruct (handler_validate (handler d) (payload request)) as [v|e].
    + destruct H as (r & -> & _ & H). destruct (valid v).
      * left. tauto.
      * right. tauto.
    + destruct H as [-> H]. exact H.
  - unfold execute. rewrite Hg. cbn [fst]. right.
    split; [reflexivity|left; reflexivity].
Qed.

(** ** The requests of the sidebar *)

Lemma truthyNonString_orEmpty file : truthyNonString (orEmpty file) = false.
Proof.
  destruct file; unfold truthyNonString; simpl; [apply andb_false_r|reflexivity].
Qed.

Ltac sidebar_accepts :=
  unfold fileOpsAccepts, debugAccepts, toolsAccepts, execAccepts, sidebarAccepts,
    nonEmptyString;
  cbn -[goodPath pathOk optionalPathOk supported extensionOf orEmpty];
  rewrite ?andb_true_r, ?andb_false_r; reflexivity.

Ltac sidebar_case returns file :=
  let errs := fresh "errs" in
  let Hv := fresh "Hv" in
  let He := fresh "He" in
  destruct returns as (errs & Hv & He);
  [try reflexivity; try exact (truthyNonString_orEmpty file);
   try (intros _; reflexivity) ..
  |eexists; exists errs; split; [reflexivity|]; split; [reflexivity|];
   split; [simpl; auto|];
   split; [exact Hv|]; rewrite He; sidebar_accepts].

Lemma sidebar_validation command file :
  In command (map d_id allDescriptors) ->
  exists d errs,
    mapGet (commands extensionRegistry) command = Some d /\
    d_id d = command /\
    In (handler d) [FileOpsHandler; DebugHandler; ToolsHandler; ExecHandler] /\
    handler_validate (handler d) (buildCommandPayload command file) =
      Normal (validationOf errs) /\
    noErrors errs = sidebarAccepts command file.
Proof.
  intros Hin. simpl in Hin.
  repeat (destruct Hin as [Hin|Hin]; [subst command|]); try contradiction.
  - sidebar_case (HandlersSpec.FileOpsHandler_validate_returns
                    (buildCommandPayload "file.create" file)) file.
  - sidebar_case (HandlersSpec.FileOpsHandler_validate_returns
                    (buildCommandPayload "file.delete" file)) file.
  - sidebar_case (HandlersSpec.FileOpsHandler_validate_returns
                    (buildCommandPayload "file.modify" file)) file.
  - sidebar_case (HandlersSpec.FileOpsHandler_validate_returns
                    (buildCommandPayload "file.copy" file)) file.
  - sidebar_case (HandlersSpec.FileOpsHandler_validate_returns
                    (buildCommandPayload "file.move" file)) file.
  - sidebar_case (HandlersSpec.FileOpsHandler_validate_returns
                    (buildCommandPayload "file.rename" file)) file.
  - sidebar_case (HandlersSpec.DebugHandler_validate_returns
                    (buildCommandPayload "debug.breakpoint" file)) file.
  - sidebar_case (HandlersSpec.DebugHandler_validate_returns
                    (buildCommandPayload "debug.watch" file)) file.
  - sidebar_case (HandlersSpec.DebugHandler_validate_returns
                    (buildCommandPayload "debug.logging" file)) file.
  - sidebar_case (HandlersSpec.ToolsHandler_validate_returns
                    (buildCommandPayload "tools.format" file)) file.
  - sidebar_case (HandlersSpec.ToolsHandler_validate_returns
                    (buildCommandPayload "tools.lint" file)) file.
  - sidebar_case (HandlersSpec.ToolsHandler_validate_returns
                    (buildCommandPayload "tools.test" file)) file.
  - sidebar_case (HandlersSpec.ToolsHandler_validate_returns
                    (buildCommandPayload "tools.generate" file)) file.
  - sidebar_case (HandlersSpec.ExecHandler_validate_returns
                    (buildCommandPayload "exec.run" file)) file.
Qed.

Lemma sidebar_request command file uuid t ai model root w :
  In command (map d_id allDescriptors) ->
  exists d r,
    d_id d = command /\
    fst (execute extensionRegistry (buildRequest uuid t command ai model file root) w)
      = Normal r /\
    id r = uuid /\
    if sidebarAccepts command file
    then status r = "success" /\ error r = None /\
         calls (snd (execute extensionRegistry
                       (buildRequest uuid t command ai model file root) w)) =
           (calls w ++ [CallValidate (d_id d) (buildCommandPayload command file);
                        CallExecute (d_id d)
                          (buildRequest uuid t command ai model file root)])%list
    else status r = "error" /\
         errorCode r = Some "VALIDATION_ERROR" /\
         calls (snd (execute extensionRegistry
                       (buildRequest uuid t command ai model file root) w)) =
           (calls w ++ [CallValidate (d_id d) (buildCommandPayload command file)])%list.
Proof.
  intros Hin.
  destruct (sidebar_validation command file Hin)
    as (d & errs & Hg & Hd & Hh & Hv & He).
  pose proof (execute_builtin extensionRegistry
                (buildRequest uuid t command ai model file root) w d Hg Hh) as H.
  change (payload (buildRequest uuid t command ai model file root))
    with (buildCommandPayload command file) in H.
  rewrite Hv in H. destruct H as (r & Hr & Hid & H).
  exists d, r. split; [exact Hd|]. split; [exact Hr|]. split; [exact Hid|].
  rewrite HandlersSpec.valid_noErrors, He in H. exact H.
Qed.

(** X17.  The request the sidebar builds for a registered command is never
    rejected by a throw; it is answered under the id of the request.  The
    answer is [success] exactly for [file.create], [file.delete] and
    [file.modify] with a selected file whose path the validator accepts,
    for the four [tools] commands with no file or such a file, and for
    [exec.run] with such a file of a supported extension; every other
    request is answered with a [VALIDATION_ERROR]. *)
Theorem sidebar_request_outcome
    (uuid : string) (t : Z) (ai model root : string) (file : option string)
    (w : World) :
  Forall (fun command =>
    exists r,
      fst (execute extensionRegistry
             (buildRequest uuid t command ai model file root) w) = Normal r /\
      id r = uuid /\
      if sidebarAccepts command file
      then status r = "success" /\ error r = None
      else status r = "error" /\ errorCode r = Some "VALIDATION_ERROR")
    (map d_id (getAllCommands extensionRegistry)).
Proof.
  apply List.Forall_forall. intros command Hin.
  destruct (sidebar_request command file uuid t ai model root w Hin)
    as (d & r & _ & Hr & Hid & H).
  exists r. split; [exact Hr|]. split; [exact Hid|].
  destruct (sidebarAccepts command file); tauto.
Qed.

(** X18.  The sidebar can run none of the three debug commands and none of
    [file.copy], [file.move], [file.rename], whatever file is selected:
    the payload it builds carries the second part of the command id as
    the debug operation, which is not one of the four the debug handler
    knows, and it carries no source path.  The request is answered with a
    [VALIDATION_ERROR], and the handler's [execute] is not called. *)
Theorem sidebar_cannot_run_debug_or_two_path_commands
    (uuid : string) (t : Z) (ai model root : string) (file : option string)
    (w : World) :
  Forall (fun command =>
    let request := buildRequest uuid t command ai model file root in
    exists r,
      fst (execute extensionRegistry request w) = Normal r /\
      status r = "error" /\ errorCode r = Some "VALIDATION_ERROR" /\
      calls (snd (execute extensionRegistry request w)) =
        (calls w ++ [CallValidate command (payload request)])%list)
    ["debug.breakpoint"; "debug.watch"; "debug.logging";
     "file.copy"; "file.move"; "file.rename"].
Proof.
  apply List.Forall_forall. intros command Hin. cbv zeta.
  assert (Hreg : In command (map d_id allDescriptors)).
  { simpl in Hin. simpl. intuition. }
  assert (Hacc : sidebarAccepts command file = false).
  { simpl in Hin.
    repeat (destruct Hin as [Hin|Hin]; [subst command; reflexivity|]).
    contradiction. }
  destruct (sidebar_request command file uuid t ai model root w Hreg)
    as (d & r & Hd & Hr & Hid & H).
  rewrite Hacc in H. destruct H as (Hs & Hc & Hcalls).
  exists r. split; [exact Hr|]. split; [exact Hs|]. split; [exact Hc|].
  rewrite Hcalls, Hd. reflexivity.
Qed.

(** ** [registerAllHandlers] *)

Lemma lastWith_None i ds : ~ In i (map d_id ds) -> lastWith i ds = None.
Proof.
  intros Hnot. unfold lastWith.
  destruct (List.find _ (rev ds)) as [d|] eqn:Hf; [|reflexivity].
  apply find_some in Hf. destruct Hf as [Hin Heq].
  apply String.eqb_eq in Heq. exfalso. apply Hnot. rewrite <- Heq.
  apply in_map. apply in_rev. exact Hin.
Qed.

(** X19.  [registerAllHandlers] on any registry: afterwards each of the fourteen
    ids has its descriptor, whose category is the one the sidebar derives
    from the id, and every other id has what it had before.  On a registry
    with no command the count is then 14, the info line says so, and the
    logger received one debug line per command and no warning. *)
Theorem registerAllHandlers_installs_fourteen
    (reg : CommandRegistry) (logger : bool) (w : World) :
  let '(reg', w', info) := registerAllHandlers reg logger w in
  Forall (fun d => getCommand reg' (d_id d) = Some d /\
                   d_category d = getCommandCategory (d_id d)) allDescriptors /\
  (forall i, ~ In i (map d_id allDescriptors) -> getCommand reg' i = getCommand reg i) /\
  (getCommandCount reg = 0%nat ->
   getCommandCount reg' = 14%nat /\
   info = (if logger then Some "Registered 14 handlers" else None) /\
   logs w' =
     (logs w ++ if hasLogger reg
                then map (fun d => (LogDebug, ("Registered command: " ++ d_id d)%string))
                       allDescriptors
                else [])%list).
Proof.
  unfold registerAllHandlers.
  destruct (registerBatch allDescriptors reg w) as [reg' w'] eqn:Hb.
  assert (E : reg' = fst (registerBatch allDescriptors reg w)) by (rewrite Hb; reflexivity).
  split; [|split].
  - rewrite E. repeat constructor;
      rewrite RegistrySpec.getCommand_registerBatch; reflexivity.
  - intros i Hnot. rewrite E, RegistrySpec.getCommand_registerBatch.
    rewrite (lastWith_None _ _ Hnot). reflexivity.
  - intros H0. destruct reg as [cmds lg]. unfold getCommandCount in H0. simpl in H0.
    destruct cmds; [|discriminate H0].
    destruct lg; cbn in Hb; injection Hb as <- <-; cbn [logs hasLogger];
      rewrite ?app_nil_r, <- ?app_assoc; repeat split; destruct logger; reflexivity.
Qed.

End ExtensionSpec.

(* ===================================================================== *)
(** * Properties of the state store *)
(* ===================================================================== *)

Module SidebarSpec.
Import JS Sidebar.

#[local] Arguments stored : simpl never.

(** ** Notification leaves the store alone *)

Lemma emit_store ev w :
  stateObjects (snd (emit ev w)) = stateObjects w /\
  operationArrays (snd (emit ev w)) = operationArrays w /\
  historyArrays (snd (emit ev w)) = historyArrays w /\
  this_state (snd (emit ev w)) = this_state w /\
  uuidCalls (snd (emit ev w)) = uuidCalls w /\
  nextLoc (snd (emit ev w)) = nextLoc w.
Proof. repeat split. Qed.

Lemma notify_store w :
  stateObjects (notify w) = stateObjects w /\
  operationArrays (notify w) = operationArrays w /\
  historyArrays (notify w) = historyArrays w /\
  this_state (notify w) = this_state w /\
  uuidCalls (notify w) = uuidCalls w /\
  nextLoc (notify w) = nextLoc w.
Proof.
  unfold notify. destruct (emit (this_state w) w) as [o w'] eqn:E.
  pose proof (emit_store (this_state w) w) as H. rewrite E in H. simpl in H.
  destruct o; simpl; exact H.
Qed.

Lemma stored_notify w : stored (notify w) = stored w.
Proof.
  destruct (notify_store w) as (H1 & H2 & H3 & H4 & _).
  unfold stored, snapshot, readState, readOperations, readHistory.
  rewrite H1, H2, H3, H4. reflexivity.
Qed.

(** ** The history *)

Section History.

Variable generateUUID : nat -> string.

(** One call: the identifier returned is the one [generateUUID] gave this
    call, and the history becomes the new entry followed by the old ones,
    cut to 50. *)
Lemma addToHistory_step entry w :
  fst (addToHistory generateUUID entry w) = generateUUID (uuidCalls w) /\
  uuidCalls (snd (addToHistory generateUUID entry w)) = S (uuidCalls w) /\
  history (stored (snd (addToHistory generateUUID entry w))) =
    take 50 (fullEntry (generateUUID (uuidCalls w)) entry :: history (stored w)).
Proof.
  unfold addToHistory, freshUUID, allocHistory. simpl.
  split; [reflexivity|].
  match goal with |- context [notify ?x] => set (w1 := x) end.
  split.
  - destruct (notify_store w1) as (_ & _ & _ & _ & Hu & _).
    rewrite Hu. reflexivity.
  - change (history (stored (notify w1)) =
            take 50 (fullEntry (generateUUID (uuidCalls w)) entry
                     :: history (stored w))).
    rewrite stored_notify. subst w1.
    unfold stored, snapshot, updateStored, writeState, readState, readHistory.
    simpl. rewrite lookup_insert_eq. simpl. rewrite lookup_insert_eq.
    reflexivity.
Qed.









End History.




(** ** The copy [getState] returns *)

Lemma above_ne (n r : nat) : (r < n)%nat -> S n <> r.
Proof. lia. Qed.

(** Assigning to a field of the object [getState] returned leaves the
    stored state as it was: the copy is a different object. *)
Lemma getState_field_assignment_frame w m :
  wellFormed w -> isFieldAssignment m = true ->
  stored (mutate (fst (getState w)) m (snd (getState w))) = stored w.
Proof.
  intros (Hs & Ho & Hh) Hm.
  assert (Hne : nextLoc w <> this_state w) by lia.
  unfold getState, allocState. simpl fst. simpl snd.
  destruct m; try discriminate Hm;
    unfold stored, snapshot, mutate, allocOperations, allocHistory, writeState,
      readState, readOperations, readHistory in *; simpl in *;
    rewrite ?lookup_insert_eq; simpl;
    rewrite ?(lookup_insert_ne _ (nextLoc w) (this_state w)) by assumption;
    try reflexivity.
  - rewrite lookup_insert_ne by (apply above_ne; exact Ho). reflexivity.
  - rewrite lookup_insert_ne by (apply above_ne; exact Hh). reflexivity.
Qed.

(** Pushing onto the [operations] of the object [getState] returned
    appends to the stored state's list, whatever the state. *)
Lemma getState_push_reaches_stored w op :
  wellFormed w ->
  operations (stored (mutate (fst (getState w)) (PushOperation op) (snd (getState w)))) =
  (operations (stored w) ++ [op])%list.
Proof.
  intros (Hs & _ & _).
  assert (Hne : nextLoc w <> this_state w) by lia.
  unfold getState, allocState, stored, snapshot, mutate, writeOperations,
    readState, readOperations. simpl.
  rewrite !lookup_insert_eq. simpl.
  rewrite (lookup_insert_ne _ (nextLoc w) (this_state w)) by assumption.
  rewrite lookup_insert_eq. reflexivity.
Qed.

(** C4 (the code departs from the specification).  The object [getState] returns
    is a new object, but its [operations] and [history] are the very arrays
    of the stored state: pushing onto them through the returned object
    changes the stored state. *)
Theorem getState_copy_shares_the_lists (op : PendingOperation) (h : HistoryEntry) :
  let r := fst (getState newStateManager) in
  let w := snd (getState newStateManager) in
  r <> this_state w /\
  stored w = stored newStateManager /\
  operations (stored w) = [] /\
  history (stored w) = [] /\
  operations (stored (mutate r (PushOperation op) w)) = [op] /\
  history (stored (mutate r (PushHistory h) w)) = [h].
Proof.
  simpl. repeat split; try reflexivity. discriminate.
Qed.

(** ** Delivery to the listeners *)

(** Every listener is called, in subscription order, with the emitted
    state, whatever the listeners do. *)
Lemma emit_calls_every_listener ev w :
  delivered (snd (emit ev w)) =
  (delivered w ++ map (fun l => (fst l, snapshot w ev)) (changeListeners w))%list.
Proof.
  unfold emit. simpl. f_equal. rewrite map_map. reflexivity.
Qed.

Lemma promiseAll_rejected ps e :
  promiseAll ps = Rejected e -> In (Rejected e) ps.
Proof.
  induction ps as [|p ps IH]; simpl; [discriminate|].
  destruct p as [|e'|]; destruct (promiseAll ps) as [|e''|]; intros H;
    try discriminate; try (injection H as ->); auto.
Qed.

(** A listener that throws does not make [emit] fail: [emit] is rejected
    only if some listener returned a promise that is rejected. *)
Lemma emit_rejected_only_by_rejected_promise ev w e :
  fst (emit ev w) = Rejected e ->
  exists l, In l (changeListeners w) /\
            snd l (snapshot w ev) = ReturnsPromise (Rejected e).
Proof.
  unfold emit. simpl. intros H. apply promiseAll_rejected in H.
  rewrite map_map in H. apply in_map_iff in H. destruct H as (l & Hl & Hin).
  exists l. split; [exact Hin|].
  simpl in Hl. unfold callListener in Hl.
  destruct (snd l (snapshot w ev)) as [|p|e']; simpl in Hl; try discriminate.
  congruence.
Qed.

(** C5 (the code departs from the specification).  With two listeners, the first
    returning a rejected promise and the second returning normally, both
    are called with the emitted state, but [emit] itself fails: the promise
    it returns is rejected with the first listener's reason.  A listener
    that throws, by contrast, is isolated: the error is logged and [emit]
    is fulfilled. *)
Theorem emit_rejected_by_rejecting_listener :
  let failing : Listener := fun _ => ReturnsPromise (Rejected (Error "boom")) in
  let throwing : Listener := fun _ => Throws (Error "boom") in
  let quiet : Listener := fun _ => ReturnsVoid in
  let w := snd (on quiet (snd (on failing newStateManager))) in
  let w' := snd (on quiet (snd (on throwing newStateManager))) in
  fst (emit (this_state w) w) = Rejected (Error "boom") /\
  delivered (snd (emit (this_state w) w)) = [(0%nat, stored w); (1%nat, stored w)] /\
  droppedRejections (notify w) = [Error "boom"] /\
  fst (emit (this_state w') w') = Fulfilled /\
  delivered (snd (emit (this_state w') w')) = [(0%nat, stored w'); (1%nat, stored w')] /\
  consoleErrors (snd (emit (this_state w') w')) = [Error "boom"].
Proof.
  simpl. repeat split; reflexivity.
Qed.

End SidebarSpec.

(* ===================================================================== *)
(** * Properties of the calls of the state manager *)
(* ===================================================================== *)

Module ManagerSpec.
Import JS Sidebar Manager.

#[local] Arguments stored : simpl never.

(** ** Every call notifies *)

Lemma listeners_notify w : changeListeners (notify w) = changeListeners w.
Proof.
  unfold notify, emit. simpl.
  destruct (promiseAll _); reflexivity.
Qed.

Lemma delivered_notify w :
  delivered (notify w) =
  (delivered w ++ map (fun l => (fst l, stored w)) (changeListeners w))%list.
Proof.
  unfold notify, emit. simpl.
  destruct (promiseAll _); simpl; rewrite map_map; reflexivity.
Qed.

Lemma notify_delivers w w1 :
  delivered w1 = delivered w ->
  changeListeners w1 = changeListeners w ->
  changeListeners (notify w1) = changeListeners w /\
  delivered (notify w1) =
    (delivered w ++ map (fun l => (fst l, stored (notify w1))) (changeListeners w))%list.
Proof.
  intros Hd Hl. rewrite listeners_notify, delivered_notify, SidebarSpec.stored_notify.
  rewrite Hd, Hl. split; reflexivity.
Qed.

Lemma assignFirst_found i partial ops :
  match assignFirst i partial ops with
  | Some _ => existsb (fun op => String.eqb (op_id op) i) ops = true
  | None => existsb (fun op => String.eqb (op_id op) i) ops = false
  end.
Proof.
  induction ops as [|op rest IH]; simpl; [reflexivity|].
  destruct (String.eqb (op_id op) i); simpl; [reflexivity|].
  destruct (assignFirst i partial rest); simpl; exact IH.
Qed.

(** X20.  Every call that writes the state gives the new state to each listener
    exactly once, in subscription order, and leaves the listeners as they
    were -- [setSelectedAI], which writes two fields, notifies once.  The
    one exception is [updateOperation] of an identifier that no operation
    has: it changes nothing and notifies nobody. *)
Theorem every_call_notifies_each_listener_once
    (generateUUID : nat -> string) (c : ManagerCall) (w : World) :
  changeListeners (call generateUUID c w) = changeListeners w /\
  if changesState c w
  then delivered (call generateUUID c w) =
         (delivered w ++
          map (fun l => (fst l, stored (call generateUUID c w))) (changeListeners w))%list
  else call generateUUID c w = w.
Proof.
  destruct c; cbn [call changesState];
    try (apply notify_delivers; reflexivity).
  unfold hasOperation, updateOperation.
  pose proof (assignFirst_found i partial (operations (stored w))) as H.
  change (operations (stored w))
    with (readOperations w (operations (readState w (this_state w)))) in *.
  destruct (assignFirst i partial _) as [ops|]; rewrite H.
  - apply notify_delivers; reflexivity.
  - split; reflexivity.
Qed.

(** ** The selection *)

Ltac read_store :=
  unfold stored, snapshot, updateStored, writeState, writeOperations, writeHistory,
    allocState, allocOperations, allocHistory, readState, readOperations,
    readHistory, with_this_state, with_store in *;
  cbn [stateObjects operationArrays historyArrays nextLoc this_state fst snd] in *.

(** X21.  [setSelectedAI] sets the provider and clears the model, and changes
    nothing else.  [setState] with only [selectedAI] sets the provider and
    keeps the model: the reset of the model is not part of the merge. *)
Theorem setSelectedAI_resets_the_model_setState_does_not
    (aiId : option string) (w : World) :
  let before := stored w in
  let a := stored (setSelectedAI aiId w) in
  let b := stored (setState (onlySelectedAI aiId) w) in
  a = mkSidebarState aiId None (selectedFile before) (selectedOperation before)
        (isLoading before) (operations before) (history before) (uiMode before) /\
  b = mkSidebarState aiId (selectedModel before) (selectedFile before)
        (selectedOperation before) (isLoading before) (operations before)
        (history before) (uiMode before).
Proof.
  cbv zeta. unfold setSelectedAI, setState, onlySelectedAI.
  cbn [p_selectedAI p_selectedModel p_selectedFile p_selectedOperation p_isLoading
       p_operations p_history p_uiMode default].
  split.
  - rewrite SidebarSpec.stored_notify. read_store.
    rewrite !lookup_insert_eq. reflexivity.
  - unfold allocState. rewrite SidebarSpec.stored_notify. read_store.
    rewrite !lookup_insert_eq. reflexivity.
Qed.

(** ** The operations *)

Lemma assignFirst_split i partial pre op post :
  op_id op = i -> (forall o, In o pre -> op_id o <> i) ->
  assignFirst i partial (pre ++ op :: post) =
  Some (pre ++ assignOperation op partial :: post)%list.
Proof.
  intros Hop Hpre. induction pre as [|o pre IH]; simpl.
  - rewrite Hop, String.eqb_refl. reflexivity.
  - destruct (String.eqb_spec (op_id o) i) as [Heq|Hne].
    + exfalso. apply (Hpre o); [left; reflexivity|exact Heq].
    + rewrite IH; [reflexivity|]. intros o' Hin. apply Hpre. right. exact Hin.
Qed.

(** X22.  [updateOperation] changes the first operation that has the identifier,
    by the fields given, and no other operation; the state object and its
    array stay the same objects and the history is untouched.  For an
    identifier no operation has, the manager is left as it was. *)
Theorem updateOperation_changes_first_match
    (i : string) (partial : PartialOperation) (w : World)
    (pre post : list PendingOperation) (op : PendingOperation) :
  operations (stored w) = (pre ++ op :: post)%list ->
  op_id op = i ->
  (forall o, In o pre -> op_id o <> i) ->
  let w' := updateOperation i partial w in
  operations (stored w') = (pre ++ assignOperation op partial :: post)%list /\
  history (stored w') = history (stored w) /\
  this_state w' = this_state w /\
  readState w' (this_state w') = readState w (this_state w).
Proof.
  intros Hops Hop Hpre. cbv zeta. unfold updateOperation.
  change (readOperations w (operations (readState w (this_state w))))
    with (operations (stored w)).
  rewrite Hops, (assignFirst_split i partial pre op post Hop Hpre).
  set (w1 := writeOperations (operations (readState w (this_state w)))
               (pre ++ assignOperation op partial :: post) w).
  destruct (SidebarSpec.notify_store w1) as (H1 & H2 & H3 & H4 & _).
  rewrite SidebarSpec.stored_notify. split; [|split; [|split]].
  - subst w1. read_store. rewrite lookup_insert_eq. reflexivity.
  - reflexivity.
  - rewrite H4. reflexivity.
  - unfold readState at 1. rewrite H1, H4. reflexivity.
Qed.

Lemma updateOperation_changes_first_match_witness :
  let w := snd (addOperation sampleUUID sampleOperation newStateManager) in
  operations (stored (updateOperation "uuid-0" completed w)) =
    [mkPendingOperation "uuid-0" "file.create" "completed" 100 1700000000000
       (Some 1700000000012) None].
Proof.
  exact (proj1 (updateOperation_changes_first_match "uuid-0" completed
                  (snd (addOperation sampleUUID sampleOperation newStateManager))
                  [] [] (fullOperation "uuid-0" sampleOperation)
                  eq_refl eq_refl (fun o (H : In o []) => match H with end))).
Defined.

(** ** What an object from [getState] sees of later calls *)

Lemma above_by (n r k : nat) : (r < n)%nat -> (k + n)%nat <> r.
Proof. lia. Qed.

Lemma snapshot_notify w r : snapshot (notify w) r = snapshot w r.
Proof.
  destruct (SidebarSpec.notify_store w) as (H1 & H2 & H3 & _).
  unfold snapshot, readState, readOperations, readHistory.
  rewrite H1, H2, H3. reflexivity.
Qed.

(** X23.  An object obtained from [getState] follows the changes made in place
    and misses the others.  It shows an operation added afterwards
    ([push] writes into the array it shares with the manager), but it
    still shows an operation removed afterwards, and shows neither a
    history entry added afterwards nor the clearing of the history nor a
    reset: those calls give the manager new arrays. *)
Theorem copy_follows_in_place_changes_only
    (generateUUID : nat -> string) (w : World)
    (operation : PendingOperationInput) (i : string) (entry : HistoryEntryInput) :
  wellFormed w ->
  let copy := fst (getState w) in
  let w1 := snd (getState w) in
  operations (snapshot (snd (addOperation generateUUID operation w1)) copy) =
    (operations (stored w)
     ++ [fullOperation (generateUUID (uuidCalls w)) operation])%list /\
  operations (snapshot (removeOperation i w1) copy) = operations (stored w) /\
  history (snapshot (snd (addToHistory generateUUID entry w1)) copy) =
    history (stored w) /\
  history (snapshot (clearHistory w1) copy) = history (stored w) /\
  snapshot (reset w1) copy = stored w.
Proof.
  intros (Hs & Ho & Hh). cbv zeta.
  assert (N1 : nextLoc w <> this_state w) by lia.
  assert (N2 : this_state w <> nextLoc w) by lia.
  assert (N7 : S (S (S (nextLoc w))) <> nextLoc w) by lia.
  unfold wellFormed, readState in Ho, Hh.
  set (s0 := default (initialFields 0%nat 0%nat) (stateObjects w !! this_state w)) in *.
  pose proof (above_by _ _ 1 Ho) as N3.
  pose proof (above_by _ _ 1 Hh) as N4.
  pose proof (above_by _ _ 2 Hh) as N5.
  pose proof (above_by _ _ 2 Ho) as N6.
  unfold getState, addOperation, removeOperation, addToHistory, clearHistory, reset,
    freshUUID.
  cbn [fst snd allocState allocOperations allocHistory].
  rewrite ?snapshot_notify.
  repeat split; read_store;
    repeat (progress
      (cbn;
       rewrite ?(lookup_insert_ne (stateObjects w) (nextLoc w) (this_state w) s0 N1);
       fold s0;
       rewrite ?lookup_insert_eq;
       rewrite ?(lookup_insert_ne _ (this_state w) (nextLoc w)) by assumption;
       rewrite ?(lookup_insert_ne _ (S (S (S (nextLoc w)))) (nextLoc w)) by assumption;
       rewrite ?(lookup_insert_ne _ (S (nextLoc w)) (operations s0)) by exact N3;
       rewrite ?(lookup_insert_ne _ (S (nextLoc w)) (history s0)) by exact N4;
       rewrite ?(lookup_insert_ne _ (S (S (nextLoc w))) (history s0)) by exact N5;
       rewrite ?(lookup_insert_ne _ (S (S (nextLoc w))) (operations s0)) by exact N6));
    reflexivity.
Qed.

Lemma copy_follows_in_place_changes_only_witness :
  let copy := fst (getState newStateManager) in
  let w1 := snd (getState newStateManager) in
  operations (snapshot (snd (addOperation sampleUUID sampleOperation w1)) copy) =
    [fullOperation "uuid-0" sampleOperation] /\
  operations (stored (snd (addOperation sampleUUID sampleOperation w1))) =
    [fullOperation "uuid-0" sampleOperation].
Proof.
  split; [|reflexivity].
  exact (proj1 (copy_follows_in_place_changes_only sampleUUID newStateManager
                  sampleOperation "uuid-0"
                  (mkHistoryEntryInput None 1700000000000 "file.create" "claude"
                     "claude-3-5-sonnet" "success" 12 None)
                  (conj (le_n 3) (conj (le_S _ _ (le_S _ _ (le_n 1)))
                                       (le_S _ _ (le_n 2)))))).
Defined.

(** ** Reset and the history *)

(** X24.  [reset] gives the state every field has in a new manager, and keeps
    the listeners: nobody is unsubscribed. *)
Theorem reset_gives_the_initial_state (w : World) :
  stored (reset w) = stored newStateManager /\
  changeListeners (reset w) = changeListeners w.
Proof.
  unfold reset. cbn [fst snd allocState allocOperations allocHistory].
  rewrite SidebarSpec.stored_notify, listeners_notify. split; [|reflexivity].
  read_store. cbn.
  repeat (first [rewrite lookup_insert_eq
                |rewrite lookup_insert_ne by lia]; cbn).
  reflexivity.
Qed.

(** X25.  Whatever the history holds -- [setState] can install one of any
    length -- after [addToHistory] it has the new entry first, then the
    entries it had, and at most 50 entries in all.  The call returns the
    identifier it generated.  The new entry has the fields of the argument;
    it is stored under the [id] the argument carries when it carries one,
    and under the identifier the call returns otherwise. *)
Theorem addToHistory_caps_any_history
    (generateUUID : nat -> string) (entry : HistoryEntryInput) (w : World) :
  let i := fst (addToHistory generateUUID entry w) in
  let after := history (stored (snd (addToHistory generateUUID entry w))) in
  i = generateUUID (uuidCalls w) /\
  after =
    (mkHistoryEntry (match in_id entry with Some own => own | None => i end)
       (in_timestamp entry) (in_commandId entry) (in_ai entry) (in_model entry)
       (in_status entry) (in_duration entry) (in_message entry)
     :: take 49 (history (stored w)))%list /\
  length after = Nat.min 50 (S (length (history (stored w)))).
Proof.
  cbv zeta.
  destruct (SidebarSpec.addToHistory_step generateUUID entry w) as (Hi & _ & Hh).
  rewrite Hh, Hi. split; [reflexivity|]. split.
  - unfold fullEntry. destruct (in_id entry); reflexivity.
  - rewrite length_take. cbn [length]. lia.
Qed.

(** The function [on] returns removes every registration of its callback:
    a function subscribed twice is called twice by each notification, and
    not at all after one call of [unsubscribe]. *)
Lemma unsubscribe_removes_every_registration (callback : Listener) (w : World) :
  Forall (fun l => (fst l < nextListener w)%nat) (changeListeners w) ->
  let n := fst (on callback w) in
  let twice := onAgain n (snd (on callback w)) in
  changeListeners twice =
    (changeListeners w ++ [(n, callback); (n, callback)])%list /\
  changeListeners (unsubscribe n twice) = changeListeners w.
Proof.
  intros Hfresh. cbv zeta. unfold on, onAgain. cbn [fst snd changeListeners with_listeners].
  assert (Hnone : List.find (fun l : nat * Listener => Nat.eqb (fst l) (nextListener w))
                    (changeListeners w) = None).
  { induction Hfresh as [|l rest Hl _ IH]; [reflexivity|]. simpl.
    destruct (Nat.eqb_spec (fst l) (nextListener w)) as [E|_]; [lia|exact IH]. }
  rewrite RegistrySpec.find_app_first, Hnone. simpl. rewrite Nat.eqb_refl.
  cbn [fst snd changeListeners with_listeners]. rewrite <- app_assoc. split; [reflexivity|].
  unfold unsubscribe. cbn [changeListeners with_listeners].
  rewrite filter_app. cbn [app].
  rewrite !filter_cons_False by (intros Hd; apply Hd; reflexivity).
  rewrite filter_nil, app_nil_r. clear Hnone.
  induction Hfresh as [|l rest Hl _ IH]; [reflexivity|].
  rewrite filter_cons_True by lia. rewrite IH. reflexivity.
Qed.

End ManagerSpec.

(* ===================================================================== *)
(** * Properties of the transport *)
(* ===================================================================== *)

Module TransportSpec.
Import Transport.

Section Reconnection.

Variable getUrl : nat -> string.

Lemma wsIsOpen_tryConnect c : wsIsOpen (tryConnect getUrl c) = false.
Proof.
  unfold wsIsOpen, tryConnect, readyStateOf; simpl.
  rewrite lookup_app_r by lia.
  replace (_ - _)%nat with 0%nat by lia. reflexivity.
Qed.

Lemma wsIsOpen_set_readyState c i r :
  r <> OPEN -> wsIsOpen c = false -> wsIsOpen (set_readyState i r c) = false.
Proof.
  intros Hr. unfold wsIsOpen, set_readyState, readyStateOf; simpl.
  destruct (ws c) as [j|]; [|reflexivity].
  destruct (decide (i = j)) as [->|Hij].
  - rewrite list_lookup_alter_eq.
    destruct (sockets c !! j); simpl; [|reflexivity].
    intros _. destruct r; try reflexivity. contradiction.
  - rewrite list_lookup_alter_ne by assumption. auto.
Qed.

Lemma invariant_initial : invariant initial.
Proof. unfold invariant; simpl. repeat split; try lia. Qed.

Lemma invariant_tryConnect c :
  maxDelay c = 30000 -> 1000 <= reconnectDelay c <= 30000 ->
  invariant (tryConnect getUrl c).
Proof.
  intros Hm Hd. unfold invariant. split; [exact Hm|]. split; [exact Hd|].
  intros _. apply wsIsOpen_tryConnect.
Qed.

Lemma invariant_step ev c c' :
  invariant c -> step getUrl ev c = Some c' -> invariant c'.
Proof.
  intros (Hm & Hd & Hc) Hstep.
  assert (Hset : forall i r, r <> OPEN -> connecting c = true ->
            wsIsOpen (set_readyState i r c) = false).
  { intros i r Hr H. apply wsIsOpen_set_readyState; auto. }
  destruct ev; simpl in Hstep.
  - (* connect() *)
    injection Hstep as <-. unfold connect.
    destruct (connecting c && wsIsOpen c) eqn:E.
    + split; [exact Hm|split; [exact Hd|exact Hc]].
    + apply invariant_tryConnect; assumption.
  - (* close() *)
    injection Hstep as <-. unfold close; simpl.
    destruct (ws c) as [i|] eqn:Ews;
      [|split; [exact Hm|split; [exact Hd|exact Hc]]].
    destruct (readyStateOf _ i) as [[]|];
      (split; [exact Hm|split; [exact Hd|]]);
      first [ exact Hc | exact (Hset i CLOSING ltac:(discriminate)) ].
  - (* a socket opens *)
    destruct (readyStateOf c i) as [[]|]; try discriminate.
    injection Hstep as <-.
    split; [exact Hm|split; [simpl; lia|simpl; discriminate]].
  - (* a message arrives *)
    destruct (readyStateOf c i) as [[]|]; try discriminate.
    injection Hstep as <-. split; [exact Hm|split; [exact Hd|exact Hc]].
  - (* a connection error *)
    destruct (readyStateOf c i) as [[]|]; try discriminate;
      injection Hstep as <-; (split; [exact Hm|split; [exact Hd|exact Hc]]).
  - (* a socket closes *)
    destruct (readyStateOf c i) as [[]|]; try discriminate;
      simpl in Hstep; destruct (shouldReconnect c); simpl in Hstep;
      injection Hstep as <-;
      (split; [exact Hm|split; [exact Hd|]]);
      exact (Hset i CLOSED ltac:(discriminate)).
  - (* a reconnect timer comes due *)
    destruct (timers c !! k); try discriminate.
    injection Hstep as <-. apply invariant_tryConnect; simpl; lia.
Qed.

Lemma invariant_reachable c : reachable getUrl c -> invariant c.
Proof.
  induction 1 as [|ev c c' _ IH Hstep].
  - apply invariant_initial.
  - eapply invariant_step; eassumption.
Qed.



(** In a reachable state the guard of [connect] never holds, so [connect]
    always creates a socket. *)
Lemma connect_always_creates_socket c :
  reachable getUrl c ->
  sockets (connect getUrl c) =
  (sockets c ++ [mkSocket (getUrl (length (sockets c))) CONNECTING])%list.
Proof.
  intros Hr. destruct (invariant_reachable c Hr) as (_ & _ & Hc).
  unfold connect. destruct (connecting c) eqn:E; simpl.
  - rewrite (Hc eq_refl). reflexivity.
  - reflexivity.
Qed.




End Reconnection.


(** C8 (the code departs from the specification).  After [connect()] and the
    socket's [open] event the connection is open; a second [connect()] is
    not a no-op: it creates a second socket, which becomes the current one,
    while the first stays open. *)
Theorem connect_while_open_opens_second_socket (getUrl : nat -> string) :
  exists c,
    run getUrl [CallConnect; SocketOpen 0%nat] initial = Some c /\
    wsIsOpen c = true /\
    length (sockets c) = 1%nat /\
    connect getUrl c <> c /\
    length (sockets (connect getUrl c)) = 2%nat /\
    readyStateOf (connect getUrl c) 0 = Some OPEN /\
    readyStateOf (connect getUrl c) 1 = Some CONNECTING /\
    ws (connect getUrl c) = Some 1%nat.
Proof.
  eexists. split; [reflexivity|].
  repeat split; try reflexivity.
  intros H. apply (f_equal (fun c => length (sockets c))) in H.
  discriminate H.
Qed.

End TransportSpec.

(* ===================================================================== *)
(** * Properties of the reconnecting client *)
(* ===================================================================== *)

Module ReconnectionSpec.
Import Transport Reconnection.

Section Shape.

Variable getUrl : nat -> string.

Lemma newest_tryConnect c :
  ws (tryConnect getUrl c) = newest (tryConnect getUrl c).
Proof.
  unfold newest, tryConnect. simpl. rewrite length_app. simpl.
  replace (length (sockets c) + 1)%nat with (S (length (sockets c))) by lia.
  reflexivity.
Qed.

Lemma newest_set_readyState i r c : newest (set_readyState i r c) = newest c.
Proof. unfold newest, set_readyState. simpl. rewrite length_alter. reflexivity. Qed.

Lemma doubled_is_backoff d :
  isBackoffDelay d = true -> isBackoffDelay (Z.min (d * 2) 30000) = true.
Proof.
  unfold isBackoffDelay. intros H. apply existsb_exists in H.
  destruct H as (x & Hx & Heq). apply Z.eqb_eq in Heq. subst x.
  simpl in Hx. repeat (destruct Hx as [Hx|Hx]; [subst d; reflexivity|]).
  contradiction.
Qed.

Ltac same_newest Hw :=
  unfold newest in *; simpl; rewrite ?length_alter; first [exact Hw|congruence].

Lemma shape_step ev c c' :
  maxDelay c = 30000 -> shape c -> step getUrl ev c = Some c' -> shape c'.
Proof.
  intros Hm (Hd & Ht & Hw) Hstep.
  destruct ev; simpl in Hstep.
  - injection Hstep as <-. unfold connect.
    destruct (connecting c && wsIsOpen c); [split; [exact Hd|split; [exact Ht|exact Hw]]|].
    split; [exact Hd|]. split; [exact Ht|]. apply newest_tryConnect.
  - injection Hstep as <-. unfold close; simpl.
    destruct (ws c) as [i|] eqn:Ews;
      [|split; [exact Hd|split; [exact Ht|same_newest Hw]]].
    destruct (readyStateOf _ i) as [[]|];
      (split; [exact Hd|split; [exact Ht|same_newest Hw]]).
  - destruct (readyStateOf c i) as [[]|]; try discriminate.
    injection Hstep as <-.
    split; [reflexivity|]. split; [exact Ht|same_newest Hw].
  - destruct (readyStateOf c i) as [[]|]; try discriminate.
    injection Hstep as <-. split; [exact Hd|split; [exact Ht|exact Hw]].
  - destruct (readyStateOf c i) as [[]|]; try discriminate;
      injection Hstep as <-; (split; [exact Hd|split; [exact Ht|exact Hw]]).
  - destruct (readyStateOf c i) as [[]|]; try discriminate;
      simpl in Hstep; destruct (shouldReconnect c); simpl in Hstep;
      injection Hstep as <-;
      (split; [exact Hd|]);
      (split; [first [exact Ht|simpl; apply Forall_app; split;
                       [exact Ht|constructor; [exact Hd|constructor]]]|]);
      same_newest Hw.
  - destruct (timers c !! k); try discriminate.
    injection Hstep as <-.
    split; [|split].
    + simpl. rewrite Hm. apply doubled_is_backoff. exact Hd.
    + simpl. apply Forall_delete. exact Ht.
    + apply newest_tryConnect.
Qed.

Lemma shape_reachable c : reachable getUrl c -> shape c.
Proof.
  induction 1 as [|ev c c' Hr IH Hstep].
  - split; [reflexivity|]. split; [constructor|reflexivity].
  - apply (shape_step ev c c'); [|exact IH|exact Hstep].
    apply (TransportSpec.invariant_reachable getUrl c Hr).
Qed.

(** X26.  Whatever the client has gone through, its delay and the delay of every
    armed timer is one of 1000, 2000, 4000, 8000, 16000 and 30000
    milliseconds, and its current socket is the socket created last:
    sockets created before are not referred to any more, though nothing
    closes them. *)
Theorem delays_are_backoff_steps_and_current_socket_is_newest (c : Client) :
  reachable getUrl c ->
  In (reconnectDelay c) backoffDelays /\
  (forall d, In d (timers c) -> In d backoffDelays) /\
  ws c = match sockets c with
         | [] => None
         | _ :: _ => Some (length (sockets c) - 1)%nat
         end.
Proof.
  intros Hr. destruct (shape_reachable c Hr) as (Hd & Ht & Hw).
  assert (Hin : forall d, isBackoffDelay d = true -> In d backoffDelays).
  { intros d H. unfold isBackoffDelay in H. apply existsb_exists in H.
    destruct H as (x & Hx & Heq). apply Z.eqb_eq in Heq. subst x. exact Hx. }
  split; [apply Hin; exact Hd|]. split.
  - intros d Hd'. apply Hin. rewrite List.Forall_forall in Ht. apply Ht. exact Hd'.
  - rewrite Hw. unfold newest. destruct (sockets c) as [|s l]; simpl; [reflexivity|].
    f_equal. lia.
Qed.

(** X27.  [close()] does not disarm a reconnect timer that is pending.  When the
    timer comes due after [close()], its callback still creates a socket,
    which becomes the current one: the client connects again although it
    was closed.  (That socket, once closed, arms no further timer.) *)
Theorem close_leaves_reconnect_timers_armed (c : Client) (k : nat) (d : Z) :
  timers c !! k = Some d ->
  timers (close c) = timers c /\
  shouldReconnect (close c) = false /\
  exists c',
    step getUrl (TimerFire k) (close c) = Some c' /\
    sockets c' =
      (sockets (close c) ++ [mkSocket (getUrl (length (sockets c))) CONNECTING])%list /\
    ws c' = Some (length (sockets c)) /\
    readyStateOf c' (length (sockets c)) = Some CONNECTING /\
    shouldReconnect c' = false.
Proof.
  intros Hk.
  assert (Ht : timers (close c) = timers c).
  { unfold close. simpl. destruct (ws c) as [i|]; [|reflexivity].
    destruct (readyStateOf _ i) as [[]|]; reflexivity. }
  assert (Hs : shouldReconnect (close c) = false).
  { unfold close. simpl. destruct (ws c) as [i|]; [|reflexivity].
    destruct (readyStateOf _ i) as [[]|]; reflexivity. }
  assert (Hl : length (sockets (close c)) = length (sockets c)).
  { unfold close. simpl. destruct (ws c) as [i|]; [|reflexivity].
    destruct (readyStateOf _ i) as [[]|]; simpl; rewrite ?length_alter; reflexivity. }
  split; [exact Ht|]. split; [exact Hs|].
  simpl. rewrite Ht, Hk. eexists. split; [reflexivity|].
  unfold tryConnect. simpl. rewrite Hl. split; [reflexivity|]. split; [reflexivity|].
  split; [|exact Hs].
  unfold readyStateOf. simpl. rewrite lookup_app_r by lia.
  rewrite Hl. replace (_ - _)%nat with 0%nat by lia. reflexivity.
Qed.

End Shape.

Lemma reachable_lost_once : reachable (fun _ => "ws://localhost:8000") lost_once.
Proof.
  eapply reachable_step with (ev := SocketClose 0%nat).
  - eapply reachable_step with (ev := CallConnect).
    + apply reachable_initial.
    + reflexivity.
  - reflexivity.
Defined.

Lemma delays_are_backoff_steps_and_current_socket_is_newest_witness :
  In (reconnectDelay lost_once) backoffDelays /\ ws lost_once = Some 0%nat.
Proof.
  destruct (delays_are_backoff_steps_and_current_socket_is_newest
              (fun _ => "ws://localhost:8000") lost_once reachable_lost_once)
    as (Hd & _ & Hw).
  split; [exact Hd|exact Hw].
Defined.

Lemma close_leaves_reconnect_timers_armed_witness :
  timers (close lost_once) = [1000] /\
  exists c',
    step (fun _ => "ws://localhost:8000") (TimerFire 0) (close lost_once) = Some c' /\
    ws c' = Some 1%nat.
Proof.
  destruct (close_leaves_reconnect_timers_armed (fun _ => "ws://localhost:8000")
              lost_once 0 1000 eq_refl)
    as (Ht & _ & c' & Hstep & _ & Hw & _).
  split; [exact Ht|]. exists c'. split; [exact Hstep|exact Hw].
Defined.

End ReconnectionSpec.
